(** * adifpush-enhanced: the duplicate-safe ingestion-and-forward pipeline

    A shallow embedding of [adifpush_enhanced.py] (record parsing, the
    duplicate key, the persisted duplicate cache, the upload client, the file
    ingestor and the live listener) and the properties the specification
    states about them.

    Conventions of the embedding.
    - A Python [str] is a [string]; a character is the code point it denotes,
      for the code points 0-255 (the character classes of [re] and of the
      [str] methods are written out for that whole range).
    - A Python [set] of strings is a [gset string], a [dict] from strings to
      strings a [gmap string string].
    - The outside world (the cache file, the HTTP server, the log file being
      opened) is explicit: the cache file is a field of the world, the server
      and the file system answer through oracles, and every request and
      every sleep is recorded in a trace.
    - [print] calls, and the [show_progress] arguments that only guard
      them, are left out: nothing that is stated here reads the console. *)

From Stdlib Require Import ZArith NArith Ascii String List Lia Sorted.
From Stdlib Require Import DecimalString.
From stdpp Require Import base option list strings sorting gmap.

Local Open Scope Z_scope.

(** ** Python [str] primitives used by the program *)

Module PyStr.

Definition code (c : ascii) : N := N_of_ascii c.

Definition in_range (lo hi : N) (c : ascii) : bool :=
  ((lo <=? code c) && (code c <=? hi))%N.

(** [\d] of [re] on [str] patterns: the decimal digits. *)
Definition is_digit (c : ascii) : bool := in_range 48 57 c.

(** [\w] of [re] on [str] patterns: alphanumeric code points and the
    underscore. *)
Definition is_word (c : ascii) : bool :=
  in_range 48 57 c || in_range 65 90 c || in_range 97 122 c
  || (code c =? 95)%N
  || (code c =? 170)%N || in_range 178 179 c || (code c =? 181)%N
  || in_range 185 186 c || in_range 188 190 c
  || in_range 192 214 c || in_range 216 246 c || in_range 248 255 c.

(** [str.isspace] on one character, which is what [str.strip()] removes. *)
Definition is_space (c : ascii) : bool :=
  in_range 9 13 c || in_range 28 32 c
  || (code c =? 133)%N || (code c =? 160)%N.

(** [str.lower] on one character. *)
Definition lower_char (c : ascii) : ascii :=
  if in_range 65 90 c
     || (in_range 192 222 c && negb (code c =? 215)%N)
  then ascii_of_N (code c + 32) else c.

Fixpoint lower (s : string) : string :=
  match s with
  | EmptyString => EmptyString
  | String c s' => String (lower_char c) (lower s')
  end.

Fixpoint lstrip (s : string) : string :=
  match s with
  | EmptyString => EmptyString
  | String c s' => if is_space c then lstrip s' else s
  end.

Fixpoint rstrip (s : string) : string :=
  match s with
  | EmptyString => EmptyString
  | String c s' =>
      match rstrip s' with
      | EmptyString => if is_space c then EmptyString else String c EmptyString
      | r => String c r
      end
  end.

(** [s.strip()] *)
Definition strip (s : string) : string := rstrip (lstrip s).

(** [s.split(sep)] for a one-character separator: never the empty list. *)
Fixpoint split (sep : ascii) (s : string) : list string :=
  match s with
  | EmptyString => [EmptyString]
  | String c s' =>
      if Ascii.eqb c sep then EmptyString :: split sep s'
      else match split sep s' with
           | h :: t => String c h :: t
           | [] => [String c EmptyString]
           end
  end.

(** [sep.join(l)] *)
Fixpoint join (sep : string) (l : list string) : string :=
  match l with
  | [] => EmptyString
  | [x] => x
  | x :: rest => x +:+ sep +:+ join sep rest
  end.

(** [s.startswith(p)] *)
Definition startswith (p s : string) : bool := String.prefix p s.

(** [sub in s] *)
Fixpoint contains (sub s : string) : bool :=
  String.prefix sub s ||
  match s with
  | EmptyString => false
  | String _ s' => contains sub s'
  end.

(** [s.replace(c, '')] for a one-character [c]. *)
Fixpoint replace_char_empty (c : ascii) (s : string) : string :=
  match s with
  | EmptyString => EmptyString
  | String d s' =>
      if Ascii.eqb d c then replace_char_empty c s'
      else String d (replace_char_empty c s')
  end.

(** [s[:n]] *)
Definition slice_to (n : nat) (s : string) : string := String.substring 0 n s.

(** [str(n)] for a non-negative integer. *)
Definition str_of_N (n : N) : string := NilEmpty.string_of_uint (N.to_uint n).

(** [not s]: the empty string is falsy. *)
Definition is_empty (s : string) : bool :=
  match s with EmptyString => true | _ => false end.

(** [s.encode()]: UTF-8, for code points below 256. *)
Fixpoint encode (s : string) : list Z :=
  match s with
  | EmptyString => []
  | String c s' =>
      let n := Z.of_N (code c) in
      if n <? 128 then n :: encode s'
      else Z.lor 192 (Z.shiftr n 6) :: Z.lor 128 (Z.land n 63) :: encode s'
  end.

(** [sep in s] and then [s.split(sep, 1)], for a one-character separator:
    what stands before the first separator and what stands after it;
    [None] when there is no separator. *)
Fixpoint split_once (sep : ascii) (s : string) : option (string * string) :=
  match s with
  | EmptyString => None
  | String c s' =>
      if Ascii.eqb c sep then Some (EmptyString, s')
      else match split_once sep s' with
           | Some (key, value) => Some (String c key, value)
           | None => None
           end
  end.

(** What reading in text mode does to line ends: a carriage return, with
    the line feed after it if there is one, is read as one line feed. *)
Fixpoint universal_newlines (s : string) : string :=
  match s with
  | EmptyString => EmptyString
  | String c s' =>
      if Ascii.eqb c "013"
      then String "010"
             match s' with
             | EmptyString => EmptyString
             | String c' s'' =>
                 if Ascii.eqb c' "010" then universal_newlines s''
                 else universal_newlines s'
             end
      else String c (universal_newlines s')
  end.

End PyStr.

(** ** [hashlib.sha256(...).hexdigest()] (FIPS 180-4) *)

Module Sha256.

Definition w32 (x : Z) : Z := x mod 2 ^ 32.
Definition add32 (x y : Z) : Z := w32 (x + y).
Definition rotr (n x : Z) : Z :=
  w32 (Z.lor (Z.shiftr x n) (Z.shiftl x (32 - n))).
Definition shr (n x : Z) : Z := Z.shiftr x n.

Definition Ch (x y z : Z) : Z :=
  Z.lxor (Z.land x y) (Z.land (Z.lxor x (2 ^ 32 - 1)) z).
Definition Maj (x y z : Z) : Z :=
  Z.lxor (Z.lxor (Z.land x y) (Z.land x z)) (Z.land y z).
Definition Sigma0 (x : Z) : Z :=
  Z.lxor (Z.lxor (rotr 2 x) (rotr 13 x)) (rotr 22 x).
Definition Sigma1 (x : Z) : Z :=
  Z.lxor (Z.lxor (rotr 6 x) (rotr 11 x)) (rotr 25 x).
Definition sigma0 (x : Z) : Z :=
  Z.lxor (Z.lxor (rotr 7 x) (rotr 18 x)) (shr 3 x).
Definition sigma1 (x : Z) : Z :=
  Z.lxor (Z.lxor (rotr 17 x) (rotr 19 x)) (shr 10 x).

(** The first 64 primes. *)
Definition is_prime (n : nat) : bool :=
  forallb (fun d => negb (n mod d =? 0)%nat) (seq 2 (n - 2)).

Definition primes : list Z :=
  map Z.of_nat (List.filter is_prime (seq 2 310)).

(** The integer cube root, one bit at a time from bit [bits - 1] down. *)
Fixpoint cube_root (bits : nat) (n r : Z) : Z :=
  match bits with
  | O => r
  | S bits' =>
      let r' := r + 2 ^ Z.of_nat bits' in
      cube_root bits' n (if r' * r' * r' <=? n then r' else r)
  end.

(** The round constants: the first 32 bits of the fractional part of the
    cube root of each of the first 64 primes. *)
Definition K : list Z :=
  Eval vm_compute in map (fun p => w32 (cube_root 36 (p * 2 ^ 96) 0)) primes.

(** The eight working words. *)
Record state := State { sa : Z; sb : Z; sc : Z; sd : Z;
                        se : Z; sf : Z; sg : Z; sh : Z }.

(** The initial hash value: the first 32 bits of the fractional part of
    the square root of each of the first 8 primes. *)
Definition H0 : state :=
  Eval vm_compute in
    match map (fun p => w32 (Z.sqrt (p * 2 ^ 64))) (firstn 8 primes) with
    | [a; b; c; d; e; f; g; h] => State a b c d e f g h
    | _ => State 0 0 0 0 0 0 0 0
    end.

(** Padding: a 1 bit, zeros up to 56 mod 64, the bit length on 64 bits. *)
Definition be_bytes (n : nat) (x : Z) : list Z :=
  map (fun i => Z.land (Z.shiftr x (8 * Z.of_nat i)) 255) (rev (seq 0 n)).

Definition pad (msg : list Z) : list Z :=
  let len := Z.of_nat (length msg) in
  let zeros := Z.to_nat ((55 - len) mod 64) in
  msg ++ [128] ++ repeat 0 zeros ++ be_bytes 8 (8 * len).

(** Big-endian 32-bit words of a byte list. *)
Fixpoint words (fuel : nat) (bs : list Z) : list Z :=
  match fuel, bs with
  | S fuel', b0 :: b1 :: b2 :: b3 :: rest =>
      (Z.shiftl b0 24 + Z.shiftl b1 16 + Z.shiftl b2 8 + b3)
        :: words fuel' rest
  | _, _ => []
  end.

(** Message schedule: [rw] holds the words computed so far, newest first. *)
Fixpoint schedule (n : nat) (rw : list Z) : list Z :=
  match n with
  | O => rev rw
  | S n' =>
      let w := add32 (add32 (sigma1 (nth 1 rw 0)) (nth 6 rw 0))
                     (add32 (sigma0 (nth 14 rw 0)) (nth 15 rw 0)) in
      schedule n' (w :: rw)
  end.

Definition round (s : state) (kw : Z * Z) : state :=
  let '(k, w) := kw in
  let t1 := add32 (add32 (add32 (sh s) (Sigma1 (se s)))
                         (add32 (Ch (se s) (sf s) (sg s)) k)) w in
  let t2 := add32 (Sigma0 (sa s)) (Maj (sa s) (sb s) (sc s)) in
  State (add32 t1 t2) (sa s) (sb s) (sc s)
        (add32 (sd s) t1) (se s) (sf s) (sg s).

Definition compress (h : state) (block : list Z) : state :=
  let w := schedule 48 (rev block) in
  let s := fold_left round (combine K w) h in
  State (add32 (sa h) (sa s)) (add32 (sb h) (sb s))
        (add32 (sc h) (sc s)) (add32 (sd h) (sd s))
        (add32 (se h) (se s)) (add32 (sf h) (sf s))
        (add32 (sg h) (sg s)) (add32 (sh h) (sh s)).

Fixpoint blocks (fuel : nat) (h : state) (ws : list Z) : state :=
  match fuel, ws with
  | S fuel', _ :: _ => blocks fuel' (compress h (firstn 16 ws)) (skipn 16 ws)
  | _, _ => h
  end.

Definition digest (msg : list Z) : state :=
  let bs := pad msg in
  let ws := words (length bs) bs in
  blocks (length ws) H0 ws.

(** Lower-case hexadecimal, one digit per four bits. *)
Definition hexdigit (b3 b2 b1 b0 : bool) : ascii :=
  match b3, b2, b1, b0 with
  | false, false, false, false => "0"
  | false, false, false, true => "1"
  | false, false, true, false => "2"
  | false, false, true, true => "3"
  | false, true, false, false => "4"
  | false, true, false, true => "5"
  | false, true, true, false => "6"
  | false, true, true, true => "7"
  | true, false, false, false => "8"
  | true, false, false, true => "9"
  | true, false, true, false => "a"
  | true, false, true, true => "b"
  | true, true, false, false => "c"
  | true, true, false, true => "d"
  | true, true, true, false => "e"
  | true, true, true, true => "f"
  end%char.

Definition nibble (x : Z) (i : Z) : ascii :=
  hexdigit (Z.testbit x (4 * i + 3)) (Z.testbit x (4 * i + 2))
           (Z.testbit x (4 * i + 1)) (Z.testbit x (4 * i)).

Definition hex32 (x : Z) (rest : string) : string :=
  String (nibble x 7) (String (nibble x 6) (String (nibble x 5)
  (String (nibble x 4) (String (nibble x 3) (String (nibble x 2)
  (String (nibble x 1) (String (nibble x 0) rest))))))).

Definition hex_of_state (s : state) : string :=
  hex32 (sa s) (hex32 (sb s) (hex32 (sc s) (hex32 (sd s)
  (hex32 (se s) (hex32 (sf s) (hex32 (sg s) (hex32 (sh s) EmptyString))))))).

(** [hashlib.sha256(s.encode()).hexdigest()] *)
Definition hexdigest (s : string) : string :=
  hex_of_state (digest (PyStr.encode s)).

End Sha256.

(** ** The two regular expressions of the program

    [re] is a backtracking matcher; for these two patterns every greedy
    repetition is followed by a character outside its class, so the longest
    run is the only one that can succeed and the matcher below is
    deterministic. *)

Module Regex.
Import PyStr.

(** The longest prefix whose characters satisfy [p], and the rest. *)
Fixpoint span (p : ascii -> bool) (s : string) : string * string :=
  match s with
  | EmptyString => (EmptyString, EmptyString)
  | String c s' =>
      if p c then let '(a, b) := span p s' in (String c a, b)
      else (EmptyString, s)
  end.

Definition not_lt (c : ascii) : bool := negb (Ascii.eqb c "<").

(** The pattern of [parse_line], [<(\w+):(\d+)>] followed by a group of
    characters other than [<], anchored at the start of [s]: the three
    groups and the number of characters matched. *)
Definition match_tag (s : string) : option (string * string * string * nat) :=
  match s with
  | String "<" s1 =>
      let '(key, s2) := span is_word s1 in
      if is_empty key then None else
      match s2 with
      | String ":" s3 =>
          let '(len, s4) := span is_digit s3 in
          if is_empty len then None else
          match s4 with
          | String ">" s5 =>
              let '(value, _) := span not_lt s5 in
              Some (key, len, value,
                    (3 + String.length key + String.length len
                     + String.length value)%nat)
          | _ => None
          end
      | _ => None
      end
  | _ => None
  end.

(** [re.findall]: scan left to right; after a match the scan resumes at
    the end of the match, so the [skip] characters inside it are passed
    over. *)
Fixpoint findall_from (skip : nat) (s : string)
  : list (string * string * string) :=
  match s with
  | EmptyString => []
  | String _ s' =>
      match skip with
      | S k => findall_from k s'
      | O =>
          match match_tag s with
          | Some (key, len, value, n) =>
              (key, len, value) :: findall_from (n - 1) s'
          | None => findall_from 0 s'
          end
      end
  end.

(** [re.findall(pattern, line, re.IGNORECASE)]; the flag changes nothing,
    the pattern has no cased literal. *)
Definition findall_tags (line : string) : list (string * string * string) :=
  findall_from 0 line.

(** [s] without the prefix [p], when it starts with it. *)
Fixpoint strip_prefix (p s : string) : option string :=
  match p, s with
  | EmptyString, _ => Some s
  | String a p', String b s' =>
      if Ascii.eqb a b then strip_prefix p' s' else None
  | _, _ => None
  end.

(** [.*?<EOR>]: the shortest run of characters other than a newline that
    is followed by the end-of-record marker. *)
Fixpoint lazy_to_eor (s : string) : option string :=
  if String.prefix "<EOR>" s then Some "<EOR>"%string
  else match s with
       | EmptyString => None
       | String c s' =>
           if Ascii.eqb c "010" then None
           else String c <$> lazy_to_eor s'
       end.

(** [<QSO_DATE:\d+>\d+.*?<EOR>] anchored at the start of [s]: the text
    matched. *)
Definition match_record (s : string) : option string :=
  match strip_prefix "<QSO_DATE:" s with
  | None => None
  | Some s1 =>
      let '(d1, s2) := span is_digit s1 in
      if is_empty d1 then None else
      match s2 with
      | String ">" s3 =>
          let '(d2, s4) := span is_digit s3 in
          if is_empty d2 then None else
          match lazy_to_eor s4 with
          | Some tail => Some ("<QSO_DATE:" +:+ d1 +:+ ">" +:+ d2 +:+ tail)
          | None => None
          end
      | _ => None
      end
  end.

(** [re.search(r'<QSO_DATE:\d+>\d+.*?<EOR>', text)], then [.group(0)]:
    the leftmost match. *)
Fixpoint search_record (text : string) : option string :=
  match match_record text with
  | Some m => Some m
  | None =>
      match text with
      | EmptyString => None
      | String _ text' => search_record text'
      end
  end.

End Regex.

(** ** The outside world *)

(** The JSON body of a request. *)
Record payload := Payload {
  p_key : string;
  p_station_profile_id : string;
  p_type : string;
  p_string : string
}.

(** What [session.post] does: a response, a [RequestException] (timeout,
    DNS, refused connection), or some other exception. *)
Inductive post_outcome :=
  | Responded (status_code : N) (text : string)
  | RaisedRequestException (str_e : string)
  | RaisedOther (str_e : string).

(** What [open(filepath, 'r')] followed by [readlines()] does: the lines,
    an [IOError] (a lock, a missing file, no permission), or an exception
    that is no [IOError] (bytes that do not decode make [readlines] raise
    [UnicodeDecodeError]). *)
Inductive open_outcome :=
  | Opened (lines : list string)
  | Locked (str_e : string)
  | Failed (str_e : string).

(** What a file holds, as [Path.read_text] finds it: the text that was
    written, or bytes that do not decode, which make reading raise. *)
Inductive file :=
  | Text (content : string)
  | Unreadable.

Inductive event :=
  | EvOpen (filepath : string)
  | EvSleep (milliseconds : N)
  | EvPost (endpoint : string) (body : payload).

(** The part of the world the program changes: the cache file
    [~/.adifpush/uploaded_qsos] ([None] when it does not exist) and what
    happened so far, oldest first. *)
Record world := World {
  cache_file : option file;
  trace : list event
}.

(** The part the program only observes; an answer may depend on all that
    happened before. *)
Record env := Env {
  fs_open : list event -> string -> open_outcome;
  http_post : list event -> string -> payload -> post_outcome
}.

Inductive exn :=
  | IOError (str_e : string)
  | OtherError (str_e : string).

Inductive result (A : Type) :=
  | Ok (a : A)
  | Raise (e : exn).
Arguments Ok {A} a.
Arguments Raise {A} e.

(** Computations that change the world and may raise. *)
Definition M (A : Type) : Type := world -> result A * world.

Definition ret {A} (a : A) : M A := fun w => (Ok a, w).
Definition raise {A} (e : exn) : M A := fun w => (Raise e, w).
Definition bind {A B} (c : M A) (k : A -> M B) : M B :=
  fun w => match c w with
           | (Ok a, w') => k a w'
           | (Raise e, w') => (Raise e, w')
           end.

Notation "'do' x <~ c ; k" := (bind c (fun x => k))
  (at level 10, x name, c at level 100, k at level 200).
Notation "'exec' c ; k" := (bind c (fun _ => k))
  (at level 10, c at level 100, k at level 200).

Definition log (ev : event) : M unit :=
  fun w => (Ok tt, World (cache_file w) (trace w ++ [ev])).

(** [for x in l: st = body(st, x)] *)
Fixpoint for_each {A S} (body : S -> A -> M S) (l : list A) (st : S) : M S :=
  match l with
  | [] => ret st
  | x :: l' => do st' <~ body st x ; for_each body l' st'
  end.

(** ** [class Config]: the duplicate cache *)

Module Config.
Import PyStr.

(** [Config.load_uploaded_qsos()]. [ensure_dir] touches nothing modelled.
    [read_text] reads in text mode, so line ends are translated before the
    text is trimmed and split; when it raises, the bare [except] answers
    the empty set. *)
Definition load_uploaded_qsos : M (gset string) :=
  fun w =>
    match cache_file w with
    | None => (Ok ∅, w)
    | Some (Text content) =>
        (Ok (list_to_set (split "010" (strip (universal_newlines content)))), w)
    | Some Unreadable => (Ok ∅, w)
    end.

(** [sorted(uploaded)] on a set of strings: ascending by code points. *)
Definition sorted (uploaded : gset string) : list string :=
  merge_sort String.le (elements uploaded).

(** [Config.CACHE_FILE.write_text(content)]: the file holds the text
    afterwards (line feeds as they are, as on every system but Windows,
    where they are written as CR LF and read back as line feeds); writing is
    taken to succeed. *)
Definition write_cache (content : string) : M unit :=
  fun w => (Ok tt, World (Some (Text content)) (trace w)).

(** [Config.save_uploaded_qso(qso_hash)] *)
Definition save_uploaded_qso (qso_hash : string) : M unit :=
  do uploaded <~ load_uploaded_qsos ;
  let uploaded := {[ qso_hash ]} ∪ uploaded in
  write_cache (join (String "010" EmptyString) (sorted uploaded)).

(** The "clear duplicate cache" branch of [main]:
    [Config.CACHE_FILE.unlink(missing_ok=True)]. *)
Definition clear_cache : M unit :=
  fun w => (Ok tt, World None (trace w)).

(** [Config.save(url, api_key, station_id)]: the text it writes to the
    configuration file. *)
Definition save (url api_key station_id : string) : string :=
  "url=" +:+ url +:+ String "010" ("apikey=" +:+ api_key +:+
  String "010" ("stationid=" +:+ station_id +:+ String "010" EmptyString)).

(** [Config.load()], from what the configuration file holds ([None] when it
    does not exist); [read_text] reads it in text mode. *)
Definition load (config_file : option string) : option (gmap string string) :=
  match config_file with
  | None => None
  | Some content =>
      let config :=
        fold_left (fun (config : gmap string string) line =>
                     match split_once "=" line with
                     | Some (key, value) => <[ strip key := strip value ]> config
                     | None => config
                     end)
                  (split "010" (strip (universal_newlines content))) ∅ in
      if forallb (fun k => bool_decide (is_Some (config !! k)))
           ["url"; "apikey"; "stationid"]%string
      then Some config
      else None
  end.

End Config.

(** ** [class AdifParser] *)

Module AdifParser.
Import PyStr.

(** [AdifParser.parse_line(line)] *)
Definition parse_line (line : string) : option (gmap string string) :=
  let matches := Regex.findall_tags line in
  match matches with
  | [] => None
  | _ =>
      let record :=
        fold_left (fun (record : gmap string string) m =>
                     let '(key, _, value) := m in
                     <[ lower key := value ]> record)
                  matches ∅ in
      if bool_decide (record !! "call"%string = None)
         || bool_decide (record !! "qso_date"%string = None)
         || bool_decide (record !! "time_on"%string = None)
      then None
      else Some record
  end.

(** [record.get(key, default)] *)
Definition get (record : gmap string string) (key default : string) : string :=
  from_option id default (record !! key).

(** [not record] for an [Optional[Dict]]: [None] and the empty dict. *)
Definition falsy (record : option (gmap string string)) : bool :=
  match record with
  | None => true
  | Some r => bool_decide (r = ∅)
  end.

(** The string that is hashed. *)
Definition normalized (record : gmap string string) : string :=
  get record "qso_date" "" +:+ "_" +:+ get record "time_on" "" +:+ "_" +:+
  get record "call" "" +:+ "_" +:+ get record "freq" "" +:+ "_" +:+
  get record "mode" "".

(** [AdifParser.calculate_hash(adif_line)] *)
Definition calculate_hash (adif_line : string) : string :=
  match parse_line adif_line with
  | Some record =>
      if falsy (Some record) then EmptyString
      else Sha256.hexdigest (normalized record)
  | None => EmptyString
  end.

Definition max_retries : nat := 5.

(** One pass of [for attempt in range(max_retries)], with [left] passes to
    go. [None] is what Python returns when the loop runs out. *)
Fixpoint read_file_loop (e : env) (filepath : string) (attempt left : nat)
  : M (option (list string)) :=
  match left with
  | O => ret None
  | S left' =>
      fun w =>
        match fs_open e (trace w) filepath with
        | Opened lines => (exec log (EvOpen filepath) ; ret (Some lines)) w
        | Locked str_e =>
            (exec log (EvOpen filepath) ;
             if (attempt <? max_retries - 1)%nat
             then exec log (EvSleep 500) ;
                  read_file_loop e filepath (S attempt) left'
             else raise (IOError str_e)) w
        | Failed str_e =>
            (exec log (EvOpen filepath) ; raise (OtherError str_e)) w
        end
  end.

(** [AdifParser.read_file(filepath)]; [time.sleep(0.5)] is a sleep of 500
    milliseconds. *)
Definition read_file (e : env) (filepath : string) : M (option (list string)) :=
  read_file_loop e filepath 0 max_retries.

End AdifParser.

(** [try: c except IOError as e: h(e)] *)
Definition except_IOError {A} (c : M A) (h : string -> M A) : M A :=
  fun w => match c w with
           | (Raise (IOError str_e), w') => h str_e w'
           | r => r
           end.

(** A [datetime]: a moment on a line of integers, without a time zone
    (naive) or with one (aware). A [datetime] is never falsy. *)
Inductive datetime :=
  | Naive (moment : Z)
  | Aware (moment : Z).

(** [a < b] on [datetime]s; comparing a naive one with an aware one raises
    [TypeError], which is [None] here. *)
Definition datetime_lt (a b : datetime) : option bool :=
  match a, b with
  | Naive x, Naive y => Some (x <? y)
  | Aware x, Aware y => Some (x <? y)
  | _, _ => None
  end.

(** The test of [read_new_records] on one parsed record: [false] where the
    code says [continue]. [strptime] stands for
    [datetime.strptime(_, "%Y%m%d%H%M%S")], which gives a naive [datetime]
    (its moment here) and raises where the answer is [None]; whatever is
    raised inside the [try], by [strptime] or by the comparison, is
    swallowed by [except: pass] and the record is kept. *)
Definition is_new_record (strptime : string -> option Z)
    (last_upload_time : option datetime) (record : gmap string string)
  : bool :=
  match last_upload_time with
  | None => true
  | Some last =>
      let qso_date := AdifParser.get record "qso_date" "" in
      let time_on := AdifParser.get record "time_on" "" in
      if negb (PyStr.is_empty qso_date) && negb (PyStr.is_empty time_on)
      then match strptime (qso_date +:+ time_on) with
           | Some moment =>
               match datetime_lt (Naive moment) last with
               | Some older => negb older
               | None => true
               end
           | None => true
           end
      else true
  end.

(** The body of [for line in lines] in [read_new_records]. *)
Definition new_records_step (strptime : string -> option Z)
    (last_upload_time : option datetime) (new_records : list string)
    (line : string) : list string :=
  let line := PyStr.strip line in
  if PyStr.is_empty line || PyStr.startswith "#" line then new_records
  else
    match AdifParser.parse_line line with
    | None => new_records
    | Some record =>
        if AdifParser.falsy (Some record) then new_records
        else if is_new_record strptime last_upload_time record
             then new_records ++ [line]
             else new_records
    end.

(** [AdifParser.read_new_records(filepath, last_upload_time)] *)
Definition read_new_records (strptime : string -> option Z) (e : env)
    (filepath : string) (last_upload_time : option datetime)
  : M (list string) :=
  do read <~ except_IOError
               (do lines <~ AdifParser.read_file e filepath ; ret (Some lines))
               (fun _ => ret None) ;
  match read with
  | None => ret []
  | Some None => raise (OtherError "TypeError")
  | Some (Some lines) =>
      ret (fold_left (new_records_step strptime last_upload_time) lines [])
  end.

(** ** [class CloudlogPusher]: the upload client and the file ingestor *)

Module CloudlogPusher.
Import PyStr AdifParser.

Record t := Pusher {
  url : string;
  api_key : string;
  station_id : string;
  endpoint : string
}.

(** [self.session.post(self.endpoint, json=payload, timeout=10)], with the
    two [except] clauses that surround it in [push_record]: a
    [RequestException] becomes a result, anything else propagates. *)
Definition post (e : env) (self : t) (body : payload)
  : M (bool * option string) :=
  fun w =>
    match http_post e (trace w) (endpoint self) body with
    | Responded status_code text =>
        (exec log (EvPost (endpoint self) body) ;
         if (status_code =? 200)%N || (status_code =? 201)%N
         then ret (true, None)
         else ret (false,
                   Some (str_of_N status_code +:+ ": " +:+ slice_to 100 text))) w
    | RaisedRequestException str_e =>
        (exec log (EvPost (endpoint self) body) ; ret (false, Some str_e)) w
    | RaisedOther str_e =>
        (exec log (EvPost (endpoint self) body) ; raise (OtherError str_e)) w
    end.

(** [CloudlogPusher.push_record(self, adif_line)] *)
Definition push_record (e : env) (self : t) (adif_line : string)
  : M (bool * option string) :=
  match parse_line adif_line with
  | None => ret (false, Some "Invalid ADIF format"%string)
  | Some record =>
      if falsy (Some record)
      then ret (false, Some "Invalid ADIF format"%string)
      else
        let call := get record "call" "UNKNOWN" in
        let record :=
          if bool_decide (is_Some (record !! "tx_pwr"%string))
          then <[ "tx_pwr"%string :=
                    strip (replace_char_empty "W" (get record "tx_pwr" "")) ]>
                 record
          else record in
        let body :=
          {| p_key := api_key self;
             p_station_profile_id := station_id self;
             p_type := "adif";
             p_string := adif_line |} in
        post e self body
  end.

(** The counters of [push_file] and the reasons it collects. *)
Record tally := Tally {
  success : nat;
  failed : nat;
  skipped : nat;
  errors : list string
}.

(** The dictionary [push_file] returns. *)
Record counts := Counts {
  c_success : nat;
  c_failed : nat;
  c_skipped : nat
}.

(** The body of [for idx, line in enumerate(lines, 1)]. *)
Definition push_line (e : env) (self : t) (uploaded_hashes : gset string)
    (st : tally) (item : nat * string) : M tally :=
  let '(idx, line) := item in
  let trimmed := strip line in
  if is_empty trimmed || startswith "#" trimmed then ret st
  else
    let qso_hash := calculate_hash trimmed in
    if negb (is_empty qso_hash) && bool_decide (qso_hash ∈ uploaded_hashes)
    then ret (Tally (success st) (failed st) (S (skipped st)) (errors st))
    else
      do result <~ push_record e self trimmed ;
      if result.1
      then
        let st' := Tally (S (success st)) (failed st) (skipped st) (errors st) in
        if negb (is_empty qso_hash)
        then exec Config.save_uploaded_qso qso_hash ; ret st'
        else ret st'
      else
        ret (Tally (success st) (S (failed st)) (skipped st)
               (errors st ++
                ["  Line " +:+ str_of_N (N.of_nat idx) +:+ ": "
                 +:+ from_option id "None"%string result.2])).

(** [enumerate(lines, 1)] *)
Definition enumerate1 (lines : list string) : list (nat * string) :=
  combine (seq 1 (length lines)) lines.

(** [CloudlogPusher.push_file(self, filepath, skip_duplicates)]. The [try]
    holds the call of [read_file] only; its [except] branch returns the
    all-zero result, which is the [None] below. *)
Definition push_file (e : env) (self : t) (filepath : string)
    (skip_duplicates : bool) : M counts :=
  do read <~ except_IOError
               (do lines <~ read_file e filepath ; ret (Some lines))
               (fun _ => ret None) ;
  match read with
  | None => ret (Counts 0 0 0)
  | Some None => raise (OtherError "TypeError")
  | Some (Some lines) =>
      do uploaded_hashes <~
         (if skip_duplicates then Config.load_uploaded_qsos else ret ∅) ;
      do st <~ for_each (push_line e self uploaded_hashes)
                 (enumerate1 lines) (Tally 0 0 0 []) ;
      ret (Counts (success st) (failed st) (skipped st))
  end.

End CloudlogPusher.

(** ** [class WsjtxListener]: the live listener *)

Module WsjtxListener.
Import PyStr AdifParser.

Record t := Listener {
  pusher : CloudlogPusher.t;
  last_uploaded_qsos : gset string
}.

(** [WsjtxListener.__init__(self, pusher)] *)
Definition init (pusher : CloudlogPusher.t) : M t :=
  do uploaded <~ Config.load_uploaded_qsos ;
  ret (Listener pusher uploaded).

(** The [try] block of [_parse_message], from the decoded text on
    ([data.decode('utf-8', errors='ignore')] does not raise); it returns
    the working set as the block leaves it. *)
Definition parse_message_try (e : env) (self : t) (text_data : string)
  : M (gset string) :=
  let unchanged := ret (last_uploaded_qsos self) in
  if negb (contains "<QSO_DATE:" text_data)
     || negb (contains "<CALL:" text_data)
  then unchanged
  else
    match Regex.search_record text_data with
    | None => unchanged
    | Some adif_line =>
        let qso_hash := calculate_hash adif_line in
        if bool_decide (qso_hash ∈ last_uploaded_qsos self) then unchanged
        else
          let record := parse_line adif_line in
          if falsy record then unchanged
          else
            do result <~ CloudlogPusher.push_record e (pusher self) adif_line ;
            if result.1
            then
              if negb (is_empty qso_hash)
              then exec Config.save_uploaded_qso qso_hash ;
                   ret ({[ qso_hash ]} ∪ last_uploaded_qsos self)
              else unchanged
            else unchanged
    end.

(** [WsjtxListener._parse_message(self, data)]: [except Exception: pass]
    ends the call normally whatever was raised. The working set is changed
    by the last statement of the block only, so after an exception it is
    what it was. *)
Definition _parse_message (e : env) (self : t) (text_data : string)
  : world -> t * world :=
  fun w =>
    match parse_message_try e self text_data w with
    | (Ok working_set, w') => (Listener (pusher self) working_set, w')
    | (Raise _, w') => (self, w')
    end.

(** The receive loop of [start], over the datagrams that arrive before the
    operator interrupts it. *)
Fixpoint receive_loop (e : env) (self : t) (datagrams : list string)
  : world -> t * world :=
  fun w =>
    match datagrams with
    | [] => (self, w)
    | text_data :: rest =>
        let '(self', w') := _parse_message e self text_data w in
        receive_loop e self' rest w'
    end.

End WsjtxListener.

(** ** [configure_interactive] *)

(** [configure_interactive()], from the three lines the operator types
    ([input()] gives a line without its newline) and the configuration file
    before: the configuration file after. *)
Definition configure_interactive
    (url_answer api_key_answer station_id_answer : string)
    (config_file : option string) : option string :=
  let url := PyStr.strip url_answer in
  let url := if PyStr.startswith "http" url then url else "https://" +:+ url in
  let api_key := PyStr.strip api_key_answer in
  let station_id := PyStr.strip station_id_answer in
  if PyStr.is_empty url || PyStr.is_empty api_key || PyStr.is_empty station_id
  then config_file
  else Some (Config.save url api_key station_id).

(** ** Vocabulary of the properties *)

Module Props.
Import PyStr AdifParser.

Definition nl : string := String "010" EmptyString.

Fixpoint all_chars (p : ascii -> bool) (s : string) : bool :=
  match s with
  | EmptyString => true
  | String c s' => p c && all_chars p s'
  end.

Definition no_space (s : string) : bool :=
  all_chars (fun c => negb (is_space c)) s.

Definition no_newline (s : string) : bool :=
  all_chars (fun c => negb (Ascii.eqb c "010")) s.

(** Neither a line feed nor a carriage return: text that stays on one line
    in a file. *)
Definition one_line (s : string) : bool :=
  all_chars (fun c => negb (Ascii.eqb c "010") && negb (Ascii.eqb c "013")) s.

(** The dictionary [Config.load] returns for three stored values. *)
Definition settings (url api_key station_id : string) : gmap string string :=
  <[ "stationid"%string := station_id ]>
    (<[ "apikey"%string := api_key ]> (<[ "url"%string := url ]> ∅)).

(** What every duplicate key is: not empty, no white space. *)
Definition clean (k : string) : bool := negb (is_empty k) && no_space k.

(** The content ends with a newline character. *)
Fixpoint newline_terminated (content : string) : bool :=
  match content with
  | EmptyString => false
  | String c EmptyString => Ascii.eqb c "010"
  | String _ rest => newline_terminated rest
  end.

Definition str_lt (a b : string) : bool :=
  String.leb a b && negb (String.eqb a b).

Fixpoint ascending (l : list string) : bool :=
  match l with
  | a :: (b :: _) as rest => str_lt a b && ascending rest
  | _ => true
  end.

(** A cache file as [save_uploaded_qso] leaves it when all it ever held
    are duplicate keys: clean lines, strictly ascending, joined by single
    newlines. *)
Definition canonical (content : string) : bool :=
  forallb clean (split "010" content) && ascending (split "010" content).

(** The set [load_uploaded_qsos] returns in a given world (it never
    raises). *)
Definition loaded (w : world) : gset string :=
  match Config.load_uploaded_qsos w with
  | (Ok uploaded, _) => uploaded
  | (Raise _, _) => ∅
  end.

(** A line of the file that holds a record: after trimming it is not
    blank, not a comment, and it parses. *)
Definition valid_record (line : string) : bool :=
  let trimmed := strip line in
  negb (is_empty trimmed) && negb (startswith "#" trimmed)
  && negb (falsy (parse_line trimmed)).

(** The five identifying values of a text that parses. *)
Definition identifying_tuple (text : string)
  : option (string * string * string * string * string) :=
  match parse_line text with
  | Some record =>
      Some (get record "qso_date" "", get record "time_on" "",
            get record "call" "", get record "freq" "", get record "mode" "")
  | None => None
  end.

(** A response the upload client takes as a success. *)
Definition accepted (o : post_outcome) : bool :=
  match o with
  | Responded status_code _ => ((status_code =? 200) || (status_code =? 201))%N
  | _ => false
  end.

(** What [read_file] adds to the trace before its attempt number [i]
    (from 0): [i] failed opens, each followed by a sleep. *)
Definition before_attempt (filepath : string) (i : nat) : list event :=
  concat (repeat [EvOpen filepath; EvSleep 500] i).

(** The number of open attempts in a trace. *)
Definition opens (tr : list event) : nat :=
  length (List.filter (fun ev => match ev with EvOpen _ => true | _ => false end) tr).

(** The bodies of the requests in a trace, oldest first. *)
Definition posted (tr : list event) : list payload :=
  omap (fun ev => match ev with EvPost _ body => Some body | _ => None end) tr.

(** Every request recorded in the trace of [w1] after that of [w0] was
    answered with 200 or 201. *)
Definition sends_accepted (e : env) (w0 w1 : world) : Prop :=
  forall before ep body after,
    trace w1 = trace w0 ++ before ++ EvPost ep body :: after ->
    accepted (http_post e (trace w0 ++ before) ep body) = true.

(** A decoded datagram from which the listener gets no record: a tag it
    looks for is missing, nothing matches the record pattern, or what
    matches does not parse. *)
Definition no_record (text_data : string) : Prop :=
  contains "<QSO_DATE:" text_data = false
  \/ contains "<CALL:" text_data = false
  \/ Regex.search_record text_data = None
  \/ exists adif_line,
       Regex.search_record text_data = Some adif_line
       /\ parse_line adif_line = None.

(** A line the file ingestor looks at: not blank and not a comment once
    trimmed. *)
Definition considered (line : string) : bool :=
  let trimmed := strip line in
  negb (is_empty trimmed) && negb (startswith "#" trimmed).

(** The text [read_new_records] hands to [strptime] for a line: the date
    and the time of its record, and whether both are there. *)
Definition timestamp (line : string) : option string :=
  match parse_line (strip line) with
  | Some record =>
      let qso_date := get record "qso_date" "" in
      let time_on := get record "time_on" "" in
      if is_empty qso_date || is_empty time_on then None
      else Some (qso_date +:+ time_on)
  | None => None
  end.

(** A lower-case hexadecimal digit. *)
Definition is_hex_digit (c : ascii) : bool :=
  in_range 48 57 c || in_range 97 102 c.

(** The name of a tag, as the record holds it. *)
Definition tag_name (m : string * string * string) : string := lower m.1.1.

(** A tag as the pattern of [parse_line] reads it: a name of word
    characters, a length of digits, a value without [<]. *)
Definition well_formed_tag (key len value : string) : bool :=
  negb (is_empty key) && all_chars is_word key
  && negb (is_empty len) && all_chars is_digit len
  && all_chars Regex.not_lt value.

(** The text of a tag. *)
Definition tag_text (key len value : string) : string :=
  "<" +:+ key +:+ ":" +:+ len +:+ ">" +:+ value.

(** Nothing, or something that starts with [<]. *)
Definition at_tag_start (s : string) : bool :=
  match s with
  | EmptyString => true
  | String c _ => Ascii.eqb c "<"
  end.

(** The dictionary [parse_line] builds from the tags it found. *)
Definition tags_record (matches : list (string * string * string))
  : gmap string string :=
  fold_left (fun (record : gmap string string) m =>
               let '(key, _, value) := m in <[ lower key := value ]> record)
            matches ∅.

(** One step of it. *)
Definition insert_tag (record : gmap string string)
    (m : string * string * string) : gmap string string :=
  let '(key, _, value) := m in <[ lower key := value ]> record.

(** The lines counted so far. *)
Definition total (st : CloudlogPusher.tally) : nat :=
  (CloudlogPusher.success st + CloudlogPusher.failed st
   + CloudlogPusher.skipped st)%nat.

(** The request [push_record] sends for a line. *)
Definition request_for (self : CloudlogPusher.t) (adif_line : string) : event :=
  EvPost (CloudlogPusher.endpoint self)
    (Payload (CloudlogPusher.api_key self) (CloudlogPusher.station_id self)
       "adif" adif_line).

(** The world once a request for a line has been recorded. *)
Definition requested (self : CloudlogPusher.t) (adif_line : string)
    (w : world) : world :=
  World (cache_file w) (trace w ++ [request_for self adif_line]).

(** What the server answers to the request for a line sent in [w]. *)
Definition answer (e : env) (self : CloudlogPusher.t) (adif_line : string)
    (w : world) : post_outcome :=
  http_post e (trace w) (CloudlogPusher.endpoint self)
    (Payload (CloudlogPusher.api_key self) (CloudlogPusher.station_id self)
       "adif" adif_line).

(** A text the record pattern of the listener,
    [<QSO_DATE:\d+>\d+.*?<EOR>], can match from end to end: the tag in
    upper case, a length of digits, a value that begins with digits, and
    the end-of-record marker after any characters but a newline. *)
Definition record_like (m : string) : Prop :=
  exists len value body,
    m = "<QSO_DATE:" +:+ len +:+ ">" +:+ value +:+ body +:+ "<EOR>"
    /\ is_empty len = false /\ all_chars is_digit len = true
    /\ is_empty value = false /\ all_chars is_digit value = true
    /\ no_newline body = true.

(** [b] is empty or starts with a character outside [p]. *)
Definition stops (p : ascii -> bool) (b : string) : bool :=
  match b with
  | EmptyString => true
  | String c _ => negb (p c)
  end.

End Props.

(** ** Sample data *)

Module Sample.

Definition qso : string :=
  "<QSO_DATE:8>20240115<TIME_ON:6>143000<CALL:5>W1ABC<FREQ:8>14.07400<MODE:3>FT8<EOR>".

(** The same contact: other tag order, lower-case tag names, other declared
    lengths, white space around the record, one more field. *)
Definition qso_reordered : string :=
  "  <mode:99>FT8<FREQ:1>14.07400<call:5>W1ABC<TIME_ON:6>143000<qso_date:8>20240115<TX_PWR:2>5W <EOR>  ".

Definition qso_key : string :=
  "0b5d0772905febc05dc150235940180dcf49f49881973d815eced60573501878".

Definition qso_with_power : string :=
  "<CALL:5>W1ABC<QSO_DATE:8>20240115<TIME_ON:6>143000<TX_PWR:3>50W<EOR>".

Definition pusher : CloudlogPusher.t :=
  {| CloudlogPusher.url := "https://log.example.org";
     CloudlogPusher.api_key := "secret";
     CloudlogPusher.station_id := "1";
     CloudlogPusher.endpoint := "https://log.example.org/index.php/api/qso" |}.

(** A file that is never locked and a server that accepts everything. *)
Definition friendly (lines : list string) : env :=
  {| fs_open := fun _ _ => Opened lines;
     http_post := fun _ _ _ => Responded 200 "" |}.

(** A server that answers 500 to everything. *)
Definition failing (lines : list string) : env :=
  {| fs_open := fun _ _ => Opened lines;
     http_post := fun _ _ _ => Responded 500 "Internal Server Error" |}.

(** A file that stays locked for the first [n] opens. *)
Definition locked_for (n : nat) (lines : list string) : env :=
  {| fs_open := fun tr _ =>
       if (Props.opens tr <? n)%nat
       then Locked "Permission denied" else Opened lines;
     http_post := fun _ _ _ => Responded 200 "" |}.

(** A log file whose bytes do not decode: every open succeeds and
    [readlines] raises. *)
Definition undecodable : env :=
  {| fs_open := fun _ _ => Failed "UnicodeDecodeError";
     http_post := fun _ _ _ => Responded 200 "" |}.

Definition empty_world : world := World None [].

End Sample.

(** * Properties *)

Import PyStr AdifParser Props.

(** ** Executable checks of the model against known values *)

Example sha256_constants :
  length Sha256.K = 64%nat
  /\ nth 0 Sha256.K 0 = 0x428a2f98 /\ nth 63 Sha256.K 0 = 0xc67178f2
  /\ Sha256.sa Sha256.H0 = 0x6a09e667 /\ Sha256.sh Sha256.H0 = 0x5be0cd19.
Proof. vm_compute. repeat split; reflexivity. Qed.

Example sha256_abc :
  Sha256.hexdigest "abc"
  = "ba7816bf8f01cfea414140de5dae2223b00361a396177a9cb410ff61f20015ad".
Proof. vm_compute. reflexivity. Qed.

Example sha256_empty :
  Sha256.hexdigest ""
  = "e3b0c44298fc1c149afbf4c8996fb92427ae41e4649b934ca495991b7852b855".
Proof. vm_compute. reflexivity. Qed.

Example findall_tags_sample :
  Regex.findall_tags " <call:5>W1ABC <b:><c_1:01>v<<d:2>>y<"
  = [("call", "5", "W1ABC "); ("c_1", "01", "v"); ("d", "2", ">y")].
Proof. vm_compute. reflexivity. Qed.

Example search_record_sample :
  Regex.search_record "xx<QSO_DATE:8>2024<CALL:1>A<EOR>tail<EOR>"
  = Some "<QSO_DATE:8>2024<CALL:1>A<EOR>".
Proof. vm_compute. reflexivity. Qed.

Example calculate_hash_sample : calculate_hash Sample.qso = Sample.qso_key.
Proof. vm_compute. reflexivity. Qed.

Example push_file_twice_sample :
  let e := Sample.friendly [Sample.qso +:+ nl] in
  let '(r1, w1) := CloudlogPusher.push_file e Sample.pusher "log.adi" true Sample.empty_world in
  let '(r2, w2) := CloudlogPusher.push_file e Sample.pusher "log.adi" true w1 in
  r1 = Ok (CloudlogPusher.Counts 1 0 0)
  /\ r2 = Ok (CloudlogPusher.Counts 0 0 1)
  /\ cache_file w2 = Some (Text Sample.qso_key)
  /\ length (posted (trace w2)) = 1%nat.
Proof. vm_compute. repeat split; reflexivity. Qed.

(** ** The record codec *)

Lemma parse_line_has_call line record :
  parse_line line = Some record -> record !! "call"%string <> None.
Proof.
  unfold parse_line.
  destruct (Regex.findall_tags line) as [|m ms]; [discriminate|].
  set (r := fold_left _ _ _).
  destruct (bool_decide (r !! "call"%string = None)) eqn:Hcall; simpl.
  - discriminate.
  - destruct (_ || _); [discriminate|].
    intros [= <-]. by apply bool_decide_eq_false in Hcall.
Qed.

Lemma parse_line_not_falsy line record :
  parse_line line = Some record -> falsy (Some record) = false.
Proof.
  intros H%parse_line_has_call. simpl.
  apply bool_decide_eq_false. intros ->. by rewrite lookup_empty in H.
Qed.

Lemma calculate_hash_parsed line record :
  parse_line line = Some record ->
  calculate_hash line = Sha256.hexdigest (normalized record).
Proof.
  intros H. unfold calculate_hash. rewrite H.
  by rewrite (parse_line_not_falsy _ _ H).
Qed.

Lemma calculate_hash_unparsed line :
  parse_line line = None -> calculate_hash line = EmptyString.
Proof. intros H. unfold calculate_hash. by rewrite H. Qed.

(** C3. Two texts of one contact, the second with a blank between each
    value and the next tag: the five values are the same by the lengths
    the tags declare, yet the keys differ. A value is read up to the next
    [<], so the blank becomes part of it and enters the hash; the file
    ingestor then sends the contact a second time. *)
Theorem whitespace_changes_the_key :
  let a :=
    "<QSO_DATE:8>20240115<TIME_ON:6>143000<CALL:5>W1ABC<FREQ:8>14.07400<MODE:3>FT8<EOR>"%string in
  let b :=
    "<QSO_DATE:8>20240115 <TIME_ON:6>143000 <CALL:5>W1ABC <FREQ:8>14.07400 <MODE:3>FT8 <EOR>"%string in
  identifying_tuple a
  = Some ("20240115", "143000", "W1ABC", "14.07400", "FT8")%string
  /\ identifying_tuple b
     = Some ("20240115 ", "143000 ", "W1ABC ", "14.07400 ", "FT8 ")%string
  /\ calculate_hash a <> calculate_hash b
  /\ (CloudlogPusher.push_file (Sample.friendly [b]) Sample.pusher "log.adi"
        true (World (Some (Text (calculate_hash a))) [])).1
     = Ok (CloudlogPusher.Counts 1 0 0).
Proof. vm_compute. repeat split; try reflexivity. discriminate. Qed.

(** C10. The five values are joined with a bare underscore, so two
    different tuples can yield one key: date 2024 with time [x_] and date
    [2024_x] with an empty time. Once the first contact is in the cache the
    file ingestor skips the second. *)
Theorem underscore_collision :
  let a := "<QSO_DATE:4>2024<TIME_ON:2>x_<CALL:1>A"%string in
  let b := "<QSO_DATE:6>2024_x<TIME_ON:0><CALL:1>A"%string in
  identifying_tuple a = Some ("2024", "x_", "A", "", "")%string
  /\ identifying_tuple b = Some ("2024_x", "", "A", "", "")%string
  /\ identifying_tuple a <> identifying_tuple b
  /\ calculate_hash a = calculate_hash b
  /\ calculate_hash a <> EmptyString
  /\ CloudlogPusher.push_file (Sample.friendly [b]) Sample.pusher "log.adi" true
       (World (Some (Text (calculate_hash a))) [])
     = (Ok (CloudlogPusher.Counts 0 0 1),
        World (Some (Text (calculate_hash a))) [EvOpen "log.adi"]).
Proof. vm_compute. repeat split; try reflexivity; discriminate. Qed.

(** ** The upload client *)

(** Whatever the line, the request body carries it unchanged. *)
Lemma push_record_posts_verbatim e self line w r w' :
  CloudlogPusher.push_record e self line w = (r, w') ->
  cache_file w' = cache_file w
  /\ (trace w' = trace w
      \/ trace w' = trace w ++
           [EvPost (CloudlogPusher.endpoint self)
              (Payload (CloudlogPusher.api_key self)
                 (CloudlogPusher.station_id self) "adif" line)]).
Proof.
  unfold CloudlogPusher.push_record.
  destruct (parse_line line) as [record|]; [|intros [= <- <-]; auto].
  destruct (falsy (Some record)); [intros [= <- <-]; auto|].
  unfold CloudlogPusher.post. cbv zeta.
  destruct (http_post _ _ _ _) as [code text|msg|msg];
    unfold bind, log, ret, raise; simpl.
  - destruct (_ || _); intros [= <- <-]; simpl; auto.
  - intros [= <- <-]; simpl; auto.
  - intros [= <- <-]; simpl; auto.
Qed.

(** C2. A record with a TX_PWR of [50W] is posted with its text unchanged:
    the "string" field of the body still reads [50W]. *)
Theorem push_record_keeps_power_text :
  CloudlogPusher.push_record (Sample.friendly []) Sample.pusher
    Sample.qso_with_power Sample.empty_world
  = (Ok (true, None),
     World None
       [EvPost "https://log.example.org/index.php/api/qso"
          (Payload "secret" "1" "adif"
             "<CALL:5>W1ABC<QSO_DATE:8>20240115<TIME_ON:6>143000<TX_PWR:3>50W<EOR>")]).
Proof. vm_compute. reflexivity. Qed.

(** ** The file ingestor *)

(** C1. A file that holds the same record twice, an empty cache, a server
    that accepts everything: both lines are posted, none is skipped. The
    snapshot taken when the run starts is never added to. *)
Theorem push_file_posts_repeated_line_twice :
  let lines := [Sample.qso +:+ nl; Sample.qso +:+ nl] in
  let body := Payload "secret" "1" "adif" Sample.qso in
  CloudlogPusher.push_file (Sample.friendly lines) Sample.pusher "log.adi" true
    Sample.empty_world
  = (Ok (CloudlogPusher.Counts 2 0 0),
     World (Some (Text Sample.qso_key))
       [EvOpen "log.adi";
        EvPost "https://log.example.org/index.php/api/qso" body;
        EvPost "https://log.example.org/index.php/api/qso" body]).
Proof. vm_compute. reflexivity. Qed.

(** *** Reading the file *)

Lemma before_attempt_S filepath i :
  before_attempt filepath (S i)
  = [EvOpen filepath; EvSleep 500] ++ before_attempt filepath i.
Proof. reflexivity. Qed.

Section ReadFile.
Variables (e : env) (filepath : string).

Let outcome (w : world) (i : nat) : open_outcome :=
  fs_open e (trace w ++ before_attempt filepath i) filepath.

Let after (w : world) (i : nat) : world :=
  World (cache_file w)
    (trace w ++ before_attempt filepath i ++ [EvOpen filepath]).

Lemma read_file_loop_spec left : forall attempt w,
  (attempt + S left = max_retries)%nat ->
  (exists n lines,
      (n <= left)%nat
      /\ (forall i, (i < n)%nat -> exists m, outcome w i = Locked m)
      /\ outcome w n = Opened lines
      /\ read_file_loop e filepath attempt (S left) w
         = (Ok (Some lines), after w n))
  \/ (exists m,
      (forall i, (i < left)%nat -> exists m', outcome w i = Locked m')
      /\ outcome w left = Locked m
      /\ read_file_loop e filepath attempt (S left) w
         = (Raise (IOError m), after w left))
  \/ (exists n m,
      (n <= left)%nat
      /\ (forall i, (i < n)%nat -> exists m', outcome w i = Locked m')
      /\ outcome w n = Failed m
      /\ read_file_loop e filepath attempt (S left) w
         = (Raise (OtherError m), after w n)).
Proof.
  unfold outcome, after. induction left as [|left IH]; intros attempt w Hsum.
  - assert (Hlt : (attempt <? max_retries - 1)%nat = false)
      by (apply Nat.ltb_ge; unfold max_retries in *; lia).
    cbn [read_file_loop].
    destruct (fs_open e (trace w) filepath) as [lines|m|m] eqn:Ho.
    + left. exists 0%nat, lines. simpl. rewrite app_nil_r.
      repeat split; [lia | intros; lia | done].
    + right. left. exists m. simpl before_attempt. cbn [concat app].
      rewrite app_nil_r.
      split; [intros; lia|]. split; [done|].
      rewrite Hlt. reflexivity.
    + right. right. exists 0%nat, m. simpl. rewrite app_nil_r.
      repeat split; [lia | intros; lia | done].
  - assert (Hlt : (attempt <? max_retries - 1)%nat = true)
      by (apply Nat.ltb_lt; unfold max_retries in *; lia).
    cbn [read_file_loop].
    destruct (fs_open e (trace w) filepath) as [lines|m|m] eqn:Ho.
    + left. exists 0%nat, lines. simpl. rewrite app_nil_r.
      repeat split; [lia | intros; lia | done].
    + rewrite Hlt.
      unfold bind at 1. unfold log at 1. unfold bind at 1. unfold log at 1.
      set (w1 := World (cache_file w)
                   ((trace w ++ [EvOpen filepath]) ++ [EvSleep 500])).
      assert (Htr : forall i, trace w1 ++ before_attempt filepath i
                         = trace w ++ before_attempt filepath (S i)).
      { intros i. unfold w1. rewrite before_attempt_S. simpl.
        by rewrite <- !app_assoc. }
      assert (Hafter : forall i,
                 World (cache_file w1)
                   (trace w1 ++ before_attempt filepath i ++ [EvOpen filepath])
                 = World (cache_file w)
                     (trace w ++ before_attempt filepath (S i) ++ [EvOpen filepath])).
      { intros i. unfold w1. rewrite before_attempt_S. simpl.
        by rewrite <- !app_assoc. }
      destruct (IH (S attempt) w1)
        as [(n & lines & Hn & Hlocked & Hopen & Hrun)
           |[(m' & Hlocked & Hlast & Hrun)
            |(n & m' & Hn & Hlocked & Hfail & Hrun)]];
        [unfold max_retries in *; lia| | |].
      * left. exists (S n), lines. split; [lia|]. split; [|split].
        -- intros [|i] Hi; [exists m; simpl; by rewrite app_nil_r|].
           rewrite <- Htr. apply Hlocked. lia.
        -- by rewrite <- Htr.
        -- rewrite <- Hafter. exact Hrun.
      * right. left. exists m'. split; [|split].
        -- intros [|i] Hi; [exists m; simpl; by rewrite app_nil_r|].
           rewrite <- Htr. apply Hlocked. lia.
        -- by rewrite <- Htr.
        -- rewrite <- Hafter. exact Hrun.
      * right. right. exists (S n), m'. split; [lia|]. split; [|split].
        -- intros [|i] Hi; [exists m; simpl; by rewrite app_nil_r|].
           rewrite <- Htr. apply Hlocked. lia.
        -- by rewrite <- Htr.
        -- rewrite <- Hafter. exact Hrun.
    + right. right. exists 0%nat, m. simpl. rewrite app_nil_r.
      repeat split; [lia | intros; lia | done].
Qed.

End ReadFile.

(** C7. [read_file] opens the file at most five times. Every open that
    fails with an [IOError], but the fifth, is followed by one sleep of
    500 ms and the next open. The first attempt that reads the file ends the
    call with the lines read. When the fifth fails with an [IOError] it is
    raised, and [push_file] turns it into an all-zero result without opening
    again. An attempt that fails with anything else ends the call at once
    with that exception, and [push_file] lets it through. *)
Theorem read_file_retries (e : env) (self : CloudlogPusher.t)
    (filepath : string) (skip_duplicates : bool) (w : world) :
  let outcome i := fs_open e (trace w ++ before_attempt filepath i) filepath in
  let after i :=
    World (cache_file w)
      (trace w ++ before_attempt filepath i ++ [EvOpen filepath]) in
  (exists n lines,
      (n < 5)%nat
      /\ (forall i, (i < n)%nat -> exists m, outcome i = Locked m)
      /\ outcome n = Opened lines
      /\ read_file e filepath w = (Ok (Some lines), after n))
  \/ (exists m,
      (forall i, (i < 4)%nat -> exists m', outcome i = Locked m')
      /\ outcome 4%nat = Locked m
      /\ read_file e filepath w = (Raise (IOError m), after 4%nat)
      /\ CloudlogPusher.push_file e self filepath skip_duplicates w
         = (Ok (CloudlogPusher.Counts 0 0 0), after 4%nat))
  \/ (exists n m,
      (n < 5)%nat
      /\ (forall i, (i < n)%nat -> exists m', outcome i = Locked m')
      /\ outcome n = Failed m
      /\ read_file e filepath w = (Raise (OtherError m), after n)
      /\ CloudlogPusher.push_file e self filepath skip_duplicates w
         = (Raise (OtherError m), after n)).
Proof.
  intros outcome after.
  destruct (read_file_loop_spec e filepath 4 0 w eq_refl)
    as [(n & lines & Hn & Hlocked & Hopen & Hrun)
       |[(m & Hlocked & Hlast & Hrun)
        |(n & m & Hn & Hlocked & Hfail & Hrun)]].
  - left. exists n, lines. repeat split; [lia | exact Hlocked | exact Hopen | exact Hrun].
  - right. left. exists m.
    repeat split; [exact Hlocked | exact Hlast | exact Hrun |].
    unfold CloudlogPusher.push_file, except_IOError, bind.
    unfold read_file in Hrun |- *. unfold max_retries. rewrite Hrun.
    reflexivity.
  - right. right. exists n, m.
    repeat split; [lia | exact Hlocked | exact Hfail | exact Hrun |].
    unfold CloudlogPusher.push_file, except_IOError, bind.
    unfold read_file in Hrun |- *. unfold max_retries. rewrite Hrun.
    reflexivity.
Qed.

(** C7, where the claim fails. The log file opens at the first attempt and
    its bytes do not decode: [readlines] raises [UnicodeDecodeError], which
    is no [IOError]. No lines are returned for the open that succeeded, and
    the exception passes through [push_file], whose caller catches
    nothing. *)
Lemma undecodable_file_is_not_handled :
  let after_one_open := World None [EvOpen "log.adi"] in
  read_file Sample.undecodable "log.adi" Sample.empty_world
  = (Raise (OtherError "UnicodeDecodeError"), after_one_open)
  /\ CloudlogPusher.push_file Sample.undecodable Sample.pusher "log.adi" true
       Sample.empty_world
     = (Raise (OtherError "UnicodeDecodeError"), after_one_open)
  /\ ~ (exists lines w',
          read_file Sample.undecodable "log.adi" Sample.empty_world
          = (Ok (Some lines), w'))
  /\ ~ (exists counts w',
          CloudlogPusher.push_file Sample.undecodable Sample.pusher "log.adi"
            true Sample.empty_world
          = (Ok counts, w')).
Proof.
  split; [vm_compute; reflexivity|]. split; [vm_compute; reflexivity|].
  split; intros (x & w' & H); vm_compute in H; discriminate H.
Qed.

Example read_file_locked_four_times :
  read_file (Sample.locked_for 4 ["a"; "b"]) "log.adi" Sample.empty_world
  = (Ok (Some ["a"; "b"]),
     World None
       [EvOpen "log.adi"; EvSleep 500; EvOpen "log.adi"; EvSleep 500;
        EvOpen "log.adi"; EvSleep 500; EvOpen "log.adi"; EvSleep 500;
        EvOpen "log.adi"]).
Proof. vm_compute. reflexivity. Qed.

Example push_file_locked_five_times :
  CloudlogPusher.push_file (Sample.locked_for 5 ["a"; "b"]) Sample.pusher
    "log.adi" true Sample.empty_world
  = (Ok (CloudlogPusher.Counts 0 0 0),
     World None
       [EvOpen "log.adi"; EvSleep 500; EvOpen "log.adi"; EvSleep 500;
        EvOpen "log.adi"; EvSleep 500; EvOpen "log.adi"; EvSleep 500;
        EvOpen "log.adi"]).
Proof. vm_compute. reflexivity. Qed.

(** *** A delivery that fails *)

Lemma push_record_cache e self line w r w' :
  CloudlogPusher.push_record e self line w = (r, w') ->
  cache_file w' = cache_file w.
Proof. intros H. by destruct (push_record_posts_verbatim _ _ _ _ _ _ H). Qed.

Lemma loaded_cache_file w w' :
  cache_file w' = cache_file w -> loaded w' = loaded w.
Proof.
  unfold loaded, Config.load_uploaded_qsos. intros ->.
  by destruct (cache_file w) as [[content|]|].
Qed.

(** C5. When the upload client reports a failure for a record, the cache
    file is afterwards what it was before: the loop body of [push_file]
    counts the line as failed, the listener leaves its working set alone,
    and neither writes the key. *)
Theorem failed_delivery_keeps_cache (e : env) (self : CloudlogPusher.t)
    (adif_line : string) (w w1 : world) (reason : option string) :
  CloudlogPusher.push_record e self adif_line w = (Ok (false, reason), w1) ->
  (forall uploaded_hashes st idx line,
      strip line = adif_line ->
      exists st' w',
        CloudlogPusher.push_line e self uploaded_hashes st (idx, line) w
        = (Ok st', w')
        /\ cache_file w' = cache_file w
        /\ loaded w' = loaded w
        /\ CloudlogPusher.success st' = CloudlogPusher.success st)
  /\ (forall working_set text_data,
      Regex.search_record text_data = Some adif_line ->
      exists listener' w',
        WsjtxListener._parse_message e
          (WsjtxListener.Listener self working_set) text_data w
        = (listener', w')
        /\ cache_file w' = cache_file w
        /\ loaded w' = loaded w
        /\ WsjtxListener.last_uploaded_qsos listener' = working_set).
Proof.
  intros Hpush. pose proof (push_record_cache _ _ _ _ _ _ Hpush) as Hcache.
  split.
  - intros uploaded st idx line <-. unfold CloudlogPusher.push_line.
    destruct (_ || _); [exists st, w; by unfold ret|].
    destruct (_ && _); [eexists _, w; by unfold ret|].
    unfold bind. rewrite Hpush. simpl. unfold ret.
    eexists _, w1. repeat split; auto using loaded_cache_file.
  - intros working_set text Hfound.
    unfold WsjtxListener._parse_message, WsjtxListener.parse_message_try.
    simpl. rewrite Hfound.
    destruct (_ || _); [eexists _, w; by unfold ret|].
    destruct (bool_decide _); [eexists _, w; by unfold ret|].
    destruct (falsy _); [eexists _, w; by unfold ret|].
    unfold bind. rewrite Hpush. simpl. unfold ret.
    eexists _, w1. repeat split; auto using loaded_cache_file.
Qed.

Lemma failed_delivery_keeps_cache_witness :
  let e := Sample.failing [] in
  let w := World (Some (Text "0123")) [] in
  (exists st' w',
      CloudlogPusher.push_line e Sample.pusher ∅ (CloudlogPusher.Tally 0 0 0 [])
        (1%nat, Sample.qso +:+ nl) w = (Ok st', w')
      /\ cache_file w' = Some (Text "0123"))
  /\ (exists listener' w',
      WsjtxListener._parse_message e (WsjtxListener.Listener Sample.pusher ∅)
        ("noise" +:+ Sample.qso +:+ "noise") w = (listener', w')
      /\ cache_file w' = Some (Text "0123")
      /\ WsjtxListener.last_uploaded_qsos listener' = ∅).
Proof.
  intros e w.
  destruct (failed_delivery_keeps_cache e Sample.pusher Sample.qso w
              (World (Some (Text "0123"))
                 [EvPost (CloudlogPusher.endpoint Sample.pusher)
                    (Payload "secret" "1" "adif" Sample.qso)])
              (Some "500: Internal Server Error"%string))
    as [Hfile Hlive]; [vm_compute; reflexivity|].
  split.
  - destruct (Hfile ∅ (CloudlogPusher.Tally 0 0 0 []) 1%nat (Sample.qso +:+ nl))
      as (st' & w' & Hrun & Hcache & _); [vm_compute; reflexivity|].
    exists st', w'. split; [exact Hrun | exact Hcache].
  - destruct (Hlive ∅ ("noise" +:+ Sample.qso +:+ "noise")%string)
      as (l' & w' & Hrun & Hcache & _ & Hset); [vm_compute; reflexivity|].
    exists l', w'. split; [exact Hrun|]. split; [exact Hcache | exact Hset].
Defined.

(** ** The live listener *)

(** C9. A datagram from which no record is extracted (no QSO_DATE tag in
    its text, no CALL tag, nothing that matches the record pattern, or a
    match that does not parse) leaves the listener and the world as they
    were: no request is sent, nothing is raised, and the receive loop goes
    on with the next datagram. *)
Theorem malformed_datagram_ignored (e : env) (self : WsjtxListener.t)
    (text_data : string) (rest : list string) (w : world) :
  no_record text_data ->
  WsjtxListener._parse_message e self text_data w = (self, w)
  /\ WsjtxListener.receive_loop e self (text_data :: rest) w
     = WsjtxListener.receive_loop e self rest w.
Proof.
  intros Hno.
  assert (Hone : WsjtxListener._parse_message e self text_data w = (self, w)).
  { destruct self as [p working_set].
    unfold WsjtxListener._parse_message, WsjtxListener.parse_message_try.
    simpl.
    destruct Hno as [H|[H|[H|(adif_line & Hfound & Hparse)]]].
    - by rewrite H.
    - rewrite H. by rewrite orb_true_r.
    - rewrite H. by destruct (_ || _).
    - rewrite Hfound, Hparse. destruct (_ || _); [done|].
      by destruct (bool_decide _). }
  split; [exact Hone|].
  cbn [WsjtxListener.receive_loop]. by rewrite Hone.
Qed.

Lemma malformed_datagram_ignored_witness :
  WsjtxListener.receive_loop (Sample.friendly [])
    (WsjtxListener.Listener Sample.pusher ∅)
    ["<CALL:5>W1ABC<TIME_ON:6>143000<EOR>"%string; Sample.qso] Sample.empty_world
  = WsjtxListener.receive_loop (Sample.friendly [])
      (WsjtxListener.Listener Sample.pusher ∅) [Sample.qso] Sample.empty_world.
Proof.
  apply (malformed_datagram_ignored (Sample.friendly [])
           (WsjtxListener.Listener Sample.pusher ∅)
           "<CALL:5>W1ABC<TIME_ON:6>143000<EOR>" [Sample.qso] Sample.empty_world).
  left. vm_compute. reflexivity.
Defined.

Example listener_uploads_once :
  WsjtxListener.receive_loop (Sample.friendly [])
    (WsjtxListener.Listener Sample.pusher ∅)
    ["junk"%string; Sample.qso; ("again " +:+ Sample.qso)%string] Sample.empty_world
  = (WsjtxListener.Listener Sample.pusher {[ Sample.qso_key ]},
     World (Some (Text Sample.qso_key))
       [EvPost "https://log.example.org/index.php/api/qso"
          (Payload "secret" "1" "adif" Sample.qso)]).
Proof. vm_compute. reflexivity. Qed.

(** ** Text primitives *)

Section Text.

Lemma append_nil_l s : EmptyString +:+ s = s.
Proof. reflexivity. Qed.

Lemma append_cons c s t : String c s +:+ t = String c (s +:+ t).
Proof. reflexivity. Qed.

Lemma split_not_nil sep s : split sep s <> [].
Proof.
  destruct s as [|c s]; simpl; [done|].
  destruct (Ascii.eqb c sep); [done|]. by destruct (split sep s).
Qed.

Lemma split_cons_sep sep s : split sep (String sep s) = EmptyString :: split sep s.
Proof. simpl. by rewrite Ascii.eqb_refl. Qed.

Lemma split_cons_other sep c s h t :
  Ascii.eqb c sep = false -> split sep s = h :: t ->
  split sep (String c s) = String c h :: t.
Proof. intros Hc Hs. simpl. by rewrite Hc, Hs. Qed.

(** Splitting what was put together with the separator. *)
Lemma split_append_sep sep x y :
  split sep (x +:+ String sep y) = split sep x ++ split sep y.
Proof.
  induction x as [|c x IH].
  - rewrite append_nil_l. by rewrite split_cons_sep.
  - rewrite append_cons. simpl. rewrite IH.
    destruct (Ascii.eqb c sep); [done|].
    pose proof (split_not_nil sep x). by destruct (split sep x).
Qed.

Lemma split_no_newline k : no_newline k = true -> split "010" k = [k].
Proof.
  induction k as [|c k IH]; [done|].
  unfold no_newline in *. simpl. intros [Hc Hk]%andb_prop.
  apply negb_true_iff in Hc. rewrite Hc. by rewrite IH.
Qed.

Lemma split_pieces_no_newline s :
  Forall (fun x => no_newline x = true) (split "010" s).
Proof.
  induction s as [|c s IH]; simpl; [by repeat constructor|].
  destruct (Ascii.eqb c "010") eqn:Hc; [by constructor|].
  pose proof (split_not_nil "010" s) as Hne.
  destruct (split "010" s) as [|h t]; [done|].
  inversion_clear IH. constructor; [|done].
  unfold no_newline in *. simpl. by rewrite Hc.
Qed.

Lemma join_cons2 sep x y rest :
  join sep (x :: y :: rest) = x +:+ sep +:+ join sep (y :: rest).
Proof. reflexivity. Qed.

Lemma join_split s : join nl (split "010" s) = s.
Proof.
  induction s as [|c s IH]; [done|]. simpl.
  pose proof (split_not_nil "010" s) as Hne.
  destruct (Ascii.eqb c "010") eqn:Hc.
  - apply Ascii.eqb_eq in Hc as ->.
    destruct (split "010" s) as [|h t]; [done|].
    rewrite join_cons2, IH. reflexivity.
  - destruct (split "010" s) as [|h [|h' t]]; [done| |].
    + simpl in *. by rewrite IH.
    + rewrite join_cons2 in *. rewrite append_cons. by rewrite IH.
Qed.

Lemma split_join l :
  l <> [] -> Forall (fun x => no_newline x = true) l ->
  split "010" (join nl l) = l.
Proof.
  induction l as [|x [|y rest] IH]; [done| |].
  - intros _ Hx. inversion_clear Hx. by apply split_no_newline.
  - intros _ Hall. inversion_clear Hall.
    rewrite join_cons2. unfold nl at 1. rewrite append_cons, append_nil_l.
    rewrite split_append_sep, IH by done. by rewrite split_no_newline.
Qed.

Lemma elem_of_split_join (k : string) (l : list string) :
  no_newline k = true -> k ∈ l -> k ∈ split "010" (join nl l).
Proof.
  intros Hk. induction l as [|x [|y rest] IH].
  - by intros ?%elem_of_nil.
  - intros ->%list_elem_of_singleton. simpl. rewrite split_no_newline by done.
    by apply list_elem_of_singleton.
  - intros Hin. rewrite join_cons2. unfold nl at 1.
    rewrite append_cons, append_nil_l, split_append_sep.
    apply elem_of_app. apply elem_of_cons in Hin as [->|Hin].
    + left. rewrite split_no_newline by done. by apply list_elem_of_singleton.
    + right. by apply IH.
Qed.

Lemma no_space_no_newline s : no_space s = true -> no_newline s = true.
Proof.
  unfold no_space, no_newline. induction s as [|c s IH]; [done|]. simpl.
  intros [Hc Hs]%andb_prop. rewrite IH by done. rewrite andb_true_r.
  destruct (Ascii.eqb c "010") eqn:E; [|done].
  apply Ascii.eqb_eq in E as ->. done.
Qed.

Lemma clean_no_newline k : clean k = true -> no_newline k = true.
Proof. unfold clean. intros [_ H]%andb_prop. by apply no_space_no_newline. Qed.

Lemma clean_cons c s :
  clean (String c s) = true <-> is_space c = false /\ no_space s = true.
Proof.
  unfold clean, no_space. simpl. rewrite andb_true_iff, negb_true_iff. tauto.
Qed.

(** Stripping on the left loses no clean line. *)
Lemma elem_of_split_lstrip (k s : string) :
  clean k = true -> k ∈ split "010" s -> k ∈ split "010" (lstrip s).
Proof.
  intros Hk. induction s as [|c s IH]; [done|].
  cbn [lstrip]. destruct (is_space c) eqn:Hsp; [|done].
  simpl. destruct (Ascii.eqb c "010").
  - intros [->|Hin]%elem_of_cons; [done|]. by apply IH.
  - pose proof (split_not_nil "010" s).
    destruct (split "010" s) as [|h t]; [done|].
    intros [->|Hin]%elem_of_cons.
    + apply clean_cons in Hk as [Hk _]. congruence.
    + apply IH. by apply elem_of_cons; right.
Qed.

Lemma is_space_newline : is_space "010" = true.
Proof. reflexivity. Qed.

Lemma not_space_not_newline c : is_space c = false -> Ascii.eqb c "010" = false.
Proof.
  intros H. destruct (Ascii.eqb c "010") eqn:E; [|done].
  apply Ascii.eqb_eq in E as ->. done.
Qed.

Lemma rstrip_empty_inv s :
  rstrip s = EmptyString -> all_chars is_space s = true.
Proof.
  induction s as [|c s IH]; [done|]. simpl.
  destruct (rstrip s); [|done].
  destruct (is_space c); [|done]. intros _. by rewrite IH.
Qed.

(** Stripping on the right keeps the first piece when it has no white
    space, and loses no clean piece after it. *)
Lemma split_rstrip s : forall h t h' t',
  split "010" s = h :: t ->
  split "010" (rstrip s) = h' :: t' ->
  (no_space h = true -> h' = h)
  /\ (forall k, clean k = true -> k ∈ t -> k ∈ t').
Proof.
  induction s as [|c s IH]; intros h t h' t'.
  { simpl. intros [= <- <-] [= <- <-]. split; [done|]. by intros k _ ?%elem_of_nil. }
  pose proof (split_not_nil "010" s) as Hne.
  pose proof (split_not_nil "010" (rstrip s)) as Hne'.
  destruct (split "010" s) as [|h0 t0] eqn:Hs; [done|].
  destruct (split "010" (rstrip s)) as [|h0' t0'] eqn:Hrs; [done|].
  destruct (IH h0 t0 h0' t0' eq_refl eq_refl) as [IHh IHt].
  cbn [rstrip]. destruct (rstrip s) as [|c1 r] eqn:Hr.
  - (* all of [s] is white space *)
    simpl in Hrs. injection Hrs as <- <-.
    assert (Hh0 : no_space h0 = true -> h0 = EmptyString) by (intros ?; symmetry; auto).
    assert (Ht0 : forall k, clean k = true -> k ∉ t0).
    { intros k Hk Hin. by apply (IHt k Hk), elem_of_nil in Hin. }
    destruct (is_space c) eqn:Hsp.
    + simpl. intros Hsplit [= <- <-].
      destruct (Ascii.eqb c "010") eqn:Hc.
      * rewrite Hs in Hsplit. injection Hsplit as <- <-. split; [done|].
        intros k Hk [->|Hin]%elem_of_cons.
        -- pose proof Hk as [_ Hns]%andb_prop. rewrite (Hh0 Hns) in Hk. done.
        -- by destruct (Ht0 k Hk).
      * rewrite Hs in Hsplit. injection Hsplit as <- <-. split.
        -- unfold no_space. simpl. by rewrite Hsp.
        -- intros k Hk Hin. by destruct (Ht0 k Hk).
    + rewrite (split_cons_other _ _ _ h0 t0 (not_space_not_newline _ Hsp) Hs).
      simpl. rewrite (not_space_not_newline _ Hsp).
      intros [= <- <-] [= <- <-]. split.
      * unfold no_space. simpl. rewrite Hsp. simpl. intros Hns.
        by rewrite (Hh0 Hns).
      * intros k Hk Hin. by destruct (Ht0 k Hk).
  - destruct (Ascii.eqb c "010") eqn:Hc.
    + apply Ascii.eqb_eq in Hc as ->.
      rewrite !split_cons_sep, Hs, Hrs. intros [= <- <-] [= <- <-].
      split; [done|].
      intros k Hk [->|Hin]%elem_of_cons.
      * apply elem_of_cons; left. symmetry. apply IHh.
        by apply andb_prop in Hk as [_ ?].
      * apply elem_of_cons; right. by apply IHt.
    + rewrite (split_cons_other _ _ _ h0 t0 Hc Hs).
      rewrite (split_cons_other _ _ _ h0' t0' Hc Hrs).
      intros [= <- <-] [= <- <-]. split.
      * unfold no_space. simpl. intros [_ Hns]%andb_prop. f_equal. by apply IHh.
      * exact IHt.
Qed.

Lemma elem_of_split_rstrip (k s : string) :
  clean k = true -> k ∈ split "010" s -> k ∈ split "010" (rstrip s).
Proof.
  intros Hk Hin.
  pose proof (split_not_nil "010" s) as Hne.
  pose proof (split_not_nil "010" (rstrip s)) as Hne'.
  destruct (split "010" s) as [|h t] eqn:Hs; [done|].
  destruct (split "010" (rstrip s)) as [|h' t'] eqn:Hrs; [done|].
  destruct (split_rstrip s h t h' t' Hs Hrs) as [Hh Ht].
  apply elem_of_cons in Hin as [->|Hin].
  - apply elem_of_cons; left. symmetry. apply Hh.
    by apply andb_prop in Hk as [_ ?].
  - apply elem_of_cons; right. by apply Ht.
Qed.

(** [strip] loses no clean line. *)
Lemma elem_of_split_strip (k s : string) :
  clean k = true -> k ∈ split "010" s -> k ∈ split "010" (strip s).
Proof.
  intros Hk Hin. unfold strip.
  by apply elem_of_split_rstrip, elem_of_split_lstrip.
Qed.

(** ** More on text *)

Lemma append_assoc (a b c : string) : (a +:+ b) +:+ c = a +:+ b +:+ c.
Proof. induction a as [|x a IH]; [done|]. by rewrite !append_cons, IH. Qed.

Lemma append_nil_r (a : string) : a +:+ EmptyString = a.
Proof. induction a as [|x a IH]; [done|]. by rewrite append_cons, IH. Qed.

Lemma length_append (a b : string) :
  String.length (a +:+ b) = (String.length a + String.length b)%nat.
Proof. induction a as [|x a IH]; [done|]. rewrite append_cons. simpl. by rewrite IH. Qed.

Lemma all_chars_append p a b :
  all_chars p (a +:+ b) = all_chars p a && all_chars p b.
Proof.
  induction a as [|x a IH]; [done|]. rewrite append_cons. simpl.
  by rewrite IH, andb_assoc.
Qed.

End Text.

(** ** More on [strip] *)

Section Strip.

Lemma rstrip_nil_iff s : rstrip s = EmptyString <-> all_chars is_space s = true.
Proof.
  induction s as [|c s IH]; [done|]. simpl.
  destruct (rstrip s) as [|c' r] eqn:Hr.
  - destruct (is_space c); simpl; [|done]. tauto.
  - split; [done|]. intros [_ Hs]%andb_prop. apply IH in Hs. done.
Qed.

Lemma lstrip_all_space s : all_chars is_space s = true -> lstrip s = EmptyString.
Proof.
  induction s as [|c s IH]; [done|]. simpl. intros [-> Hs]%andb_prop. auto.
Qed.

Lemma rstrip_cons c s :
  rstrip (String c s)
  = if is_empty (rstrip s)
    then (if is_space c then EmptyString else String c EmptyString)
    else String c (rstrip s).
Proof. simpl. by destruct (rstrip s). Qed.

Lemma rstrip_idemp s : rstrip (rstrip s) = rstrip s.
Proof.
  induction s as [|c s IH]; [done|]. rewrite rstrip_cons.
  destruct (rstrip s) as [|c' r] eqn:Hr; simpl.
  - destruct (is_space c) eqn:Hc; [done|]. simpl. by rewrite Hc.
  - simpl in IH. by rewrite IH.
Qed.

Lemma lstrip_rstrip s : lstrip (rstrip s) = rstrip (lstrip s).
Proof.
  induction s as [|c s IH]; [done|]. rewrite rstrip_cons.
  cbn [lstrip]. destruct (is_space c) eqn:Hc.
  - destruct (rstrip s) as [|c' r] eqn:Hr; cbn [is_empty].
    + simpl. symmetry. rewrite lstrip_all_space; [done|]. by apply rstrip_nil_iff.
    + cbn [lstrip]. by rewrite Hc.
  - rewrite rstrip_cons.
    destruct (rstrip s) as [|c' r] eqn:Hr; cbn [is_empty lstrip]; by rewrite Hc.
Qed.

Lemma lstrip_idemp s : lstrip (lstrip s) = lstrip s.
Proof.
  induction s as [|c s IH]; [done|]. simpl.
  destruct (is_space c) eqn:Hc; [done|]. simpl. by rewrite Hc.
Qed.

Lemma strip_idemp s : strip (strip s) = strip s.
Proof.
  unfold strip. by rewrite lstrip_rstrip, lstrip_idemp, rstrip_idemp.
Qed.

Lemma strip_rstrip s : strip (rstrip s) = strip s.
Proof. unfold strip. by rewrite lstrip_rstrip, rstrip_idemp. Qed.

Lemma rstrip_append a b :
  rstrip (a +:+ b)
  = if is_empty (rstrip b) then rstrip a else a +:+ rstrip b.
Proof.
  induction a as [|c a IH].
  - rewrite !append_nil_l. by destruct (rstrip b).
  - rewrite append_cons, !rstrip_cons, IH.
    destruct (rstrip b) as [|c' r]; cbn [is_empty]; [done|].
    rewrite append_cons. by destruct a.
Qed.

Lemma all_chars_lstrip p s : all_chars p s = true -> all_chars p (lstrip s) = true.
Proof.
  induction s as [|c s IH]; [done|]. simpl. intros [Hc Hs]%andb_prop.
  destruct (is_space c); [auto|]. simpl. by rewrite Hc, Hs.
Qed.

Lemma all_chars_rstrip p s : all_chars p s = true -> all_chars p (rstrip s) = true.
Proof.
  induction s as [|c s IH]; [done|]. rewrite rstrip_cons. simpl.
  intros [Hc Hs]%andb_prop. specialize (IH Hs).
  destruct (rstrip s); cbn [is_empty].
  - destruct (is_space c); [done|]. simpl. by rewrite Hc.
  - simpl in *. by rewrite Hc, IH.
Qed.

Lemma all_chars_strip p s : all_chars p s = true -> all_chars p (strip s) = true.
Proof. intros H. by apply all_chars_rstrip, all_chars_lstrip. Qed.

Lemma strip_fixed_first_last s :
  strip s = s -> lstrip s = s /\ rstrip s = s.
Proof.
  unfold strip. intros H. split.
  - rewrite <- H at 1. by rewrite lstrip_rstrip, lstrip_idemp.
  - rewrite <- H at 1. by rewrite rstrip_idemp.
Qed.

Lemma strip_append_fixed pre s :
  strip pre = pre -> pre <> EmptyString -> strip s = s ->
  strip (pre +:+ s) = pre +:+ s.
Proof.
  intros [Hlp Hrp]%strip_fixed_first_last Hne [Hls Hrs]%strip_fixed_first_last.
  unfold strip.
  assert (Hl : lstrip (pre +:+ s) = pre +:+ s).
  { destruct pre as [|c pre]; [done|]. rewrite append_cons. simpl in *.
    destruct (is_space c) eqn:Hc; [|done].
    exfalso. assert (Hlen : (String.length (lstrip pre) <= String.length pre)%nat).
    { clear. induction pre as [|x pre IH]; [done|]. simpl.
      destruct (is_space x); simpl; lia. }
    rewrite Hlp in Hlen. simpl in Hlen. lia. }
  rewrite Hl, rstrip_append, Hrs, Hrp. by destruct s; [rewrite append_nil_r|].
Qed.

End Strip.

(** ** Line ends *)

Section LineEnds.

Lemma universal_newlines_id s :
  all_chars (fun c => negb (Ascii.eqb c "013")) s = true ->
  universal_newlines s = s.
Proof.
  induction s as [|c s IH]; [done|]. cbn [all_chars universal_newlines].
  intros [Hc Hs]%andb_prop. apply negb_true_iff in Hc. rewrite Hc.
  by rewrite IH.
Qed.

Lemma one_line_no_newline s : one_line s = true -> no_newline s = true.
Proof.
  unfold one_line, no_newline. induction s as [|c s IH]; [done|]. simpl.
  intros [[Hc _]%andb_prop Hs]%andb_prop. by rewrite Hc, IH.
Qed.

Lemma one_line_no_return s :
  one_line s = true -> all_chars (fun c => negb (Ascii.eqb c "013")) s = true.
Proof.
  unfold one_line. induction s as [|c s IH]; [done|]. simpl.
  intros [[_ Hc]%andb_prop Hs]%andb_prop. by rewrite Hc, IH.
Qed.

Lemma universal_newlines_no_return s :
  all_chars (fun c => negb (Ascii.eqb c "013")) (universal_newlines s) = true.
Proof.
  assert (Hgen : forall n s, (String.length s <= n)%nat ->
    all_chars (fun c => negb (Ascii.eqb c "013")) (universal_newlines s) = true).
  { clear s. induction n as [|n IH]; intros [|c s] Hlen; try done.
    - simpl in Hlen. lia.
    - simpl in Hlen. cbn [universal_newlines].
      destruct (Ascii.eqb c "013") eqn:Hc.
      + cbn [all_chars]. change (negb (Ascii.eqb "010" "013")) with true.
        cbn [andb]. destruct s as [|c' s]; [done|].
        destruct (Ascii.eqb c' "010"); apply IH; simpl in *; lia.
      + cbn [all_chars]. rewrite Hc. cbn [negb andb]. apply IH. lia. }
  by apply (Hgen (String.length s)).
Qed.

Lemma split_pieces_all p sep s :
  all_chars p s = true -> Forall (fun x => all_chars p x = true) (split sep s).
Proof.
  induction s as [|c s IH]; [by repeat constructor|].
  cbn [all_chars split]. intros [Hc Hs]%andb_prop. specialize (IH Hs).
  destruct (Ascii.eqb c sep); [by constructor|].
  destruct (split sep s) as [|h t]; [by repeat constructor; simpl; rewrite Hc|].
  inversion IH; subst. constructor; [|done]. simpl. by rewrite Hc.
Qed.

Lemma one_line_both s :
  no_newline s = true ->
  all_chars (fun c => negb (Ascii.eqb c "013")) s = true -> one_line s = true.
Proof.
  unfold no_newline, one_line. induction s as [|c s IH]; [done|]. simpl.
  intros [-> Hn]%andb_prop [-> Hr]%andb_prop. by rewrite IH.
Qed.

Lemma one_line_append a b : one_line (a +:+ b) = one_line a && one_line b.
Proof. apply all_chars_append. Qed.

Lemma one_line_strip s : one_line s = true -> one_line (strip s) = true.
Proof. apply all_chars_strip. Qed.

End LineEnds.

(** ** The duplicate key is clean *)

Lemma hexdigit_not_space b3 b2 b1 b0 :
  is_space (Sha256.hexdigit b3 b2 b1 b0) = false.
Proof. by destruct b3, b2, b1, b0. Qed.

Lemma no_space_hex32 x rest :
  no_space (Sha256.hex32 x rest) = no_space rest.
Proof.
  unfold Sha256.hex32, Sha256.nibble, no_space. cbn [all_chars].
  by rewrite !hexdigit_not_space.
Qed.

Lemma hexdigest_clean s : clean (Sha256.hexdigest s) = true.
Proof.
  unfold clean. apply andb_true_intro. split; [done|].
  unfold Sha256.hexdigest, Sha256.hex_of_state.
  by rewrite !no_space_hex32.
Qed.

Lemma calculate_hash_clean line record :
  parse_line line = Some record -> clean (calculate_hash line) = true.
Proof.
  intros H. rewrite (calculate_hash_parsed _ _ H). apply hexdigest_clean.
Qed.

(** ** The duplicate cache *)

Section Cache.

Lemma load_uploaded_qsos_spec w :
  Config.load_uploaded_qsos w = (Ok (loaded w), w).
Proof.
  unfold loaded, Config.load_uploaded_qsos.
  by destruct (cache_file w) as [[content|]|].
Qed.

(** What a load makes of a file that holds text, and of the other cases. *)
Lemma loaded_text w content :
  cache_file w = Some (Text content) ->
  loaded w = list_to_set (split "010" (strip (universal_newlines content))).
Proof. unfold loaded, Config.load_uploaded_qsos. by intros ->. Qed.

Lemma loaded_written content tr :
  loaded (World (Some (Text content)) tr)
  = list_to_set (split "010" (strip (universal_newlines content))).
Proof. reflexivity. Qed.

Lemma loaded_no_text w :
  cache_file w = None \/ cache_file w = Some Unreadable -> loaded w = ∅.
Proof. unfold loaded, Config.load_uploaded_qsos. by intros [-> | ->]. Qed.

(** Line ends are read as the program reads them: a cache file written
    with CR LF or a lone CR gives the same keys as one written with line
    feeds, and the file ingestor skips a record whose key such a file
    holds. A file that cannot be read counts as empty. *)
Example load_reads_line_ends :
  let cr := String "013" EmptyString in
  Config.sorted
    (loaded (World (Some (Text ("aa" +:+ cr +:+ nl +:+ "bb" +:+ cr +:+ "cc"))) []))
  = ["aa"; "bb"; "cc"]%string
  /\ (CloudlogPusher.push_file (Sample.friendly [Sample.qso]) Sample.pusher
        "log.adi" true
        (World (Some (Text (Sample.qso_key +:+ cr +:+ nl))) [])).1
     = Ok (CloudlogPusher.Counts 0 0 1)
  /\ loaded (World (Some Unreadable) []) = ∅.
Proof. vm_compute. repeat split; reflexivity. Qed.

Lemma save_uploaded_qso_spec k w :
  Config.save_uploaded_qso k w
  = (Ok tt,
     World (Some (Text (join nl (Config.sorted ({[ k ]} ∪ loaded w)))))
       (trace w)).
Proof.
  unfold Config.save_uploaded_qso, bind. by rewrite load_uploaded_qsos_spec.
Qed.

Lemma elem_of_sorted (x : string) (s : gset string) :
  x ∈ Config.sorted s <-> x ∈ s.
Proof.
  unfold Config.sorted. rewrite merge_sort_Permutation. apply elem_of_elements.
Qed.

Lemma Sorted_sorted (s : gset string) : Sorted String.le (Config.sorted s).
Proof. apply (Sorted_merge_sort String.le). Qed.

Lemma NoDup_sorted (s : gset string) : NoDup (Config.sorted s).
Proof.
  unfold Config.sorted. rewrite merge_sort_Permutation. apply NoDup_elements.
Qed.

Lemma sorted_not_nil (k : string) (s : gset string) :
  k ∈ s -> Config.sorted s <> [].
Proof.
  intros Hin Hnil. apply elem_of_sorted in Hin. rewrite Hnil in Hin.
  by apply elem_of_nil in Hin.
Qed.

(** What a load returns holds no line break: the text is split at the line
    feeds after every carriage return has been read as one. *)
Lemma loaded_one_line (x : string) w : x ∈ loaded w -> one_line x = true.
Proof.
  destruct (cache_file w) as [[content|]|] eqn:Hfile.
  - rewrite (loaded_text _ _ Hfile), elem_of_list_to_set. intros Hin.
    set (text := strip (universal_newlines content)) in *.
    pose proof (split_pieces_no_newline text) as Hnl.
    pose proof (split_pieces_all (fun c => negb (Ascii.eqb c "013")) "010" text
                  (all_chars_strip _ _ (universal_newlines_no_return content)))
      as Hcr.
    rewrite Forall_forall in Hnl, Hcr. apply one_line_both; auto.
  - rewrite loaded_no_text by auto. by intros ?%elem_of_empty.
  - rewrite loaded_no_text by auto. by intros ?%elem_of_empty.
Qed.

Lemma loaded_no_newline (x : string) w : x ∈ loaded w -> no_newline x = true.
Proof. intros Hin. by apply one_line_no_newline, (loaded_one_line x w). Qed.

Lemma clean_one_line k : clean k = true -> one_line k = true.
Proof.
  unfold clean, no_space, one_line. intros [_ H]%andb_prop.
  induction k as [|c k IH]; [done|]. simpl in *.
  apply andb_prop in H as [Hc Hk]. rewrite IH by done. rewrite andb_true_r.
  apply negb_true_iff in Hc.
  destruct (Ascii.eqb c "010") eqn:E1;
    [apply Ascii.eqb_eq in E1; by subst c|].
  destruct (Ascii.eqb c "013") eqn:E2;
    [apply Ascii.eqb_eq in E2; by subst c|]. done.
Qed.

(** Lines without a carriage return, joined by line feeds, hold none. *)
Lemma join_no_return l :
  Forall (fun x => one_line x = true) l ->
  all_chars (fun c => negb (Ascii.eqb c "013")) (join nl l) = true.
Proof.
  induction l as [|x [|y rest] IH]; [done| |].
  - intros Hx%Forall_inv. simpl. by apply one_line_no_return.
  - intros Hall. inversion_clear Hall as [|? ? Hx Hrest].
    rewrite join_cons2, !all_chars_append, IH by done.
    by rewrite (one_line_no_return _ Hx).
Qed.

(** The text [save_uploaded_qso] writes is read back as it is. *)
Lemma saved_text_read_back k w :
  one_line k = true ->
  universal_newlines (join nl (Config.sorted ({[ k ]} ∪ loaded w)))
  = join nl (Config.sorted ({[ k ]} ∪ loaded w)).
Proof.
  intros Hk. apply universal_newlines_id, join_no_return, Forall_forall.
  intros x [->%elem_of_singleton|Hx]%elem_of_sorted%elem_of_union; [done|].
  by apply (loaded_one_line x w).
Qed.

(** A clean key that is in the set being written is in the set loaded
    back, whatever else the file held. *)
Lemma loaded_after_save (k k' : string) w :
  one_line k = true ->
  clean k' = true ->
  k' ∈ ({[ k ]} ∪ loaded w : gset string) ->
  k' ∈ loaded (Config.save_uploaded_qso k w).2.
Proof.
  intros Hk Hclean Hin. rewrite save_uploaded_qso_spec. cbn [snd].
  rewrite loaded_written, saved_text_read_back by done.
  apply elem_of_list_to_set, elem_of_split_strip; [done|].
  apply elem_of_split_join; [by apply clean_no_newline|].
  by apply elem_of_sorted.
Qed.

(** *** Ascending lists *)

Lemma str_lt_spec a b : str_lt a b = true <-> String.le a b /\ a <> b.
Proof.
  unfold str_lt, String.le. rewrite andb_true_iff, negb_true_iff.
  rewrite String.eqb_neq. by rewrite Is_true_true.
Qed.

Lemma ascending_Sorted l : ascending l = true -> Sorted String.le l.
Proof.
  induction l as [|a [|b rest] IH]; [by constructor|by repeat constructor|].
  cbn [ascending]. intros [Hab Hrest]%andb_prop.
  apply str_lt_spec in Hab as [Hab _].
  constructor; [by apply IH|]. by constructor.
Qed.

Lemma ascending_NoDup l : ascending l = true -> NoDup l.
Proof.
  intros Hasc.
  assert (Hs : StronglySorted (fun a b => String.le a b /\ a <> b) l).
  { apply Sorted_StronglySorted.
    - intros a b c [Hab Hne] [Hbc Hne']. split; [by etrans|].
      intros ->. apply Hne. by apply (anti_symm String.le).
    - induction l as [|a [|b rest] IH]; [by constructor|by repeat constructor|].
      cbn [ascending] in Hasc. apply andb_prop in Hasc as [Hab Hrest].
      constructor; [by apply IH|]. constructor. by apply str_lt_spec. }
  induction Hs as [|a l Hs IH Hall]; [by constructor|].
  constructor; [|apply IH].
  - intros Hin. rewrite Forall_forall in Hall. by destruct (Hall a Hin).
  - destruct l as [|b rest]; [done|]. cbn [ascending] in Hasc.
    by apply andb_prop in Hasc as [_ ?].
Qed.

Lemma Sorted_NoDup_ascending l :
  Sorted String.le l -> NoDup l -> ascending l = true.
Proof.
  induction l as [|a [|b rest] IH]; [done..|].
  intros Hs Hnd. cbn [ascending]. apply andb_true_intro. split.
  - apply str_lt_spec. split.
    + apply Sorted_inv in Hs as [_ Hhd]. by inversion Hhd.
    + intros ->. apply NoDup_cons in Hnd as [Hnin _]. apply Hnin.
      by apply elem_of_cons; left.
  - apply IH; [by apply Sorted_inv in Hs as [? _]|by apply NoDup_cons in Hnd as [_ ?]].
Qed.

(** An ascending list is what [sorted] makes of its set. *)
Lemma sorted_list_to_set l :
  ascending l = true -> Config.sorted (list_to_set l) = l.
Proof.
  intros Hasc. apply (Sorted_unique String.le).
  - apply Sorted_sorted.
  - by apply ascending_Sorted.
  - unfold Config.sorted. rewrite merge_sort_Permutation.
    apply elements_list_to_set. by apply ascending_NoDup.
Qed.

(** *** Canonical files *)

Lemma lstrip_first_not_space c s : is_space c = false -> lstrip (String c s) = String c s.
Proof. intros H. simpl. by rewrite H. Qed.

Lemma rstrip_clean_pieces s : forall h t,
  split "010" s = h :: t ->
  no_space h = true -> forallb clean t = true -> rstrip s = s.
Proof.
  induction s as [|c s IH]; [done|]. intros h t.
  pose proof (split_not_nil "010" s) as Hne.
  destruct (split "010" s) as [|h0 t0] eqn:Hs; [done|].
  simpl. rewrite Hs. destruct (Ascii.eqb c "010") eqn:Hc.
  - intros [= <- <-] _ Ht. cbn [forallb] in Ht.
    apply andb_prop in Ht as [Hh0 Ht0].
    rewrite (IH h0 t0 eq_refl) by (done || by apply andb_prop in Hh0 as [_ ?]).
    destruct s as [|c' s']; [|done]. simpl in Hs. by injection Hs as <- <-.
  - intros [= <- <-] Hh Ht. unfold no_space in Hh. simpl in Hh.
    apply andb_prop in Hh as [Hsp Hh0]. apply negb_true_iff in Hsp.
    rewrite (IH h0 t0 eq_refl) by done.
    destruct s as [|c' s']; [by rewrite Hsp|done].
Qed.

Lemma strip_canonical content :
  canonical content = true -> strip content = content.
Proof.
  unfold canonical. intros [Hclean _]%andb_prop.
  pose proof (split_not_nil "010" content) as Hne.
  destruct (split "010" content) as [|h t] eqn:Hs; [done|].
  cbn [forallb] in Hclean. apply andb_prop in Hclean as [Hh Ht].
  unfold strip.
  assert (Hl : lstrip content = content).
  { destruct content as [|c s]; [done|]. apply lstrip_first_not_space.
    simpl in Hs. destruct (Ascii.eqb c "010").
    - injection Hs as <- _. done.
    - destruct (split "010" s); injection Hs as <- _;
        by apply clean_cons in Hh as [? _]. }
  rewrite Hl. apply (rstrip_clean_pieces content h t Hs); [|done].
  by apply andb_prop in Hh as [_ ?].
Qed.

Lemma all_chars_pieces p s :
  p "010"%char = true ->
  Forall (fun x => all_chars p x = true) (split "010" s) ->
  all_chars p s = true.
Proof.
  intros Hp. induction s as [|c s IH]; [done|]. cbn [split all_chars].
  pose proof (split_not_nil "010" s) as Hne.
  destruct (Ascii.eqb c "010") eqn:Hc.
  - apply Ascii.eqb_eq in Hc as ->. intros Hall%Forall_inv_tail.
    by rewrite Hp, IH.
  - destruct (split "010" s) as [|h t]; [done|].
    intros Hall. inversion_clear Hall as [|? ? Hh Ht]. simpl in Hh.
    apply andb_prop in Hh as [-> Hh]. apply IH. by constructor.
Qed.

Lemma canonical_read_back content :
  canonical content = true -> universal_newlines content = content.
Proof.
  unfold canonical. intros [Hclean _]%andb_prop.
  apply universal_newlines_id, all_chars_pieces; [done|].
  apply Forall_forall. intros x Hx%list_elem_of_In.
  rewrite forallb_forall in Hclean.
  by apply one_line_no_return, clean_one_line, Hclean.
Qed.

Lemma loaded_canonical w content :
  cache_file w = Some (Text content) -> canonical content = true ->
  loaded w = list_to_set (split "010" content)
  /\ Config.sorted (loaded w) = split "010" content.
Proof.
  intros Hfile Hcan.
  rewrite (loaded_text _ _ Hfile), (canonical_read_back _ Hcan),
    (strip_canonical _ Hcan).
  split; [done|]. apply sorted_list_to_set.
  unfold canonical in Hcan. by apply andb_prop in Hcan as [_ ?].
Qed.

(** Starting from no file, or from a canonical one, adding a clean key
    leaves a canonical file. *)
Lemma save_keeps_canonical k w :
  clean k = true ->
  (cache_file w = None
   \/ exists content,
        cache_file w = Some (Text content) /\ canonical content = true) ->
  exists content',
    cache_file (Config.save_uploaded_qso k w).2 = Some (Text content')
    /\ canonical content' = true.
Proof.
  intros Hk Hw. rewrite save_uploaded_qso_spec. simpl. eexists. split; [done|].
  set (s := {[ k ]} ∪ loaded w).
  assert (Hall : forall x : string, x ∈ s -> clean x = true).
  { intros x [->%elem_of_singleton|Hx]%elem_of_union; [done|].
    destruct Hw as [Hnone|(content & Hfile & Hcan)].
    - rewrite loaded_no_text in Hx by auto. by apply elem_of_empty in Hx.
    - destruct (loaded_canonical _ _ Hfile Hcan) as [Hl _]. rewrite Hl in Hx.
      apply elem_of_list_to_set in Hx. unfold canonical in Hcan.
      apply andb_prop in Hcan as [Hcl _]. rewrite forallb_forall in Hcl.
      apply Hcl. by apply list_elem_of_In. }
  unfold canonical. rewrite split_join.
  - apply andb_true_intro. split.
    + apply forallb_forall. intros x Hx%list_elem_of_In%elem_of_sorted. auto.
    + apply Sorted_NoDup_ascending; [apply Sorted_sorted|apply NoDup_sorted].
  - apply (sorted_not_nil k). apply elem_of_union. left. by apply elem_of_singleton.
  - apply Forall_forall. intros x Hx%elem_of_sorted. by apply clean_no_newline, Hall.
Qed.

End Cache.

(** *** The end of the file *)

Section FileEnd.

Lemma newline_terminated_no_newline s :
  no_newline s = true -> newline_terminated s = false.
Proof.
  unfold no_newline. induction s as [|c s IH]; [done|]. simpl.
  intros [Hc Hs]%andb_prop. apply negb_true_iff in Hc.
  destruct s; [done|]. by apply IH.
Qed.

Lemma newline_terminated_append x y :
  newline_terminated (x +:+ String "010" y)
  = match y with EmptyString => true | _ => newline_terminated y end.
Proof.
  induction x as [|c x IH].
  - rewrite append_nil_l. by destruct y.
  - rewrite append_cons. cbn [newline_terminated]. rewrite IH.
    by destruct x.
Qed.

Lemma join_empty_inv y rest : join nl (y :: rest) = EmptyString ->
  y = EmptyString /\ rest = [].
Proof.
  destruct rest as [|z rest]; [done|]. rewrite join_cons2.
  destruct y; discriminate.
Qed.

Lemma newline_terminated_join l :
  Forall (fun x => no_newline x = true) l ->
  newline_terminated (join nl l) = true ->
  exists l0, l0 <> [] /\ l = l0 ++ [EmptyString].
Proof.
  induction l as [|x [|y rest] IH]; [done| |].
  - intros Hx%Forall_inv Hnt. simpl in Hnt.
    by rewrite newline_terminated_no_newline in Hnt.
  - intros Hall%Forall_inv_tail. rewrite join_cons2. unfold nl at 1.
    rewrite append_cons, append_nil_l, newline_terminated_append.
    destruct (join nl (y :: rest)) as [|c j] eqn:Hj.
    + intros _. apply join_empty_inv in Hj as [-> ->]. by exists [x].
    + intros Hnt. destruct (IH Hall Hnt) as (l0 & Hne & Hl0).
      exists (x :: l0). split; [done|]. by rewrite Hl0.
Qed.

Lemma le_empty_inv a : String.le a EmptyString -> a = EmptyString.
Proof.
  intros H. apply (anti_symm String.le); [done|]. by destruct a.
Qed.

Lemma sorted_join_not_newline_terminated (s : gset string) :
  (forall x : string, x ∈ s -> no_newline x = true) ->
  newline_terminated (join nl (Config.sorted s)) = false.
Proof.
  intros Hall. apply not_true_is_false. intros Hnt.
  apply newline_terminated_join in Hnt as (l0 & Hne & Hl0).
  2:{ apply Forall_forall. intros x Hx%elem_of_sorted. auto. }
  pose proof (Sorted_sorted s) as Hs. pose proof (NoDup_sorted s) as Hnd.
  rewrite Hl0 in Hs, Hnd. apply Sorted_StronglySorted in Hs; [|apply _].
  destruct l0 as [|a l0]; [done|].
  assert (Ha : a = EmptyString).
  { apply le_empty_inv.
    apply (StronglySorted_app_1_elem_of String.le (a :: l0) [EmptyString]);
      [done|by apply elem_of_cons; left|by apply list_elem_of_singleton]. }
  subst a. apply NoDup_app in Hnd as (_ & Hdisj & _).
  apply (Hdisj EmptyString); [by apply elem_of_cons; left|by apply list_elem_of_singleton].
Qed.

End FileEnd.

(** C8, as the code has it. After adding a key that holds no line break
    (neither a line feed nor a carriage return) the cache file reads, line
    by line, exactly the keys of the cache (the new one and those loaded
    before), each once, in ascending order; no line holds a carriage
    return, the lines are separated by single line feeds and no line feed
    ends the file. Loading when there is no file gives the empty set. *)
Theorem save_writes_sorted_lines (k : string) (w : world) :
  one_line k = true ->
  exists content,
    cache_file (Config.save_uploaded_qso k w).2 = Some (Text content)
    /\ content = join nl (split "010" content)
    /\ (forall x, x ∈ split "010" content <-> x = k \/ x ∈ loaded w)
    /\ (forall x, x ∈ split "010" content -> one_line x = true)
    /\ Sorted String.le (split "010" content)
    /\ NoDup (split "010" content)
    /\ newline_terminated content = false
    /\ (forall w0, cache_file w0 = None ->
        Config.load_uploaded_qsos w0 = (Ok ∅, w0)).
Proof.
  intros Hk. rewrite save_uploaded_qso_spec. simpl. eexists. split; [done|].
  set (s := {[ k ]} ∪ loaded w).
  assert (Hline : forall x : string, x ∈ s -> one_line x = true).
  { intros x [->%elem_of_singleton|Hx]%elem_of_union; [done|].
    by apply (loaded_one_line x w). }
  assert (Hall : forall x : string, x ∈ s -> no_newline x = true)
    by (intros x Hx; by apply one_line_no_newline, Hline).
  assert (Hsplit : split "010" (join nl (Config.sorted s)) = Config.sorted s).
  { apply split_join.
    - apply (sorted_not_nil k). apply elem_of_union. left. by apply elem_of_singleton.
    - apply Forall_forall. intros x Hx%elem_of_sorted. auto. }
  rewrite Hsplit. repeat split.
  - intros Hx%elem_of_sorted. unfold s in Hx.
    apply elem_of_union in Hx as [->%elem_of_singleton|Hx]; auto.
  - intros [->|Hx]; apply elem_of_sorted, elem_of_union;
      [left; by apply elem_of_singleton|by right].
  - intros x Hx%elem_of_sorted. auto.
  - apply Sorted_sorted.
  - apply NoDup_sorted.
  - by apply sorted_join_not_newline_terminated.
  - intros w0 Hnone. unfold Config.load_uploaded_qsos. by rewrite Hnone.
Qed.

Lemma save_writes_sorted_lines_witness :
  exists content,
    cache_file
      (Config.save_uploaded_qso Sample.qso_key
         (World (Some (Text "ff00")) [])).2 = Some (Text content)
    /\ split "010" content = ["0b5d0772905febc05dc150235940180dcf49f49881973d815eced60573501878"; "ff00"]%string
    /\ newline_terminated content = false.
Proof.
  destruct (save_writes_sorted_lines Sample.qso_key
              (World (Some (Text "ff00")) []))
    as (content & Hfile & _ & _ & _ & _ & _ & Hend & _);
    [vm_compute; reflexivity|].
  exists content. split; [exact Hfile|]. split; [|exact Hend].
  assert (Hc : Some (Text content)
               = Some (Text (Sample.qso_key +:+ nl +:+ "ff00")))
    by (rewrite <- Hfile; vm_compute; reflexivity).
  injection Hc as ->. vm_compute. reflexivity.
Defined.

(** C8, as the specification words it, fails on the first key added: the
    file is the key alone, without a newline after it. *)
Lemma save_leaves_no_final_newline :
  cache_file (Config.save_uploaded_qso Sample.qso_key Sample.empty_world).2
  = Some (Text Sample.qso_key)
  /\ newline_terminated Sample.qso_key = false.
Proof. vm_compute. split; reflexivity. Qed.

(** C6, as the code has it. For a duplicate key (not empty, no white space)
    and any cache file, also one that cannot be read: after adding the key
    a load returns a set that holds it; after clearing a load returns the
    empty set; adding a key that a load already returns leaves a canonical
    file as it is; and starting from no file or a canonical one, adding
    leaves a canonical file. *)
Theorem cache_round_trip (k : string) (w : world) :
  clean k = true ->
  (exists s w',
      Config.load_uploaded_qsos (Config.save_uploaded_qso k w).2 = (Ok s, w')
      /\ k ∈ s)
  /\ (exists w',
      Config.load_uploaded_qsos (Config.clear_cache w).2 = (Ok ∅, w'))
  /\ (forall content s,
      cache_file w = Some (Text content) -> canonical content = true ->
      Config.load_uploaded_qsos w = (Ok s, w) -> k ∈ s ->
      cache_file (Config.save_uploaded_qso k w).2 = Some (Text content))
  /\ ((cache_file w = None
       \/ exists content,
            cache_file w = Some (Text content) /\ canonical content = true) ->
      exists content',
        cache_file (Config.save_uploaded_qso k w).2 = Some (Text content')
        /\ canonical content' = true).
Proof.
  intros Hk. repeat split.
  - eexists _, _. split; [apply load_uploaded_qsos_spec|].
    apply loaded_after_save; [by apply clean_one_line|done|].
    apply elem_of_union. left. by apply elem_of_singleton.
  - eexists. reflexivity.
  - intros content s Hfile Hcan Hload Hin.
    rewrite load_uploaded_qsos_spec in Hload. injection Hload as <-.
    rewrite save_uploaded_qso_spec. simpl. do 2 f_equal.
    replace ({[ k ]} ∪ loaded w) with (loaded w)
      by (symmetry; by apply subseteq_union_1_L, singleton_subseteq_l).
    destruct (loaded_canonical _ _ Hfile Hcan) as [_ ->]. apply join_split.
  - by apply save_keeps_canonical.
Qed.

Lemma cache_round_trip_witness :
  let w := World (Some (Text ("00ff" +:+ nl +:+ Sample.qso_key))) [] in
  cache_file (Config.save_uploaded_qso Sample.qso_key w).2 = cache_file w.
Proof.
  intros w.
  destruct (cache_round_trip Sample.qso_key w) as (_ & _ & Hsame & _);
    [vm_compute; reflexivity|].
  apply (Hsame ("00ff" +:+ nl +:+ Sample.qso_key)%string (loaded w)).
  - reflexivity.
  - vm_compute; reflexivity.
  - apply load_uploaded_qsos_spec.
  - apply elem_of_list_to_set, list_elem_of_In. vm_compute. right. left. reflexivity.
Defined.

(** C6, as the specification words it, fails on a cache file that ends
    with a newline: a load returns the key, and adding the key again
    rewrites the file without that newline. *)
Lemma redundant_save_rewrites_file :
  let w := World (Some (Text (Sample.qso_key +:+ nl))) [] in
  (exists s, Config.load_uploaded_qsos w = (Ok s, w) /\ Sample.qso_key ∈ s)
  /\ cache_file (Config.save_uploaded_qso Sample.qso_key w).2
     = Some (Text Sample.qso_key)
  /\ cache_file (Config.save_uploaded_qso Sample.qso_key w).2 <> cache_file w.
Proof.
  intros w.
  assert (Hsave : cache_file (Config.save_uploaded_qso Sample.qso_key w).2
                  = Some (Text Sample.qso_key)) by (vm_compute; reflexivity).
  split; [|split; [exact Hsave|]].
  - exists (loaded w). split; [apply load_uploaded_qsos_spec|].
    apply elem_of_list_to_set, list_elem_of_In. vm_compute. left. reflexivity.
  - rewrite Hsave. intros Heq.
    apply (f_equal (fun o => match o with
                             | Some (Text t) => String.length t
                             | _ => 0%nat
                             end)) in Heq.
    vm_compute in Heq. discriminate.
Qed.

(** ** Running the file ingestor twice *)

Lemma read_file_cache e filepath w r w' :
  read_file e filepath w = (r, w') -> cache_file w' = cache_file w.
Proof.
  unfold read_file.
  destruct (read_file_loop_spec e filepath 4 0 w eq_refl)
    as [(n & lines & _ & _ & _ & Hrun)
       |[(m & _ & _ & Hrun)|(n & m & _ & _ & _ & Hrun)]];
    unfold max_retries; rewrite Hrun; by intros [= <- <-].
Qed.

Lemma push_record_invalid e self text w :
  parse_line text = None ->
  CloudlogPusher.push_record e self text w
  = (Ok (false, Some "Invalid ADIF format"%string), w).
Proof. intros H. unfold CloudlogPusher.push_record. by rewrite H. Qed.

Lemma push_record_accepted e self text record w :
  (forall tr ep body, accepted (http_post e tr ep body) = true) ->
  parse_line text = Some record ->
  exists w',
    CloudlogPusher.push_record e self text w = (Ok (true, None), w')
    /\ cache_file w' = cache_file w.
Proof.
  intros Hacc Hparse. unfold CloudlogPusher.push_record.
  rewrite Hparse, (parse_line_not_falsy _ _ Hparse). cbv zeta.
  unfold CloudlogPusher.post.
  match goal with |- context [http_post e ?tr ?ep ?body] =>
    specialize (Hacc tr ep body); destruct (http_post e tr ep body) as [code text'|m|m]
  end; [|discriminate..].
  simpl in Hacc. unfold bind, log, ret. rewrite Hacc. eexists. split; reflexivity.
Qed.

Lemma valid_record_parsed line :
  valid_record line = true <->
  is_empty (strip line) = false
  /\ startswith "#" (strip line) = false
  /\ exists record, parse_line (strip line) = Some record.
Proof.
  unfold valid_record. rewrite !andb_true_iff, !negb_true_iff. split.
  - intros [[He Hc] Hp]. repeat split; [done..|].
    destruct (parse_line (strip line)) as [record|]; [by exists record|done].
  - intros (He & Hc & record & Hp). repeat split; [done..|].
    rewrite Hp. by apply parse_line_not_falsy in Hp.
Qed.

Lemma clean_not_empty k : clean k = true -> is_empty k = false.
Proof. unfold clean. by intros [?%negb_true_iff _]%andb_prop. Qed.

Section SecondRun.
Variables (e : env) (self : CloudlogPusher.t) (uploaded_hashes : gset string).

(** With every record of the line's kind already in the snapshot, the loop
    body sends nothing and changes nothing. *)
Lemma push_line_all_known st idx line w :
  (valid_record line = true -> calculate_hash (strip line) ∈ uploaded_hashes) ->
  exists st',
    CloudlogPusher.push_line e self uploaded_hashes st (idx, line) w = (Ok st', w)
    /\ CloudlogPusher.success st' = CloudlogPusher.success st
    /\ CloudlogPusher.skipped st'
       = (CloudlogPusher.skipped st + if valid_record line then 1 else 0)%nat.
Proof.
  intros Hknown. unfold CloudlogPusher.push_line.
  destruct (valid_record line) eqn:Hvalid.
  - pose proof Hvalid as (He & Hc & record & Hp)%valid_record_parsed.
    rewrite He, Hc. simpl.
    rewrite (clean_not_empty _ (calculate_hash_clean _ _ Hp)).
    rewrite bool_decide_eq_true_2 by auto. simpl. unfold ret.
    eexists. split; [done|]. simpl. split; [done|lia].
  - destruct (is_empty (strip line)) eqn:He; simpl.
    { unfold ret. exists st. repeat split; lia. }
    destruct (startswith "#" (strip line)) eqn:Hc; simpl.
    { unfold ret. exists st. repeat split; lia. }
    destruct (parse_line (strip line)) as [record|] eqn:Hp.
    { assert (valid_record line = true) by (apply valid_record_parsed; eauto).
      congruence. }
    rewrite (calculate_hash_unparsed _ Hp). simpl.
    unfold bind. rewrite (push_record_invalid _ _ _ _ Hp). simpl. unfold ret.
    eexists. split; [done|]. simpl. split; lia.
Qed.

Lemma for_each_all_known items : forall st w,
  (forall line, line ∈ items.*2 -> valid_record line = true ->
                calculate_hash (strip line) ∈ uploaded_hashes) ->
  exists st',
    for_each (CloudlogPusher.push_line e self uploaded_hashes) items st w
    = (Ok st', w)
    /\ CloudlogPusher.success st' = CloudlogPusher.success st
    /\ CloudlogPusher.skipped st'
       = (CloudlogPusher.skipped st
          + length (List.filter valid_record items.*2))%nat.
Proof.
  induction items as [|[idx line] items IH]; intros st w Hknown.
  - exists st. simpl. unfold ret. repeat split; lia.
  - destruct (push_line_all_known st idx line w) as (st1 & Hstep & Hs1 & Hk1).
    { apply Hknown. simpl. by apply elem_of_cons; left. }
    destruct (IH st1 w) as (st2 & Hrest & Hs2 & Hk2).
    { intros l Hl. apply Hknown. simpl. by apply elem_of_cons; right. }
    exists st2. cbn [for_each]. unfold bind. rewrite Hstep, Hrest.
    split; [done|]. split; [congruence|].
    rewrite Hk2, Hk1, fmap_cons. cbn [List.filter snd].
    destruct (valid_record line); cbn [length]; lia.
Qed.

End SecondRun.

Lemma read_file_trace e filepath w r w' :
  read_file e filepath w = (r, w') -> exists ext, trace w' = trace w ++ ext.
Proof.
  unfold read_file.
  destruct (read_file_loop_spec e filepath 4 0 w eq_refl)
    as [(n & lines & _ & _ & _ & Hrun)
       |[(m & _ & _ & Hrun)|(n & m & _ & _ & _ & Hrun)]];
    unfold max_retries; rewrite Hrun; intros [= <- <-]; by eexists.
Qed.

Lemma sends_accepted_later e w w1 wf ext :
  trace w1 = trace w ++ ext ->
  sends_accepted e w wf -> sends_accepted e w1 wf.
Proof.
  intros Htr Hsent before ep body after Hwf. rewrite Htr in Hwf |- *.
  rewrite <- !app_assoc in *. apply (Hsent (ext ++ before) ep body after).
  by rewrite <- !app_assoc.
Qed.

Section FirstRun.
Variables (e : env) (self : CloudlogPusher.t) (uploaded_hashes : gset string).

(** What the loop body does to one line: either it sends nothing and
    changes nothing (and then a valid line is one the snapshot holds), or
    the line parses and one request is recorded; when that request is
    accepted the body ends normally, no clean key has left the cache file
    and the key of the line is in it. *)
Lemma push_line_cases st idx line w :
  (exists st',
      CloudlogPusher.push_line e self uploaded_hashes st (idx, line) w
      = (Ok st', w)
      /\ (valid_record line = true ->
          calculate_hash (strip line) ∈ uploaded_hashes))
  \/ (exists res w1 body,
      valid_record line = true
      /\ CloudlogPusher.push_line e self uploaded_hashes st (idx, line) w
         = (res, w1)
      /\ trace w1 = trace w ++ [EvPost (CloudlogPusher.endpoint self) body]
      /\ (accepted (http_post e (trace w) (CloudlogPusher.endpoint self) body)
          = true ->
          (exists st', res = Ok st')
          /\ (forall k : string, clean k = true -> k ∈ loaded w -> k ∈ loaded w1)
          /\ calculate_hash (strip line) ∈ loaded w1)).
Proof.
  unfold CloudlogPusher.push_line.
  destruct (is_empty (strip line)) eqn:He; simpl.
  { left. exists st. unfold ret. split; [done|].
    intros (? & _)%valid_record_parsed. congruence. }
  destruct (startswith "#" (strip line)) eqn:Hc; simpl.
  { left. exists st. unfold ret. split; [done|].
    intros (_ & ? & _)%valid_record_parsed. congruence. }
  destruct (parse_line (strip line)) as [record|] eqn:Hp.
  - pose proof (calculate_hash_clean _ _ Hp) as Hclean.
    assert (Hvalid : valid_record line = true)
      by (apply valid_record_parsed; eauto).
    rewrite (clean_not_empty _ Hclean). simpl.
    destruct (bool_decide _) eqn:Hin.
    { apply bool_decide_eq_true in Hin. left. eexists. unfold ret. by split. }
    right. unfold bind at 1. unfold CloudlogPusher.push_record.
    rewrite Hp, (parse_line_not_falsy _ _ Hp). cbv zeta.
    unfold CloudlogPusher.post.
    set (body := Payload _ _ _ _).
    set (wl := World (cache_file w)
                 (trace w ++ [EvPost (CloudlogPusher.endpoint self) body])).
    destruct (http_post e (trace w) (CloudlogPusher.endpoint self) body)
      as [code text|m|m] eqn:Ho; unfold bind, log, ret, raise; simpl.
    + destruct ((code =? 200)%N || (code =? 201)%N) eqn:Hcode; simpl.
      * fold wl. rewrite save_uploaded_qso_spec.
        eexists _, _, body. split; [done|]. split; [done|]. split; [done|].
        intros _. split; [by eexists|].
        pose proof (save_uploaded_qso_spec (calculate_hash (strip line)) wl) as Hsave.
        assert (Hl : loaded wl = loaded w) by (by apply loaded_cache_file).
        split.
        -- intros k Hk Hkin.
           pose proof (loaded_after_save (calculate_hash (strip line)) k wl
                         (clean_one_line _ Hclean) Hk) as Hafter.
           rewrite Hsave in Hafter. apply Hafter.
           apply elem_of_union. right. by rewrite Hl.
        -- pose proof (loaded_after_save (calculate_hash (strip line))
                         (calculate_hash (strip line)) wl
                         (clean_one_line _ Hclean) Hclean) as Hafter.
           rewrite Hsave in Hafter. apply Hafter.
           apply elem_of_union. left. by apply elem_of_singleton.
      * eexists _, wl, body. split; [done|]. split; [reflexivity|].
        split; [reflexivity|]. rewrite Ho. simpl. rewrite Hcode. discriminate.
    + eexists _, wl, body. split; [done|]. split; [reflexivity|].
      split; [reflexivity|]. rewrite Ho. discriminate.
    + eexists _, wl, body. split; [done|]. split; [reflexivity|].
      split; [reflexivity|]. rewrite Ho. discriminate.
  - left. rewrite (calculate_hash_unparsed _ Hp). simpl.
    unfold bind. rewrite (push_record_invalid _ _ _ _ Hp). simpl. unfold ret.
    eexists. split; [done|].
    intros (_ & _ & record & ?)%valid_record_parsed. congruence.
Qed.

Lemma for_each_trace items : forall st w res wf,
  for_each (CloudlogPusher.push_line e self uploaded_hashes) items st w
  = (res, wf) ->
  exists ext, trace wf = trace w ++ ext.
Proof.
  induction items as [|[idx line] items IH]; intros st w res wf.
  - intros [= <- <-]. exists []. by rewrite app_nil_r.
  - cbn [for_each]. unfold bind.
    destruct (push_line_cases st idx line w)
      as [(st1 & Hstep & _)|(res1 & w1 & body & _ & Hstep & Htr & _)];
      rewrite Hstep.
    + apply IH.
    + destruct res1 as [st1|ex].
      * intros (ext & Hext)%IH. rewrite Hext, Htr, <- app_assoc. by eexists.
      * intros [= <- <-]. by eexists.
Qed.

(** When every request of the loop was accepted, the loop ends normally,
    no clean key has left the cache file, and the key of every valid line
    is in the snapshot or in the file. *)
Lemma for_each_accepted items : forall st w res wf,
  for_each (CloudlogPusher.push_line e self uploaded_hashes) items st w
  = (res, wf) ->
  sends_accepted e w wf ->
  (exists st', res = Ok st')
  /\ (forall k : string, clean k = true -> k ∈ loaded w -> k ∈ loaded wf)
  /\ (forall line, line ∈ items.*2 -> valid_record line = true ->
      calculate_hash (strip line) ∈ uploaded_hashes
      \/ calculate_hash (strip line) ∈ loaded wf).
Proof.
  induction items as [|[idx line] items IH]; intros st w res wf.
  - intros [= <- <-] _. split; [by eexists|]. split; [done|].
    by intros line ?%elem_of_nil.
  - cbn [for_each]. unfold bind.
    destruct (push_line_cases st idx line w)
      as [(st1 & Hstep & Hkey)|(res1 & w1 & body & Hvalid & Hstep & Htr & Hacc)];
      rewrite Hstep.
    + intros Hrest Hsent. destruct (IH _ _ _ _ Hrest Hsent) as (Hok & Hmono & Hkeys).
      split; [done|]. split; [done|].
      intros l [->|Hl]%elem_of_cons Hv; [left; by apply Hkey|by apply Hkeys].
    + destruct res1 as [st1|ex].
      * intros Hrest Hsent.
        destruct (for_each_trace _ _ _ _ _ Hrest) as (ext & Hext).
        destruct Hacc as (_ & Hmono1 & Hkey1).
        { specialize (Hsent [] (CloudlogPusher.endpoint self) body ext).
          rewrite app_nil_r in Hsent. apply Hsent.
          rewrite Hext, Htr, <- app_assoc. reflexivity. }
        destruct (IH _ _ _ _ Hrest (sends_accepted_later _ _ _ _ _ Htr Hsent))
          as (Hok & Hmono & Hkeys).
        split; [done|]. split; [by auto|].
        intros l [->|Hl]%elem_of_cons Hv; [|by apply Hkeys].
        right. pose proof Hv as (_ & _ & record & Hp)%valid_record_parsed.
        apply Hmono; [|done]. by apply (calculate_hash_clean _ _ Hp).
      * intros [= <- <-] Hsent.
        destruct Hacc as ((st' & Hres) & _); [|discriminate].
        specialize (Hsent [] (CloudlogPusher.endpoint self) body []).
        rewrite app_nil_r in Hsent. apply Hsent. by rewrite Htr.
Qed.

End FirstRun.

Lemma enumerate1_lines lines : (CloudlogPusher.enumerate1 lines).*2 = lines.
Proof.
  unfold CloudlogPusher.enumerate1. generalize 1%nat.
  induction lines as [|l lines IH]; intros start; [done|].
  simpl. by rewrite IH.
Qed.

Lemma push_file_read e self filepath lines w w' :
  read_file e filepath w = (Ok (Some lines), w') ->
  CloudlogPusher.push_file e self filepath true w
  = (do st <~ for_each (CloudlogPusher.push_line e self (loaded w'))
                (CloudlogPusher.enumerate1 lines) (CloudlogPusher.Tally 0 0 0 []) ;
     ret (CloudlogPusher.Counts (CloudlogPusher.success st)
            (CloudlogPusher.failed st) (CloudlogPusher.skipped st))) w'.
Proof.
  intros Hread. unfold CloudlogPusher.push_file, except_IOError.
  unfold bind at 1. unfold bind at 1. rewrite Hread. unfold ret at 1.
  unfold bind at 1. by rewrite load_uploaded_qsos_spec.
Qed.

(** C4. Run [push_file] on a file, every request of that run being
    answered with 200 or 201; then run it again on the same lines, whatever
    the server does then. The first run ends normally; the second sends
    nothing, reports no success, and skips as many lines as the file has
    valid records. *)
Theorem second_run_skips_every_record (e1 e2 : env) (self : CloudlogPusher.t)
    (filepath : string) (lines : list string) (w0 w0' w1 : world)
    (r1 : result CloudlogPusher.counts) :
  read_file e1 filepath w0 = (Ok (Some lines), w0') ->
  CloudlogPusher.push_file e1 self filepath true w0 = (r1, w1) ->
  sends_accepted e1 w0 w1 ->
  (exists c1, r1 = Ok c1)
  /\ forall w1',
      read_file e2 filepath w1 = (Ok (Some lines), w1') ->
      exists r2,
        CloudlogPusher.push_file e2 self filepath true w1 = (Ok r2, w1')
        /\ CloudlogPusher.c_success r2 = 0%nat
        /\ CloudlogPusher.c_skipped r2
           = length (List.filter valid_record lines).
Proof.
  intros Hread1 Hrun1 Hsent.
  rewrite (push_file_read _ _ _ _ _ _ Hread1) in Hrun1. unfold bind in Hrun1.
  destruct (for_each _ _ _ w0') as [res wf] eqn:Hloop.
  destruct (read_file_trace _ _ _ _ _ Hread1) as (ext0 & Hext0).
  assert (Hwf : wf = w1) by (destruct res; unfold ret in Hrun1; congruence).
  subst wf.
  destruct (for_each_accepted e1 self (loaded w0') _ _ _ _ _ Hloop
              (sends_accepted_later _ _ _ _ _ Hext0 Hsent))
    as ((st1 & ->) & Hmono & Hkeys).
  split. { unfold ret in Hrun1. injection Hrun1 as <-. by eexists. }
  intros w1' Hread2.
  pose proof (loaded_cache_file _ _ (read_file_cache _ _ _ _ _ Hread2)) as Hl2.
  destruct (for_each_all_known e2 self (loaded w1')
              (CloudlogPusher.enumerate1 lines) (CloudlogPusher.Tally 0 0 0 []) w1')
    as (st2 & Hrun2 & Hs2 & Hk2).
  { rewrite enumerate1_lines in *. intros line Hin Hvalid. rewrite Hl2.
    destruct (Hkeys line Hin Hvalid) as [Hsnap|Hfile]; [|done].
    pose proof Hvalid as (_ & _ & record & Hp)%valid_record_parsed.
    apply Hmono; [by apply (calculate_hash_clean _ _ Hp)|done]. }
  eexists. split.
  { rewrite (push_file_read _ _ _ _ _ _ Hread2). unfold bind.
    rewrite Hrun2. reflexivity. }
  simpl. rewrite enumerate1_lines in Hk2. split; [by rewrite Hs2|by rewrite Hk2].
Qed.

Lemma second_run_skips_every_record_witness :
  let lines :=
    ["# exported log" +:+ nl; nl; Sample.qso +:+ nl; "garbage" +:+ nl;
     Sample.qso_reordered +:+ nl; Sample.qso_with_power +:+ nl]%string in
  let e := Sample.friendly lines in
  let run1 :=
    CloudlogPusher.push_file e Sample.pusher "log.adi" true Sample.empty_world in
  exists r2,
    CloudlogPusher.push_file e Sample.pusher "log.adi" true run1.2
    = (Ok r2, World (cache_file run1.2) (trace run1.2 ++ [EvOpen "log.adi"]))
    /\ CloudlogPusher.c_success r2 = 0%nat
    /\ CloudlogPusher.c_skipped r2 = 3%nat.
Proof.
  intros lines e run1.
  destruct (second_run_skips_every_record e e Sample.pusher "log.adi" lines
              Sample.empty_world (World None [EvOpen "log.adi"]) run1.2 run1.1)
    as (_ & Hagain).
  - vm_compute. reflexivity.
  - apply surjective_pairing.
  - intros before ep body after _. reflexivity.
  - destruct (Hagain (World (cache_file run1.2) (trace run1.2 ++ [EvOpen "log.adi"])))
      as (r2 & Hrun2 & Hsent & Hskipped); [reflexivity|].
    exists r2. split; [exact Hrun2|]. split; [exact Hsent|].
    rewrite Hskipped. vm_compute. reflexivity.
Defined.

(** * Further properties of the code *)

(** ** The pattern of [parse_line] *)

Section Tags.

Lemma span_append p a b :
  all_chars p a = true -> stops p b = true ->
  Regex.span p (a +:+ b) = (a, b).
Proof.
  intros Ha Hb. induction a as [|x a IH].
  - rewrite append_nil_l. destruct b as [|c b]; [done|]. simpl in *.
    by apply negb_true_iff in Hb as ->.
  - simpl in Ha. apply andb_prop in Ha as [Hx Ha].
    rewrite append_cons. simpl. by rewrite Hx, (IH Ha).
Qed.

Lemma span_spec p s a b :
  Regex.span p s = (a, b) ->
  s = a +:+ b /\ all_chars p a = true /\ stops p b = true.
Proof.
  revert a b. induction s as [|c s IH]; intros a b.
  - by intros [= <- <-].
  - simpl. destruct (p c) eqn:Hc.
    + destruct (Regex.span p s) as [a0 b0]. intros [= <- <-].
      destruct (IH a0 b0 eq_refl) as (-> & Ha & Hb).
      rewrite append_cons. simpl. by rewrite Hc, Ha.
    + intros [= <- <-]. simpl. by rewrite Hc.
Qed.

Lemma well_formed_tag_spec key len value :
  well_formed_tag key len value = true <->
  is_empty key = false /\ all_chars is_word key = true
  /\ is_empty len = false /\ all_chars is_digit len = true
  /\ all_chars Regex.not_lt value = true.
Proof.
  unfold well_formed_tag. rewrite !andb_true_iff, !negb_true_iff. tauto.
Qed.

Lemma at_tag_start_stops rest :
  at_tag_start rest = true -> stops Regex.not_lt rest = true.
Proof.
  destruct rest as [|c rest]; [done|]. simpl. unfold Regex.not_lt.
  intros ->. done.
Qed.

Lemma stops_at_tag_start rest :
  stops Regex.not_lt rest = true -> at_tag_start rest = true.
Proof.
  destruct rest as [|c rest]; [done|]. simpl. unfold Regex.not_lt.
  by rewrite negb_involutive.
Qed.

(** The pattern, anchored at a well-formed tag, matches that tag. *)
Lemma match_tag_tag_text key len value rest :
  well_formed_tag key len value = true -> at_tag_start rest = true ->
  Regex.match_tag (tag_text key len value +:+ rest)
  = Some (key, len, value,
          (3 + String.length key + String.length len + String.length value)%nat).
Proof.
  intros (Hk & Hkw & Hl & Hld & Hv)%well_formed_tag_spec Hrest.
  unfold tag_text. rewrite !append_assoc, !append_cons, !append_nil_l.
  unfold Regex.match_tag.
  rewrite (span_append is_word key) by done. rewrite Hk.
  rewrite (span_append is_digit len) by done. rewrite Hl.
  rewrite (span_append Regex.not_lt value) by auto using at_tag_start_stops.
  reflexivity.
Qed.

(** What the pattern matches is a well-formed tag at the start of the text,
    and the next tag, if any, starts right after it. *)
Lemma match_tag_spec s key len value n :
  Regex.match_tag s = Some (key, len, value, n) ->
  well_formed_tag key len value = true
  /\ n = (3 + String.length key + String.length len + String.length value)%nat
  /\ exists rest, s = tag_text key len value +:+ rest /\ at_tag_start rest = true.
Proof.
  unfold Regex.match_tag.
  destruct s as [|c s1]; [done|].
  destruct (Ascii.eqb c "<") eqn:Hc.
  2:{ destruct c as [[] [] [] [] [] [] [] []]; try done. }
  apply Ascii.eqb_eq in Hc as ->.
  destruct (Regex.span is_word s1) as [k s2] eqn:Hs1.
  apply span_spec in Hs1 as (-> & Hkw & _).
  destruct (is_empty k) eqn:Hk; [done|].
  destruct s2 as [|c2 s3]; [done|].
  destruct (Ascii.eqb c2 ":") eqn:Hc2.
  2:{ destruct c2 as [[] [] [] [] [] [] [] []]; try done. }
  apply Ascii.eqb_eq in Hc2 as ->.
  destruct (Regex.span is_digit s3) as [l s4] eqn:Hs3.
  apply span_spec in Hs3 as (-> & Hld & _).
  destruct (is_empty l) eqn:Hl; [done|].
  destruct s4 as [|c4 s5]; [done|].
  destruct (Ascii.eqb c4 ">") eqn:Hc4.
  2:{ destruct c4 as [[] [] [] [] [] [] [] []]; try done. }
  apply Ascii.eqb_eq in Hc4 as ->.
  destruct (Regex.span Regex.not_lt s5) as [v rest] eqn:Hs5.
  apply span_spec in Hs5 as (-> & Hv & Hrest).
  intros [= <- <- <- <-]. split; [|split; [done|]].
  - apply well_formed_tag_spec. by repeat split.
  - exists rest. split; [|by apply stops_at_tag_start].
    unfold tag_text. by rewrite !append_assoc, !append_cons, !append_nil_l.
Qed.

Lemma findall_from_skip a : forall n b,
  Regex.findall_from (String.length a + n) (a +:+ b) = Regex.findall_from n b.
Proof.
  induction a as [|x a IH]; intros n b; [done|].
  rewrite append_cons. simpl. apply IH.
Qed.

Lemma match_tag_not_lt c s : Regex.not_lt c = true -> Regex.match_tag (String c s) = None.
Proof.
  unfold Regex.not_lt. intros H%negb_true_iff.
  destruct c as [[] [] [] [] [] [] [] []]; try done.
Qed.

Lemma findall_from_no_lt pre s :
  all_chars Regex.not_lt pre = true ->
  Regex.findall_from 0 (pre +:+ s) = Regex.findall_from 0 s.
Proof.
  induction pre as [|c pre IH]; [done|]. cbn [all_chars].
  intros [Hc Hpre]%andb_prop.
  rewrite append_cons. cbn [Regex.findall_from].
  rewrite (match_tag_not_lt _ _ Hc). by apply IH.
Qed.

(** A well-formed tag followed by nothing or by a [<] is found as it
    stands, and the scan goes on after it. *)
Lemma findall_tags_tag_text key len value rest :
  well_formed_tag key len value = true -> at_tag_start rest = true ->
  Regex.findall_tags (tag_text key len value +:+ rest)
  = (key, len, value) :: Regex.findall_tags rest.
Proof.
  intros Hwf Hrest. unfold Regex.findall_tags.
  pose proof (match_tag_tag_text key len value rest Hwf Hrest) as Hm.
  unfold tag_text in *. rewrite !append_assoc, !append_cons, !append_nil_l in *.
  cbn [Regex.findall_from]. rewrite Hm. f_equal.
  replace (3 + String.length key + String.length len + String.length value - 1)%nat
    with (String.length (key +:+ ":" +:+ len +:+ ">" +:+ value) + 0)%nat.
  - rewrite <- (findall_from_skip (key +:+ ":" +:+ len +:+ ">" +:+ value) 0 rest).
    by rewrite !append_assoc, !append_cons, !append_nil_l.
  - rewrite !length_append. simpl. lia.
Qed.

(** Every tag found is well formed. *)
Lemma findall_from_well_formed s : forall n,
  Forall (fun m => well_formed_tag m.1.1 m.1.2 m.2 = true)
         (Regex.findall_from n s).
Proof.
  induction s as [|c s IH]; intros n; [by constructor|].
  cbn [Regex.findall_from]. destruct n as [|n]; [|apply IH].
  destruct (Regex.match_tag (String c s)) as [[[[k l] v] m]|] eqn:Hm; [|apply IH].
  constructor; [|apply IH]. by apply match_tag_spec in Hm as [? _].
Qed.

End Tags.

(** ** Scanning is compositional at tag boundaries *)

Section Scan.

Lemma span_append_tag_start p x t :
  p "<"%char = false -> at_tag_start t = true ->
  Regex.span p (x +:+ t) = ((Regex.span p x).1, (Regex.span p x).2 +:+ t).
Proof.
  intros Hp Ht. induction x as [|c x IH].
  - rewrite append_nil_l. destruct t as [|c t]; [done|]. simpl in *.
    apply Ascii.eqb_eq in Ht as ->. by rewrite Hp.
  - rewrite append_cons. simpl. destruct (p c); [|done].
    rewrite IH. by destruct (Regex.span p x).
Qed.

(** Anchored inside [a], the pattern sees the same whether [a] is followed
    by nothing or by a text that starts with [<]. *)
Lemma match_tag_append a t :
  a <> EmptyString -> at_tag_start t = true ->
  Regex.match_tag (a +:+ t) = Regex.match_tag a.
Proof.
  intros Ha Ht. destruct a as [|c s1]; [done|]. rewrite append_cons.
  unfold Regex.match_tag.
  destruct (Ascii.eqb c "<") eqn:Hc.
  2:{ destruct c as [[] [] [] [] [] [] [] []]; try done. }
  apply Ascii.eqb_eq in Hc as ->.
  rewrite (span_append_tag_start is_word s1 t) by done.
  destruct (Regex.span is_word s1) as [k s2]. cbn [fst snd].
  destruct (is_empty k); [done|].
  destruct s2 as [|c2 s3].
  { rewrite append_nil_l. destruct t as [|c t]; [done|]. simpl in Ht.
    apply Ascii.eqb_eq in Ht as ->. done. }
  rewrite append_cons.
  destruct (Ascii.eqb c2 ":") eqn:Hc2.
  2:{ destruct c2 as [[] [] [] [] [] [] [] []]; try done. }
  apply Ascii.eqb_eq in Hc2 as ->.
  rewrite (span_append_tag_start is_digit s3 t) by done.
  destruct (Regex.span is_digit s3) as [l s4]. cbn [fst snd].
  destruct (is_empty l); [done|].
  destruct s4 as [|c4 s5].
  { rewrite append_nil_l. destruct t as [|c t]; [done|]. simpl in Ht.
    apply Ascii.eqb_eq in Ht as ->. done. }
  rewrite append_cons.
  destruct (Ascii.eqb c4 ">") eqn:Hc4.
  2:{ destruct c4 as [[] [] [] [] [] [] [] []]; try done. }
  apply Ascii.eqb_eq in Hc4 as ->.
  rewrite (span_append_tag_start Regex.not_lt s5 t) by done.
  by destruct (Regex.span Regex.not_lt s5).
Qed.

Lemma match_tag_length s key len value n :
  Regex.match_tag s = Some (key, len, value, n) -> (1 <= n <= String.length s)%nat.
Proof.
  intros (_ & -> & rest & -> & _)%match_tag_spec.
  unfold tag_text. rewrite !length_append. simpl. lia.
Qed.

Lemma findall_from_append a : forall n t,
  at_tag_start t = true ->
  Regex.findall_from n (a +:+ t)
  = Regex.findall_from n a ++ Regex.findall_from (n - String.length a) t.
Proof.
  induction a as [a IH] using (induction_ltof1 _ String.length).
  intros n t Ht. destruct a as [|c a].
  { rewrite append_nil_l. simpl. by rewrite Nat.sub_0_r. }
  rewrite append_cons. cbn [Regex.findall_from]. destruct n as [|n].
  - rewrite <- append_cons, (match_tag_append (String c a) t) by done.
    destruct (Regex.match_tag (String c a)) as [[[[k l] v] m]|] eqn:Hm.
    + pose proof (match_tag_length _ _ _ _ _ Hm) as Hlen. simpl in Hlen.
      rewrite IH by (unfold ltof; simpl; lia || done).
      replace (m - 1 - String.length a)%nat with 0%nat by lia.
      reflexivity.
    + rewrite IH by (unfold ltof; simpl; lia || done). reflexivity.
  - rewrite IH by (unfold ltof; simpl; lia || done). reflexivity.
Qed.

(** The tags of a text followed by a text that starts with [<] are the
    tags of the first and then the tags of the second. *)
Lemma findall_tags_append a t :
  at_tag_start t = true ->
  Regex.findall_tags (a +:+ t) = Regex.findall_tags a ++ Regex.findall_tags t.
Proof. intros Ht. unfold Regex.findall_tags. by rewrite findall_from_append. Qed.

Lemma findall_tags_one key len value :
  well_formed_tag key len value = true ->
  Regex.findall_tags (tag_text key len value) = [(key, len, value)].
Proof.
  intros Hwf. rewrite <- (append_nil_r (tag_text key len value)).
  by rewrite findall_tags_tag_text.
Qed.

Lemma at_tag_start_tag_text key len value rest :
  at_tag_start (tag_text key len value +:+ rest) = true.
Proof. reflexivity. Qed.

(** A tag in the middle of a text. *)
Lemma findall_tags_middle before key len value rest :
  well_formed_tag key len value = true -> at_tag_start rest = true ->
  Regex.findall_tags (before +:+ tag_text key len value +:+ rest)
  = Regex.findall_tags before ++ (key, len, value) :: Regex.findall_tags rest.
Proof.
  intros Hwf Hrest.
  rewrite findall_tags_append by apply at_tag_start_tag_text.
  by rewrite findall_tags_tag_text.
Qed.

End Scan.

(** ** What [parse_line] makes of the tags *)

Section Record.

Lemma parse_line_tags line :
  parse_line line
  = if bool_decide (tags_record (Regex.findall_tags line) !! "call"%string = None)
       || bool_decide (tags_record (Regex.findall_tags line) !! "qso_date"%string = None)
       || bool_decide (tags_record (Regex.findall_tags line) !! "time_on"%string = None)
    then None else Some (tags_record (Regex.findall_tags line)).
Proof. unfold parse_line. by destruct (Regex.findall_tags line). Qed.

Lemma parse_line_same_tags a b :
  Regex.findall_tags a = Regex.findall_tags b -> parse_line a = parse_line b.
Proof. intros H. by rewrite !parse_line_tags, H. Qed.

Lemma calculate_hash_same_parse a b :
  parse_line a = parse_line b -> calculate_hash a = calculate_hash b.
Proof. intros H. unfold calculate_hash. by rewrite H. Qed.

End Record.

Section Fold.

Lemma tags_record_fold matches :
  tags_record matches = fold_left insert_tag matches ∅.
Proof. reflexivity. Qed.

Lemma insert_tag_lookup record m k :
  insert_tag record m !! k
  = if decide (tag_name m = k) then Some m.2 else record !! k.
Proof.
  destruct m as [[key len] value]. unfold insert_tag, tag_name. simpl.
  apply lookup_insert.
Qed.

Lemma fold_insert_tag_other l : forall acc k,
  Forall (fun m => tag_name m <> k) l ->
  fold_left insert_tag l acc !! k = acc !! k.
Proof.
  induction l as [|m l IH]; intros acc k Hall; [done|].
  inversion_clear Hall. simpl. rewrite IH by done.
  rewrite insert_tag_lookup. by case_decide.
Qed.

Lemma fold_insert_tag_last l1 m l2 acc :
  Forall (fun m' => tag_name m' <> tag_name m) l2 ->
  fold_left insert_tag (l1 ++ m :: l2) acc !! tag_name m = Some m.2.
Proof.
  intros Hall. rewrite fold_left_app. simpl.
  rewrite fold_insert_tag_other by done.
  rewrite insert_tag_lookup. by case_decide.
Qed.

Lemma fold_insert_tag_Some l : forall acc k v,
  fold_left insert_tag l acc !! k = Some v ->
  acc !! k = Some v \/ exists m, m ∈ l /\ tag_name m = k /\ m.2 = v.
Proof.
  induction l as [|m l IH]; intros acc k v; [by left|]. simpl.
  intros [H|(m' & Hin & Hk & Hv)]%IH.
  - rewrite insert_tag_lookup in H. case_decide.
    + injection H as <-. right. exists m. split; [by apply elem_of_cons; left|done].
    + by left.
  - right. exists m'. split; [by apply elem_of_cons; right|done].
Qed.

Lemma fold_insert_tag_is_Some l : forall acc k,
  is_Some (fold_left insert_tag l acc !! k) <->
  is_Some (acc !! k) \/ exists m, m ∈ l /\ tag_name m = k.
Proof.
  induction l as [|m l IH]; intros acc k.
  - simpl. split; [by left|]. intros [H|(m & Hin & _)]; [done|].
    by apply elem_of_nil in Hin.
  - simpl. rewrite IH, insert_tag_lookup. split.
    + intros [H|(m' & Hin & Hk)].
      * case_decide; [|by left]. right. exists m.
        split; [by apply elem_of_cons; left|done].
      * right. exists m'. split; [by apply elem_of_cons; right|done].
    + intros [H|(m' & [->|Hin]%elem_of_cons & Hk)].
      * left. by case_decide.
      * left. by rewrite decide_True.
      * right. by exists m'.
Qed.

Lemma lower_char_idemp c : lower_char (lower_char c) = lower_char c.
Proof. by destruct c as [[] [] [] [] [] [] [] []]. Qed.

Lemma lower_idemp s : lower (lower s) = lower s.
Proof. induction s as [|c s IH]; [done|]. simpl. by rewrite lower_char_idemp, IH. Qed.

Lemma parse_line_Some line record :
  parse_line line = Some record ->
  record = tags_record (Regex.findall_tags line)
  /\ is_Some (record !! "call"%string)
  /\ is_Some (record !! "qso_date"%string)
  /\ is_Some (record !! "time_on"%string).
Proof.
  rewrite parse_line_tags.
  set (r := tags_record (Regex.findall_tags line)).
  destruct (bool_decide (r !! "call"%string = None)) eqn:H1; [by simpl|].
  destruct (bool_decide (r !! "qso_date"%string = None)) eqn:H2; [by simpl|].
  destruct (bool_decide (r !! "time_on"%string = None)) eqn:H3; [by simpl|].
  simpl. intros [= <-].
  apply bool_decide_eq_false in H1, H2, H3.
  repeat split; by apply not_eq_None_Some.
Qed.

End Fold.

(** X1. Text before the first [<] of a line plays no part: the parsed
    record and the duplicate key are those of the line without it. *)
Theorem parse_line_skips_leading_text (pre line : string) :
  all_chars Regex.not_lt pre = true ->
  parse_line (pre +:+ line) = parse_line line
  /\ calculate_hash (pre +:+ line) = calculate_hash line.
Proof.
  intros Hpre.
  assert (H : parse_line (pre +:+ line) = parse_line line).
  { apply parse_line_same_tags. unfold Regex.findall_tags.
    by apply findall_from_no_lt. }
  split; [done|]. by apply calculate_hash_same_parse.
Qed.

Lemma parse_line_skips_leading_text_witness :
  calculate_hash ("2024-01-15 14:30 logged: " +:+ Sample.qso) = Sample.qso_key.
Proof.
  destruct (parse_line_skips_leading_text "2024-01-15 14:30 logged: " Sample.qso)
    as [_ ->]; [reflexivity|].
  vm_compute. reflexivity.
Defined.

(** X2. The length a tag declares is never read: with any other run of
    digits in its place the line parses to the same record and gets the
    same key. *)
Theorem declared_length_is_not_read
    (before key len len' value rest : string) :
  well_formed_tag key len value = true ->
  well_formed_tag key len' value = true ->
  at_tag_start rest = true ->
  parse_line (before +:+ tag_text key len value +:+ rest)
  = parse_line (before +:+ tag_text key len' value +:+ rest)
  /\ calculate_hash (before +:+ tag_text key len value +:+ rest)
     = calculate_hash (before +:+ tag_text key len' value +:+ rest).
Proof.
  intros Hwf Hwf' Hrest.
  assert (H : parse_line (before +:+ tag_text key len value +:+ rest)
              = parse_line (before +:+ tag_text key len' value +:+ rest)).
  { rewrite !parse_line_tags, !findall_tags_middle by done.
    by rewrite !tags_record_fold, !fold_left_app. }
  split; [done|]. by apply calculate_hash_same_parse.
Qed.

Lemma declared_length_is_not_read_witness :
  calculate_hash
    ("<QSO_DATE:8>20240115<TIME_ON:6>143000" +:+ tag_text "CALL" "5" "W1ABC"
     +:+ "<FREQ:8>14.07400<MODE:3>FT8<EOR>")
  = calculate_hash
      ("<QSO_DATE:8>20240115<TIME_ON:6>143000" +:+ tag_text "CALL" "0099" "W1ABC"
       +:+ "<FREQ:8>14.07400<MODE:3>FT8<EOR>").
Proof.
  apply (declared_length_is_not_read "<QSO_DATE:8>20240115<TIME_ON:6>143000"
           "CALL" "5" "0099" "W1ABC" "<FREQ:8>14.07400<MODE:3>FT8<EOR>");
    reflexivity.
Defined.

(** X3. Two neighbouring tags with different names (compared without
    case) can change places: the line parses to the same record and gets
    the same key. *)
Theorem neighbouring_tags_commute
    (before key1 len1 value1 key2 len2 value2 rest : string) :
  well_formed_tag key1 len1 value1 = true ->
  well_formed_tag key2 len2 value2 = true ->
  lower key1 <> lower key2 ->
  at_tag_start rest = true ->
  parse_line (before +:+ tag_text key1 len1 value1
              +:+ tag_text key2 len2 value2 +:+ rest)
  = parse_line (before +:+ tag_text key2 len2 value2
                +:+ tag_text key1 len1 value1 +:+ rest)
  /\ calculate_hash (before +:+ tag_text key1 len1 value1
                     +:+ tag_text key2 len2 value2 +:+ rest)
     = calculate_hash (before +:+ tag_text key2 len2 value2
                       +:+ tag_text key1 len1 value1 +:+ rest).
Proof.
  intros Hwf1 Hwf2 Hne Hrest.
  assert (H : parse_line (before +:+ tag_text key1 len1 value1
                          +:+ tag_text key2 len2 value2 +:+ rest)
              = parse_line (before +:+ tag_text key2 len2 value2
                            +:+ tag_text key1 len1 value1 +:+ rest)).
  { rewrite !parse_line_tags.
    rewrite !findall_tags_middle by (done || apply at_tag_start_tag_text).
    rewrite !findall_tags_tag_text by done.
    assert (Hrec : forall l,
               tags_record (l ++ (key1, len1, value1) :: (key2, len2, value2)
                              :: Regex.findall_tags rest)
               = tags_record (l ++ (key2, len2, value2) :: (key1, len1, value1)
                                :: Regex.findall_tags rest)).
    { intros l. rewrite !tags_record_fold, !fold_left_app. simpl.
      f_equal. by apply insert_insert_ne. }
    by rewrite Hrec. }
  split; [done|]. by apply calculate_hash_same_parse.
Qed.

Lemma neighbouring_tags_commute_witness :
  calculate_hash
    ("<QSO_DATE:8>20240115" +:+ tag_text "TIME_ON" "6" "143000"
     +:+ tag_text "call" "5" "W1ABC" +:+ "<EOR>")
  = calculate_hash
      ("<QSO_DATE:8>20240115" +:+ tag_text "call" "5" "W1ABC"
       +:+ tag_text "TIME_ON" "6" "143000" +:+ "<EOR>").
Proof.
  apply (neighbouring_tags_commute "<QSO_DATE:8>20240115"
           "TIME_ON" "6" "143000" "call" "5" "W1ABC" "<EOR>");
    try reflexivity.
  vm_compute. discriminate.
Defined.

(** X4. When a tag name occurs more than once (in any mix of cases), the
    record holds the value of the last occurrence. *)
Theorem last_occurrence_wins
    (before key len value rest : string) (record : gmap string string) :
  well_formed_tag key len value = true ->
  at_tag_start rest = true ->
  Forall (fun m => tag_name m <> lower key) (Regex.findall_tags rest) ->
  parse_line (before +:+ tag_text key len value +:+ rest) = Some record ->
  record !! lower key = Some value.
Proof.
  intros Hwf Hrest Hlater (-> & _)%parse_line_Some.
  rewrite findall_tags_middle, tags_record_fold by done.
  by apply (fold_insert_tag_last _ (key, len, value)).
Qed.

Lemma last_occurrence_wins_witness :
  exists record,
    parse_line ("<CALL:5>W1ABC<QSO_DATE:8>20240115<TIME_ON:6>143000"
                +:+ tag_text "Call" "5" "K9XYZ" +:+ "<EOR>") = Some record
    /\ record !! "call"%string = Some "K9XYZ"%string.
Proof.
  destruct (parse_line ("<CALL:5>W1ABC<QSO_DATE:8>20240115<TIME_ON:6>143000"
                        +:+ tag_text "Call" "5" "K9XYZ" +:+ "<EOR>"))
    as [record|] eqn:Hparse.
  2:{ apply (f_equal (from_option (fun _ => true) false)) in Hparse.
      vm_compute in Hparse. discriminate. }
  exists record. split; [done|].
  apply (last_occurrence_wins
           "<CALL:5>W1ABC<QSO_DATE:8>20240115<TIME_ON:6>143000"
           "Call" "5" "K9XYZ" "<EOR>" record); try reflexivity; [|done].
  vm_compute. constructor.
Defined.

(** X5. A line parses exactly when, among the names of its tags taken
    without case, there are call, qso_date and time_on. *)
Theorem parse_line_required_fields (line : string) :
  is_Some (parse_line line) <->
  forall k : string, k ∈ ["call"; "qso_date"; "time_on"]%string ->
    exists m, m ∈ Regex.findall_tags line /\ tag_name m = k.
Proof.
  assert (Hlook : forall k : string,
             is_Some (tags_record (Regex.findall_tags line) !! k) <->
             exists m, m ∈ Regex.findall_tags line /\ tag_name m = k).
  { intros k. rewrite tags_record_fold, fold_insert_tag_is_Some.
    rewrite lookup_empty. split; [|by right].
    intros [H|H]; [by destruct H|done]. }
  split.
  - intros [record (-> & Hc & Hd & Ht)%parse_line_Some] k Hk.
    apply Hlook. set_unfold in Hk.
    destruct Hk as [->|[->|[->|[]]]]; done.
  - intros Hall. rewrite parse_line_tags.
    assert (Hc : is_Some (tags_record (Regex.findall_tags line) !! "call"%string))
      by (apply Hlook, Hall; repeat constructor).
    assert (Hd : is_Some (tags_record (Regex.findall_tags line) !! "qso_date"%string))
      by (apply Hlook, Hall; repeat constructor).
    assert (Ht : is_Some (tags_record (Regex.findall_tags line) !! "time_on"%string))
      by (apply Hlook, Hall; repeat constructor).
    rewrite !bool_decide_eq_false_2 by (by apply not_eq_None_Some).
    by eexists.
Qed.

(** X6. In a parsed record every key is in lower case and comes from a tag
    of the line, every value is the text of such a tag and holds no [<],
    and call, qso_date and time_on are there. *)
Theorem parse_line_record_shape (line : string) (record : gmap string string) :
  parse_line line = Some record ->
  (forall k v, record !! k = Some v ->
     lower k = k
     /\ all_chars Regex.not_lt v = true
     /\ exists key len, (key, len, v) ∈ Regex.findall_tags line /\ lower key = k)
  /\ is_Some (record !! "call"%string)
  /\ is_Some (record !! "qso_date"%string)
  /\ is_Some (record !! "time_on"%string).
Proof.
  intros (-> & Hc & Hd & Ht)%parse_line_Some. split; [|done].
  intros k v Hkv. rewrite tags_record_fold in Hkv.
  apply fold_insert_tag_Some in Hkv as [Hkv|([[key len] v'] & Hin & Hk & Hv)];
    [by rewrite lookup_empty in Hkv|].
  unfold tag_name in Hk. simpl in *. subst k v'. split; [apply lower_idemp|].
  split; [|by exists key, len].
  pose proof (findall_from_well_formed line 0) as Hwf.
  rewrite Forall_forall in Hwf. specialize (Hwf _ Hin). simpl in Hwf.
  by apply well_formed_tag_spec in Hwf as (_ & _ & _ & _ & ?).
Qed.

Lemma parse_line_record_shape_witness :
  exists record,
    parse_line Sample.qso_reordered = Some record
    /\ is_Some (record !! "call"%string).
Proof.
  destruct (parse_line Sample.qso_reordered) as [record|] eqn:Hparse.
  2:{ apply (f_equal (from_option (fun _ => true) false)) in Hparse.
      vm_compute in Hparse. discriminate. }
  exists record. split; [done|].
  by destruct (parse_line_record_shape Sample.qso_reordered record Hparse)
    as (_ & ? & _).
Defined.

(** ** The shape of a duplicate key *)

Lemma hexdigit_is_hex b3 b2 b1 b0 :
  is_hex_digit (Sha256.hexdigit b3 b2 b1 b0) = true.
Proof. by destruct b3, b2, b1, b0. Qed.

Lemma all_hex_hex32 x rest :
  all_chars is_hex_digit (Sha256.hex32 x rest) = all_chars is_hex_digit rest.
Proof.
  unfold Sha256.hex32, Sha256.nibble. cbn [all_chars].
  by rewrite !hexdigit_is_hex.
Qed.

Lemma length_hex32 x rest :
  String.length (Sha256.hex32 x rest) = (8 + String.length rest)%nat.
Proof. reflexivity. Qed.

Lemma hexdigest_shape s :
  String.length (Sha256.hexdigest s) = 64%nat
  /\ all_chars is_hex_digit (Sha256.hexdigest s) = true.
Proof.
  unfold Sha256.hexdigest, Sha256.hex_of_state. split.
  - by rewrite !length_hex32.
  - by rewrite !all_hex_hex32.
Qed.

(** X7. The duplicate key of a line is the empty string when the line does
    not parse, and otherwise 64 lower-case hexadecimal digits. *)
Theorem calculate_hash_shape (line : string) :
  (parse_line line = None /\ calculate_hash line = EmptyString)
  \/ (is_Some (parse_line line)
      /\ String.length (calculate_hash line) = 64%nat
      /\ all_chars is_hex_digit (calculate_hash line) = true).
Proof.
  destruct (parse_line line) as [record|] eqn:Hparse.
  - right. split; [by eexists|].
    rewrite (calculate_hash_parsed _ _ Hparse). apply hexdigest_shape.
  - left. split; [done|]. by apply calculate_hash_unparsed.
Qed.

(** ** The upload client, case by case *)

Section PushRecord.
Variables (e : env) (self : CloudlogPusher.t).

Lemma push_record_parsed adif_line record w :
  parse_line adif_line = Some record ->
  CloudlogPusher.push_record e self adif_line w
  = match answer e self adif_line w with
    | Responded status_code text =>
        if accepted (Responded status_code text)
        then (Ok (true, None), requested self adif_line w)
        else (Ok (false,
                  Some (str_of_N status_code +:+ ": " +:+ slice_to 100 text)),
              requested self adif_line w)
    | RaisedRequestException str_e =>
        (Ok (false, Some str_e), requested self adif_line w)
    | RaisedOther str_e =>
        (Raise (OtherError str_e), requested self adif_line w)
    end.
Proof.
  intros Hparse. unfold CloudlogPusher.push_record.
  rewrite Hparse, (parse_line_not_falsy _ _ Hparse). cbv zeta.
  unfold CloudlogPusher.post, answer, requested, request_for.
  destruct (http_post _ _ _ _) as [code text|m|m];
    unfold bind, log, ret, raise; simpl; [|done..].
  by destruct (_ || _).
Qed.

End PushRecord.

Lemma slice_to_spec n : forall text,
  String.length (slice_to n text) = Nat.min n (String.length text)
  /\ exists rest, text = slice_to n text +:+ rest.
Proof.
  unfold slice_to. induction n as [|n IH]; intros text.
  - destruct text; simpl; (split; [done|]); by eexists.
  - destruct text as [|c text]; simpl; [split; [done|by exists EmptyString]|].
    destruct (IH text) as [Hlen [rest Hrest]]. split; [by rewrite Hlen|].
    exists rest. rewrite append_cons. by rewrite <- Hrest.
Qed.

(** X8. [push_record] sends at most one request and never touches the
    cache file. A line that does not parse is refused without a request; a
    line that parses costs exactly one request, which carries the line, and
    the call reports success exactly when the answer is 200 or 201. *)
Theorem push_record_one_request (e : env) (self : CloudlogPusher.t)
    (adif_line : string) (w : world) :
  let run := CloudlogPusher.push_record e self adif_line w in
  cache_file run.2 = cache_file w
  /\ (parse_line adif_line = None ->
      run = (Ok (false, Some "Invalid ADIF format"%string), w))
  /\ (is_Some (parse_line adif_line) ->
      trace run.2 = trace w ++ [request_for self adif_line]
      /\ (run.1 = Ok (true, None)
          <-> accepted (answer e self adif_line w) = true)).
Proof.
  intros run. unfold run. split; [|split].
  - by apply (push_record_cache e self adif_line w
                (CloudlogPusher.push_record e self adif_line w).1), surjective_pairing.
  - intros Hparse. by apply push_record_invalid.
  - intros [record Hparse]. rewrite (push_record_parsed _ _ _ _ _ Hparse).
    destruct (answer e self adif_line w) as [code text|m|m]; [|done..].
    destruct (accepted (Responded code text)); split; done.
Qed.

(** X9. When the server answers with another status than 200 or 201, the
    reason [push_record] gives is the status, a colon and a blank, and the
    start of the response text, cut after 100 characters. *)
Theorem push_record_reason_is_bounded (e : env) (self : CloudlogPusher.t)
    (adif_line : string) (w : world) (status_code : N) (text : string) :
  is_Some (parse_line adif_line) ->
  answer e self adif_line w = Responded status_code text ->
  status_code <> 200%N -> status_code <> 201%N ->
  exists shown rest,
    CloudlogPusher.push_record e self adif_line w
    = (Ok (false, Some (str_of_N status_code +:+ ": " +:+ shown)),
       requested self adif_line w)
    /\ text = shown +:+ rest
    /\ String.length shown = Nat.min 100 (String.length text).
Proof.
  intros [record Hparse] Hanswer H200 H201.
  rewrite (push_record_parsed _ _ _ _ _ Hparse), Hanswer. simpl.
  apply N.eqb_neq in H200, H201. rewrite H200, H201. simpl.
  destruct (slice_to_spec 100 text) as [Hlen [rest Hrest]].
  by exists (slice_to 100 text), rest.
Qed.

Lemma push_record_reason_is_bounded_witness :
  CloudlogPusher.push_record (Sample.failing []) Sample.pusher Sample.qso
    Sample.empty_world
  = (Ok (false, Some "500: Internal Server Error"%string),
     requested Sample.pusher Sample.qso Sample.empty_world).
Proof.
  destruct (push_record_reason_is_bounded (Sample.failing []) Sample.pusher
              Sample.qso Sample.empty_world 500 "Internal Server Error")
    as (shown & rest & Hrun & Htext & Hlen); [|reflexivity|done|done|].
  - apply (bool_decide_unpack _). vm_compute. exact I.
  - rewrite Hrun.
    assert (shown = "Internal Server Error"%string) as ->; [|reflexivity].
    destruct rest as [|c rest].
    + by rewrite append_nil_r in Htext.
    + apply (f_equal String.length) in Htext. rewrite length_append in Htext.
      simpl in Htext, Hlen. lia.
Defined.

(** ** The file ingestor, line by line *)

Section PushLine.
Variables (e : env) (self : CloudlogPusher.t) (uploaded_hashes : gset string).

(** All that the loop body can do with a line. *)
Lemma push_line_outcome st idx line w :
  let trimmed := strip line in
  let run := CloudlogPusher.push_line e self uploaded_hashes st (idx, line) w in
  (considered line = false /\ run = (Ok st, w))
  \/ (considered line = true /\ valid_record line = false
      /\ exists st', run = (Ok st', w)
         /\ CloudlogPusher.success st' = CloudlogPusher.success st
         /\ CloudlogPusher.failed st' = S (CloudlogPusher.failed st)
         /\ CloudlogPusher.skipped st' = CloudlogPusher.skipped st)
  \/ (valid_record line = true /\ (calculate_hash trimmed ∈ uploaded_hashes)
      /\ exists st', run = (Ok st', w)
         /\ CloudlogPusher.success st' = CloudlogPusher.success st
         /\ CloudlogPusher.failed st' = CloudlogPusher.failed st
         /\ CloudlogPusher.skipped st' = S (CloudlogPusher.skipped st))
  \/ (valid_record line = true /\ (calculate_hash trimmed ∉ uploaded_hashes)
      /\ accepted (answer e self trimmed w) = true
      /\ exists st', run = (Ok st',
                            (Config.save_uploaded_qso (calculate_hash trimmed)
                               (requested self trimmed w)).2)
         /\ CloudlogPusher.success st' = S (CloudlogPusher.success st)
         /\ CloudlogPusher.failed st' = CloudlogPusher.failed st
         /\ CloudlogPusher.skipped st' = CloudlogPusher.skipped st)
  \/ (valid_record line = true /\ (calculate_hash trimmed ∉ uploaded_hashes)
      /\ accepted (answer e self trimmed w) = false
      /\ ((exists st', run = (Ok st', requested self trimmed w)
           /\ CloudlogPusher.success st' = CloudlogPusher.success st
           /\ CloudlogPusher.failed st' = S (CloudlogPusher.failed st)
           /\ CloudlogPusher.skipped st' = CloudlogPusher.skipped st)
          \/ exists str_e, run = (Raise (OtherError str_e),
                                  requested self trimmed w))).
Proof.
  intros trimmed run. subst trimmed run.
  unfold CloudlogPusher.push_line, considered.
  destruct (is_empty (strip line)) eqn:He; cbn [orb andb negb];
    [left; by unfold ret|].
  destruct (startswith "#" (strip line)) eqn:Hc; cbn [orb andb negb];
    [left; by unfold ret|].
  right. destruct (parse_line (strip line)) as [record|] eqn:Hp.
  - assert (Hvalid : valid_record line = true)
      by (apply valid_record_parsed; eauto).
    pose proof (calculate_hash_clean _ _ Hp) as Hclean.
    rewrite (clean_not_empty _ Hclean). simpl. right.
    destruct (bool_decide _) eqn:Hin.
    + apply bool_decide_eq_true in Hin. left. unfold ret.
      split; [done|]. split; [done|]. by eexists.
    + apply bool_decide_eq_false in Hin. right.
      unfold bind, ret. rewrite (push_record_parsed _ _ _ _ _ Hp).
      destruct (answer e self (strip line) w) as [code text|m|m] eqn:Ho.
      * destruct (accepted (Responded code text)) eqn:Hacc; cbn [fst snd].
        -- left. repeat (split; [done|]).
           rewrite save_uploaded_qso_spec. cbn [fst snd]. by eexists.
        -- right. repeat (split; [done|]). left. by eexists.
      * right. repeat (split; [done|]). left. cbn [fst snd]. by eexists.
      * right. repeat (split; [done|]). right. by eexists.
  - left. split; [done|].
    assert (Hinvalid : valid_record line = false).
    { apply not_true_is_false. intros (_ & _ & r & ?)%valid_record_parsed. congruence. }
    split; [done|].
    rewrite (calculate_hash_unparsed _ Hp). simpl.
    unfold bind. rewrite (push_record_invalid _ _ _ _ Hp). simpl. unfold ret.
    by eexists.
Qed.

End PushLine.

Lemma posted_app tr1 tr2 : posted (tr1 ++ tr2) = posted tr1 ++ posted tr2.
Proof. apply omap_app. Qed.

Lemma posted_before_attempt filepath i : posted (before_attempt filepath i) = [].
Proof. induction i as [|i IH]; [done|]. by rewrite before_attempt_S, posted_app, IH. Qed.

Lemma read_file_posted e filepath w r w' :
  read_file e filepath w = (r, w') -> posted (trace w') = posted (trace w).
Proof.
  assert (Hgen : forall n,
             posted (trace w ++ before_attempt filepath n ++ [EvOpen filepath])
             = posted (trace w)).
  { intros n. rewrite !posted_app, posted_before_attempt. simpl.
    by rewrite app_nil_r. }
  unfold read_file.
  destruct (read_file_loop_spec e filepath 4 0 w eq_refl)
    as [(n & lines & _ & _ & _ & Hrun)
       |[(m & _ & _ & Hrun)|(n & m & _ & _ & _ & Hrun)]];
    unfold max_retries; rewrite Hrun; intros [= <- <-].
  - apply (Hgen n).
  - apply (Hgen 4%nat).
  - apply (Hgen n).
Qed.

Lemma loaded_requested self adif_line w :
  loaded (requested self adif_line w) = loaded w.
Proof. by apply loaded_cache_file. Qed.

Section Accounting.
Variables (e : env) (self : CloudlogPusher.t) (uploaded_hashes : gset string).

Let in_snapshot (line : string) : bool :=
  valid_record line && bool_decide (calculate_hash (strip line) ∈ uploaded_hashes).

Let unparsed (line : string) : bool :=
  considered line && negb (valid_record line).

Lemma valid_record_considered line :
  valid_record line = true -> considered line = true.
Proof.
  intros (He & Hc & _)%valid_record_parsed. unfold considered.
  by rewrite He, Hc.
Qed.

(** The loop of [push_file], whatever the server does: no clean key leaves
    the cache file; and when the loop ends normally every line looked at
    is counted once, the lines skipped are the valid ones whose key is in
    the snapshot, and every other valid line has cost one request. *)
Lemma for_each_account items : forall st w res wf,
  for_each (CloudlogPusher.push_line e self uploaded_hashes) items st w
  = (res, wf) ->
  (forall k : string, clean k = true -> k ∈ loaded w -> k ∈ loaded wf)
  /\ forall st', res = Ok st' ->
       total st' = (total st + length (List.filter considered items.*2))%nat
       /\ CloudlogPusher.skipped st'
          = (CloudlogPusher.skipped st
             + length (List.filter in_snapshot items.*2))%nat
       /\ (length (posted (trace wf)) + length (List.filter unparsed items.*2)
           + CloudlogPusher.success st + CloudlogPusher.failed st
           = length (posted (trace w))
             + CloudlogPusher.success st' + CloudlogPusher.failed st')%nat.
Proof.
  induction items as [|[idx line] items IH]; intros st w res wf.
  { intros [= <- <-]. split; [done|]. intros st' [= <-]. simpl.
    unfold total. repeat split; lia. }
  cbn [for_each]. unfold bind.
  rewrite fmap_cons. cbn [snd List.filter].
  unfold in_snapshot at 1, unparsed at 1.
  destruct (push_line_outcome e self uploaded_hashes st idx line w)
    as [(Hcons & Hrun)
       |[(Hcons & Hvalid & st1 & Hrun & Hs & Hf & Hk)
       |[(Hvalid & Hin & st1 & Hrun & Hs & Hf & Hk)
       |[(Hvalid & Hin & Hacc & st1 & Hrun & Hs & Hf & Hk)
       |(Hvalid & Hin & Hacc & [(st1 & Hrun & Hs & Hf & Hk)|(m & Hrun)])]]]];
    rewrite Hrun.
  - intros Hrest. destruct (IH _ _ _ _ Hrest) as [Hmono Hok].
    split; [done|]. intros st' ->. destruct (Hok st' eq_refl) as (Ht & Hsk & Hp).
    assert (valid_record line = false) as ->.
    { apply not_true_is_false. intros ?%valid_record_considered. congruence. }
    rewrite Hcons. simpl. by repeat split.
  - intros Hrest. destruct (IH _ _ _ _ Hrest) as [Hmono Hok].
    split; [done|]. intros st' ->. destruct (Hok st' eq_refl) as (Ht & Hsk & Hp).
    rewrite Hcons, Hvalid. simpl. unfold total in *. repeat split; lia.
  - intros Hrest. destruct (IH _ _ _ _ Hrest) as [Hmono Hok].
    split; [done|]. intros st' ->. destruct (Hok st' eq_refl) as (Ht & Hsk & Hp).
    rewrite (valid_record_considered _ Hvalid), Hvalid.
    rewrite bool_decide_eq_true_2 by done. simpl.
    unfold total in *. repeat split; lia.
  - intros Hrest. destruct (IH _ _ _ _ Hrest) as [Hmono Hok].
    pose proof Hvalid as (_ & _ & record & Hp)%valid_record_parsed.
    split.
    { intros k0 Hclean Hkin. apply Hmono; [done|].
      apply loaded_after_save;
        [by apply clean_one_line, (calculate_hash_clean _ _ Hp)|done|].
      apply elem_of_union. right.
      by rewrite loaded_requested. }
    intros st' ->. destruct (Hok st' eq_refl) as (Ht & Hsk & Hpost).
    rewrite (valid_record_considered _ Hvalid), Hvalid.
    rewrite bool_decide_eq_false_2 by done.
    rewrite save_uploaded_qso_spec in Hpost. simpl in Hpost.
    rewrite posted_app in Hpost. rewrite length_app in Hpost. simpl in *.
    unfold total in *. repeat split; lia.
  - intros Hrest. destruct (IH _ _ _ _ Hrest) as [Hmono Hok].
    split.
    { intros k0 Hclean Hkin. apply Hmono; [done|].
      by rewrite loaded_requested. }
    intros st' ->. destruct (Hok st' eq_refl) as (Ht & Hsk & Hpost).
    rewrite (valid_record_considered _ Hvalid), Hvalid.
    rewrite bool_decide_eq_false_2 by done.
    simpl in Hpost. rewrite posted_app in Hpost. rewrite length_app in Hpost.
    simpl in *. unfold total in *. repeat split; lia.
  - intros [= <- <-]. split; [|by intros st' [=]].
    intros k0 Hclean Hkin. by rewrite loaded_requested.
Qed.

End Accounting.

Lemma push_file_unfold e self filepath skip_duplicates w :
  CloudlogPusher.push_file e self filepath skip_duplicates w
  = match read_file e filepath w with
    | (Ok (Some lines), w') =>
        (do st <~ for_each
                    (CloudlogPusher.push_line e self
                       (if skip_duplicates then loaded w' else ∅))
                    (CloudlogPusher.enumerate1 lines)
                    (CloudlogPusher.Tally 0 0 0 []) ;
         ret (CloudlogPusher.Counts (CloudlogPusher.success st)
                (CloudlogPusher.failed st) (CloudlogPusher.skipped st))) w'
    | (Ok None, w') => (Raise (OtherError "TypeError"), w')
    | (Raise (IOError _), w') => (Ok (CloudlogPusher.Counts 0 0 0), w')
    | (Raise (OtherError str_e), w') => (Raise (OtherError str_e), w')
    end.
Proof.
  unfold CloudlogPusher.push_file, except_IOError.
  unfold bind at 1. unfold bind at 1.
  destruct (read_file e filepath w) as [[[lines|]|[m|m]] w']; try reflexivity.
  unfold ret at 1. unfold bind at 1.
  destruct skip_duplicates; [by rewrite load_uploaded_qsos_spec|reflexivity].
Qed.

(** X10. When [push_file] has read the file and ends normally, every line
    that is neither blank nor a comment is counted exactly once as sent,
    failed or skipped; the skipped lines are the valid records whose key
    was in the cache when the run began; and the requests sent are one per
    line counted as sent or failed, the lines that do not parse left
    aside. *)
Theorem push_file_accounts_for_every_line (e : env) (self : CloudlogPusher.t)
    (filepath : string) (lines : list string) (w0 w0' w1 : world)
    (c : CloudlogPusher.counts) :
  read_file e filepath w0 = (Ok (Some lines), w0') ->
  CloudlogPusher.push_file e self filepath true w0 = (Ok c, w1) ->
  (CloudlogPusher.c_success c + CloudlogPusher.c_failed c
   + CloudlogPusher.c_skipped c
   = length (List.filter considered lines))%nat
  /\ CloudlogPusher.c_skipped c
     = length (List.filter
                 (fun line => valid_record line
                              && bool_decide (calculate_hash (strip line) ∈ loaded w0))
                 lines)
  /\ (length (posted (trace w1))
      + length (List.filter (fun line => considered line && negb (valid_record line))
                  lines)
      = length (posted (trace w0))
        + CloudlogPusher.c_success c + CloudlogPusher.c_failed c)%nat.
Proof.
  intros Hread. rewrite push_file_unfold, Hread. unfold bind.
  destruct (for_each _ _ _ w0') as [[st|ex] wf] eqn:Hloop; [|done].
  unfold ret. intros [= <- <-].
  destruct (for_each_account _ _ _ _ _ _ _ _ Hloop) as [_ Hok].
  destruct (Hok st eq_refl) as (Ht & Hsk & Hp).
  rewrite enumerate1_lines in *.
  rewrite (loaded_cache_file _ _ (read_file_cache _ _ _ _ _ Hread)) in Hsk.
  rewrite (read_file_posted _ _ _ _ _ Hread) in Hp.
  unfold total in Ht. simpl in *. repeat split; [lia|done|lia].
Qed.

Lemma push_file_accounts_for_every_line_witness :
  let lines :=
    ["# exported log" +:+ nl; nl; Sample.qso +:+ nl; "garbage" +:+ nl;
     Sample.qso_with_power +:+ nl]%string in
  let run :=
    CloudlogPusher.push_file (Sample.failing lines) Sample.pusher "log.adi" true
      (World (Some (Text Sample.qso_key)) []) in
  run.1 = Ok (CloudlogPusher.Counts 0 2 1)
  /\ length (posted (trace run.2)) = 1%nat.
Proof.
  intros lines run.
  assert (Hres : run.1 = Ok (CloudlogPusher.Counts 0 2 1))
    by (vm_compute; reflexivity).
  assert (Hrun : run = (Ok (CloudlogPusher.Counts 0 2 1), run.2))
    by (rewrite <- Hres; apply surjective_pairing).
  split; [exact Hres|].
  destruct (push_file_accounts_for_every_line (Sample.failing lines) Sample.pusher
              "log.adi" lines (World (Some (Text Sample.qso_key)) [])
              (World (Some (Text Sample.qso_key)) [EvOpen "log.adi"]) run.2
              (CloudlogPusher.Counts 0 2 1)) as (_ & _ & Hposts).
  - vm_compute. reflexivity.
  - exact Hrun.
  - cbn [CloudlogPusher.c_success CloudlogPusher.c_failed] in Hposts.
    replace (length (List.filter
                       (fun line => considered line && negb (valid_record line))
                       lines)) with 1%nat in Hposts by (vm_compute; reflexivity).
    change (length (posted (trace (World (Some (Text Sample.qso_key)) [])))) with 0%nat
      in Hposts.
    lia.
Defined.

(** X11. With [skip_duplicates] off [push_file] consults no cache: when it
    has read the file and ends normally nothing is skipped, and every valid
    record has cost one request, whatever the cache file holds. *)
Theorem push_file_without_skipping (e : env) (self : CloudlogPusher.t)
    (filepath : string) (lines : list string) (w0 w0' w1 : world)
    (c : CloudlogPusher.counts) :
  read_file e filepath w0 = (Ok (Some lines), w0') ->
  CloudlogPusher.push_file e self filepath false w0 = (Ok c, w1) ->
  CloudlogPusher.c_skipped c = 0%nat
  /\ length (posted (trace w1))
     = (length (posted (trace w0)) + length (List.filter valid_record lines))%nat.
Proof.
  intros Hread. rewrite push_file_unfold, Hread. unfold bind.
  destruct (for_each _ _ _ w0') as [[st|ex] wf] eqn:Hloop; [|done].
  unfold ret. intros [= <- <-].
  destruct (for_each_account _ _ _ _ _ _ _ _ Hloop) as [_ Hok].
  destruct (Hok st eq_refl) as (Ht & Hsk & Hp).
  rewrite enumerate1_lines in *.
  rewrite (read_file_posted _ _ _ _ _ Hread) in Hp.
  assert (Hnone : length (List.filter
                     (fun line => valid_record line
                        && bool_decide (calculate_hash (strip line) ∈ (∅ : gset string)))
                     lines) = 0%nat).
  { clear. induction lines as [|l lines IH]; [done|]. cbn [List.filter].
    rewrite bool_decide_eq_false_2 by apply not_elem_of_empty.
    by rewrite andb_false_r. }
  assert (Hsplit : (length (List.filter considered lines)
                    = length (List.filter valid_record lines)
                      + length (List.filter
                                  (fun line => considered line && negb (valid_record line))
                                  lines))%nat).
  { clear. induction lines as [|l lines IH]; [done|]. cbn [List.filter].
    destruct (valid_record l) eqn:Hv.
    - rewrite (valid_record_considered _ Hv). cbn [negb andb length]. lia.
    - destruct (considered l); cbn [negb andb length]; lia. }
  assert (Hsk' : CloudlogPusher.skipped st
                 = (0 + length (List.filter
                      (fun line => valid_record line
                         && bool_decide (calculate_hash (strip line) ∈ (∅ : gset string)))
                      lines))%nat) by exact Hsk.
  rewrite Hnone in Hsk'.
  unfold total in Ht. cbn [CloudlogPusher.success CloudlogPusher.failed
    CloudlogPusher.skipped CloudlogPusher.c_skipped] in *.
  split; lia.
Qed.

Lemma push_file_without_skipping_witness :
  let lines := [Sample.qso +:+ nl; "garbage" +:+ nl]%string in
  let run :=
    CloudlogPusher.push_file (Sample.friendly lines) Sample.pusher "log.adi" false
      (World (Some (Text Sample.qso_key)) []) in
  run.1 = Ok (CloudlogPusher.Counts 1 1 0)
  /\ length (posted (trace run.2)) = 1%nat.
Proof.
  intros lines run.
  assert (Hres : run.1 = Ok (CloudlogPusher.Counts 1 1 0))
    by (vm_compute; reflexivity).
  assert (Hrun : run = (Ok (CloudlogPusher.Counts 1 1 0), run.2))
    by (rewrite <- Hres; apply surjective_pairing).
  split; [exact Hres|].
  destruct (push_file_without_skipping (Sample.friendly lines) Sample.pusher
              "log.adi" lines (World (Some (Text Sample.qso_key)) [])
              (World (Some (Text Sample.qso_key)) [EvOpen "log.adi"]) run.2
              (CloudlogPusher.Counts 1 1 0)) as (_ & Hposts).
  - vm_compute. reflexivity.
  - exact Hrun.
  - rewrite Hposts. vm_compute. reflexivity.
Defined.

(** X12. Whatever the file, the server and the way the run ends,
    [push_file] removes no duplicate key from the cache: a clean key that a
    load returned before the run is returned by a load after it. *)
Theorem push_file_keeps_keys (e : env) (self : CloudlogPusher.t)
    (filepath : string) (skip_duplicates : bool) (w : world) (k : string) :
  clean k = true ->
  k ∈ loaded w ->
  k ∈ loaded (CloudlogPusher.push_file e self filepath skip_duplicates w).2.
Proof.
  intros Hk Hin. rewrite push_file_unfold.
  destruct (read_file e filepath w) as [r w'] eqn:Hread.
  pose proof (loaded_cache_file _ _ (read_file_cache _ _ _ _ _ Hread)) as Hl.
  rewrite <- Hl in Hin.
  destruct r as [[lines|]|[m|m]]; try done.
  unfold bind.
  destruct (for_each _ _ _ w') as [res wf] eqn:Hloop.
  destruct (for_each_account _ _ _ _ _ _ _ _ Hloop) as [Hmono _].
  destruct res; simpl; by apply Hmono.
Qed.

Lemma push_file_keeps_keys_witness :
  Sample.qso_key ∈
    loaded (CloudlogPusher.push_file (Sample.friendly [Sample.qso_with_power])
              Sample.pusher "log.adi" true (World (Some (Text Sample.qso_key)) [])).2.
Proof.
  apply push_file_keeps_keys; [vm_compute; reflexivity|].
  apply elem_of_list_to_set, list_elem_of_In. vm_compute. left. reflexivity.
Defined.

(** ** The live listener, case by case *)

Section Listener.
Variables (e : env) (p : CloudlogPusher.t) (working_set : gset string).

(** All that the handler can do with a datagram. *)
Lemma parse_message_outcome text_data w :
  let self := WsjtxListener.Listener p working_set in
  let run := WsjtxListener._parse_message e self text_data w in
  (no_record text_data /\ run = (self, w))
  \/ exists adif_line record,
       Regex.search_record text_data = Some adif_line
       /\ parse_line adif_line = Some record
       /\ ((calculate_hash adif_line ∈ working_set /\ run = (self, w))
           \/ ((calculate_hash adif_line ∉ working_set)
               /\ accepted (answer e p adif_line w) = true
               /\ run = (WsjtxListener.Listener p
                           ({[ calculate_hash adif_line ]} ∪ working_set),
                         (Config.save_uploaded_qso (calculate_hash adif_line)
                            (requested p adif_line w)).2))
           \/ ((calculate_hash adif_line ∉ working_set)
               /\ accepted (answer e p adif_line w) = false
               /\ run = (self, requested p adif_line w))).
Proof.
  intros self run. subst self run.
  unfold WsjtxListener._parse_message, WsjtxListener.parse_message_try.
  cbn [WsjtxListener.last_uploaded_qsos WsjtxListener.pusher].
  destruct (contains "<QSO_DATE:" text_data) eqn:Hd; cbn [negb orb].
  2:{ left. split; [by left|done]. }
  destruct (contains "<CALL:" text_data) eqn:Hc; cbn [negb orb].
  2:{ left. split; [right; by left|done]. }
  destruct (Regex.search_record text_data) as [adif_line|] eqn:Hs.
  2:{ left. split; [right; right; by left|done]. }
  destruct (parse_line adif_line) as [record|] eqn:Hp.
  2:{ left. split; [right; right; right; by exists adif_line|].
      by destruct (bool_decide _). }
  right. exists adif_line, record. split; [done|]. split; [done|].
  destruct (bool_decide _) eqn:Hin.
  { apply bool_decide_eq_true in Hin. by left. }
  apply bool_decide_eq_false in Hin. right.
  rewrite (parse_line_not_falsy _ _ Hp).
  pose proof (calculate_hash_clean _ _ Hp) as Hclean.
  unfold bind, ret. rewrite (push_record_parsed _ _ _ _ _ Hp).
  destruct (answer e p adif_line w) as [code text|m|m] eqn:Ho.
  - destruct (accepted (Responded code text)) eqn:Hacc; cbn [fst snd].
    + left. split; [done|]. split; [done|].
      rewrite (clean_not_empty _ Hclean). cbn [negb].
      by rewrite save_uploaded_qso_spec.
    + by right.
  - by right.
  - by right.
Qed.

End Listener.

Lemma parse_message_known e p working_set text_data adif_line w :
  Regex.search_record text_data = Some adif_line ->
  calculate_hash adif_line ∈ working_set ->
  WsjtxListener._parse_message e (WsjtxListener.Listener p working_set)
    text_data w
  = (WsjtxListener.Listener p working_set, w).
Proof.
  intros Hs Hin.
  destruct (parse_message_outcome e p working_set text_data w)
    as [[_ Hrun]|(l & record & Hs' & Hp & [[_ Hrun]|[(Hnin & _)|(Hnin & _)]])];
    try done; rewrite Hs in Hs'; injection Hs' as <-; by destruct Hnin.
Qed.

(** X13. A datagram whose record has its key in the listener's working set
    is dropped: no request, no change, whatever the server would answer. *)
Theorem listener_drops_known_record (e : env) (self : WsjtxListener.t)
    (text_data adif_line : string) (w : world) :
  Regex.search_record text_data = Some adif_line ->
  calculate_hash adif_line ∈ WsjtxListener.last_uploaded_qsos self ->
  WsjtxListener._parse_message e self text_data w = (self, w).
Proof. destruct self as [p working_set]. apply parse_message_known. Qed.

Lemma listener_drops_known_record_witness :
  WsjtxListener._parse_message (Sample.friendly [])
    (WsjtxListener.Listener Sample.pusher {[ Sample.qso_key ]})
    ("noise" +:+ Sample.qso) Sample.empty_world
  = (WsjtxListener.Listener Sample.pusher {[ Sample.qso_key ]}, Sample.empty_world).
Proof.
  apply (listener_drops_known_record _ _ _ Sample.qso).
  - vm_compute. reflexivity.
  - simpl. replace (calculate_hash Sample.qso) with Sample.qso_key
      by (vm_compute; reflexivity).
    by apply elem_of_singleton.
Defined.

Lemma strip_prefix_spec pre : forall s s1,
  Regex.strip_prefix pre s = Some s1 ->
  String.prefix pre s = true /\ s = pre +:+ s1.
Proof.
  induction pre as [|a pre IH]; intros s s1.
  - simpl. destruct s; by intros [= <-].
  - destruct s as [|b s]; [done|]. simpl.
    destruct (Ascii.eqb a b) eqn:Hab; [|done].
    apply Ascii.eqb_eq in Hab as ->. intros [Hp ->]%IH.
    by destruct (ascii_dec b b).
Qed.

Lemma match_record_prefix s m :
  Regex.match_record s = Some m -> String.prefix "<QSO_DATE:" s = true.
Proof.
  unfold Regex.match_record.
  destruct (Regex.strip_prefix "<QSO_DATE:" s) as [s1|] eqn:Hpre; [|done].
  intros _. by apply strip_prefix_spec in Hpre as [? _].
Qed.

Lemma search_record_contains text_data adif_line :
  Regex.search_record text_data = Some adif_line ->
  contains "<QSO_DATE:" text_data = true.
Proof.
  induction text_data as [|c t IH].
  - simpl. destruct (Regex.match_record EmptyString) eqn:Hm; [|done].
    by apply match_record_prefix in Hm.
  - cbn [Regex.search_record contains].
    destruct (Regex.match_record (String c t)) as [m|] eqn:Hm.
    + intros _. by rewrite (match_record_prefix _ _ Hm).
    + intros Hs. rewrite (IH Hs). apply orb_true_r.
Qed.

(** The handler on a datagram that holds both tags and a record that
    parses. *)
Lemma parse_message_found e p working_set text_data adif_line w :
  contains "<CALL:" text_data = true ->
  Regex.search_record text_data = Some adif_line ->
  is_Some (parse_line adif_line) ->
  let self := WsjtxListener.Listener p working_set in
  let run := WsjtxListener._parse_message e self text_data w in
  (calculate_hash adif_line ∈ working_set /\ run = (self, w))
  \/ ((calculate_hash adif_line ∉ working_set)
      /\ accepted (answer e p adif_line w) = true
      /\ run = (WsjtxListener.Listener p
                  ({[ calculate_hash adif_line ]} ∪ working_set),
                (Config.save_uploaded_qso (calculate_hash adif_line)
                   (requested p adif_line w)).2))
  \/ ((calculate_hash adif_line ∉ working_set)
      /\ accepted (answer e p adif_line w) = false
      /\ run = (self, requested p adif_line w)).
Proof.
  intros Hcall Hs [record Hp] self run.
  destruct (parse_message_outcome e p working_set text_data w)
    as [[Hno _]|(l & record' & Hs' & _ & Hcases)].
  - exfalso. destruct Hno as [H|[H|[H|(l & H & Hnone)]]].
    + apply search_record_contains in Hs. congruence.
    + congruence.
    + congruence.
    + rewrite Hs in H. injection H as <-. congruence.
  - rewrite Hs in Hs'. by injection Hs' as <-.
Qed.

(** X14. A record the listener uploads is uploaded once: when the server
    accepts the request, the key is added to the working set and to the
    cache file, one request is recorded, and the same datagram arriving
    again changes nothing and sends nothing, whatever the server would
    answer then. *)
Theorem listener_uploads_a_record_once (e e' : env) (self : WsjtxListener.t)
    (text_data adif_line : string) (w : world) :
  contains "<CALL:" text_data = true ->
  Regex.search_record text_data = Some adif_line ->
  is_Some (parse_line adif_line) ->
  calculate_hash adif_line ∉ WsjtxListener.last_uploaded_qsos self ->
  accepted (answer e (WsjtxListener.pusher self) adif_line w) = true ->
  let run := WsjtxListener._parse_message e self text_data w in
  WsjtxListener.last_uploaded_qsos run.1
  = {[ calculate_hash adif_line ]} ∪ WsjtxListener.last_uploaded_qsos self
  /\ calculate_hash adif_line ∈ loaded run.2
  /\ trace run.2 = trace w ++ [request_for (WsjtxListener.pusher self) adif_line]
  /\ WsjtxListener._parse_message e' run.1 text_data run.2 = run.
Proof.
  intros Hcall Hs Hp Hnin Hacc run. destruct self as [p working_set].
  cbn [WsjtxListener.last_uploaded_qsos WsjtxListener.pusher] in *.
  destruct (parse_message_found e p working_set text_data adif_line w Hcall Hs Hp)
    as [[Hin _]|[(_ & _ & Hrun)|(_ & Hnacc & _)]]; [done| |congruence].
  fold run in Hrun. rewrite Hrun.
  cbn [fst snd WsjtxListener.last_uploaded_qsos].
  destruct Hp as [record Hp].
  pose proof (calculate_hash_clean _ _ Hp) as Hclean.
  split; [done|]. split; [|split].
  - apply loaded_after_save; [by apply clean_one_line|done|].
    apply elem_of_union. left. by apply elem_of_singleton.
  - by rewrite save_uploaded_qso_spec.
  - destruct (parse_message_found e' p
                ({[ calculate_hash adif_line ]} ∪ working_set) text_data adif_line
                (Config.save_uploaded_qso (calculate_hash adif_line)
                   (requested p adif_line w)).2 Hcall Hs (ex_intro _ record Hp))
      as [[_ Hrun2]|[(Hout & _)|(Hout & _)]]; [done| |];
      exfalso; apply Hout, elem_of_union; left; by apply elem_of_singleton.
Qed.

Lemma listener_uploads_a_record_once_witness :
  let self := WsjtxListener.Listener Sample.pusher ∅ in
  let run :=
    WsjtxListener._parse_message (Sample.friendly []) self
      ("noise" +:+ Sample.qso) Sample.empty_world in
  WsjtxListener._parse_message (Sample.failing []) run.1
    ("noise" +:+ Sample.qso) run.2 = run.
Proof.
  intros self run.
  refine (proj2 (proj2 (proj2
    (listener_uploads_a_record_once (Sample.friendly []) (Sample.failing [])
       self ("noise" +:+ Sample.qso) Sample.qso Sample.empty_world _ _ _ _ _)))).
  - vm_compute. reflexivity.
  - vm_compute. reflexivity.
  - apply (bool_decide_unpack _). vm_compute. exact I.
  - apply not_elem_of_empty.
  - reflexivity.
Defined.


(** ** The two ingestion paths share the cache *)

Lemma push_file_accepted_keys e self filepath lines w0 w0' r1 w1 :
  read_file e filepath w0 = (Ok (Some lines), w0') ->
  CloudlogPusher.push_file e self filepath true w0 = (r1, w1) ->
  sends_accepted e w0 w1 ->
  forall line, line ∈ lines -> valid_record line = true ->
    calculate_hash (strip line) ∈ loaded w1.
Proof.
  intros Hread Hrun Hsent line Hin Hvalid.
  rewrite (push_file_read _ _ _ _ _ _ Hread) in Hrun. unfold bind in Hrun.
  destruct (for_each _ _ _ w0') as [res wf] eqn:Hloop.
  destruct (read_file_trace _ _ _ _ _ Hread) as (ext0 & Hext0).
  assert (Hwf : wf = w1) by (destruct res; unfold ret in Hrun; congruence).
  subst wf.
  destruct (for_each_accepted e self (loaded w0') _ _ _ _ _ Hloop
              (sends_accepted_later _ _ _ _ _ Hext0 Hsent))
    as (_ & Hmono & Hkeys).
  rewrite enumerate1_lines in Hkeys.
  destruct (Hkeys line Hin Hvalid) as [Hsnap|Hfile]; [|done].
  pose proof Hvalid as (_ & _ & record & Hp)%valid_record_parsed.
  apply Hmono; [by apply (calculate_hash_clean _ _ Hp)|done].
Qed.

(** X16. What the file ingestor has sent, the listener does not send
    again: after a run of [push_file] whose requests were all accepted, a
    listener started on the resulting cache drops every datagram whose
    record has the key of a valid line of the file. *)
Theorem listener_skips_what_the_file_sent (e1 e2 : env)
    (self : CloudlogPusher.t) (filepath : string) (lines : list string)
    (w0 w0' w1 : world) (r1 : result CloudlogPusher.counts)
    (line text_data adif_line : string) :
  read_file e1 filepath w0 = (Ok (Some lines), w0') ->
  CloudlogPusher.push_file e1 self filepath true w0 = (r1, w1) ->
  sends_accepted e1 w0 w1 ->
  line ∈ lines -> valid_record line = true ->
  Regex.search_record text_data = Some adif_line ->
  calculate_hash adif_line = calculate_hash (strip line) ->
  exists listener,
    WsjtxListener.init self w1 = (Ok listener, w1)
    /\ WsjtxListener._parse_message e2 listener text_data w1 = (listener, w1).
Proof.
  intros Hread Hrun Hsent Hin Hvalid Hs Hkey.
  exists (WsjtxListener.Listener self (loaded w1)). split.
  - unfold WsjtxListener.init, bind. by rewrite load_uploaded_qsos_spec.
  - apply (parse_message_known _ _ _ _ adif_line); [done|]. rewrite Hkey.
    by apply (push_file_accepted_keys e1 self filepath lines w0 w0' r1 w1).
Qed.

Lemma listener_skips_what_the_file_sent_witness :
  let lines := [Sample.qso_reordered +:+ nl]%string in
  let run :=
    CloudlogPusher.push_file (Sample.friendly lines) Sample.pusher "log.adi" true
      Sample.empty_world in
  exists listener,
    WsjtxListener.init Sample.pusher run.2 = (Ok listener, run.2)
    /\ WsjtxListener._parse_message (Sample.friendly lines) listener
         ("datagram " +:+ Sample.qso) run.2 = (listener, run.2).
Proof.
  intros lines run.
  apply (listener_skips_what_the_file_sent (Sample.friendly lines)
           (Sample.friendly lines) Sample.pusher "log.adi" lines
           Sample.empty_world (World None [EvOpen "log.adi"]) run.2 run.1
           (Sample.qso_reordered +:+ nl) ("datagram " +:+ Sample.qso) Sample.qso).
  - vm_compute. reflexivity.
  - apply surjective_pairing.
  - intros before ep body after _. reflexivity.
  - by apply list_elem_of_singleton.
  - vm_compute. reflexivity.
  - vm_compute. reflexivity.
  - vm_compute. reflexivity.
Defined.

(** ** The record pattern of the listener *)

Lemma prefix_append pre : forall s,
  String.prefix pre s = true -> exists rest, s = pre +:+ rest.
Proof.
  induction pre as [|a pre IH]; intros s; [by exists s|].
  destruct s as [|b s]; [done|]. simpl.
  destruct (ascii_dec a b) as [->|]; [|done].
  intros [rest ->]%IH. by exists rest.
Qed.

Lemma lazy_to_eor_spec s : forall t,
  Regex.lazy_to_eor s = Some t ->
  exists body rest,
    t = body +:+ "<EOR>" /\ s = t +:+ rest /\ no_newline body = true.
Proof.
  induction s as [|c s IH]; intros t.
  - cbn. done.
  - cbn [Regex.lazy_to_eor].
    destruct (String.prefix "<EOR>" (String c s)) eqn:Hpre.
    + intros [= <-]. apply prefix_append in Hpre as [rest Hrest].
      by exists EmptyString, rest.
    + destruct (Ascii.eqb c "010") eqn:Hc; [done|].
      destruct (Regex.lazy_to_eor s) as [t'|] eqn:Ht; [|done].
      intros [= <-]. destruct (IH t' eq_refl) as (body & rest & -> & -> & Hbody).
      exists (String c body), rest. rewrite !append_cons. repeat split.
      unfold no_newline in *. simpl. by rewrite Hc.
Qed.

Lemma match_record_spec s m :
  Regex.match_record s = Some m ->
  exists d1 d2 body rest,
    m = "<QSO_DATE:" +:+ d1 +:+ ">" +:+ d2 +:+ body +:+ "<EOR>"
    /\ s = m +:+ rest
    /\ is_empty d1 = false /\ all_chars is_digit d1 = true
    /\ is_empty d2 = false /\ all_chars is_digit d2 = true
    /\ no_newline body = true.
Proof.
  unfold Regex.match_record.
  destruct (Regex.strip_prefix "<QSO_DATE:" s) as [s1|] eqn:Hpre; [|done].
  apply strip_prefix_spec in Hpre as [_ ->].
  destruct (Regex.span is_digit s1) as [d1 s2] eqn:Hs1.
  apply span_spec in Hs1 as (-> & Hd1 & _).
  destruct (is_empty d1) eqn:He1; [done|].
  destruct s2 as [|c s3]; [done|].
  destruct (Ascii.eqb c ">") eqn:Hc.
  2:{ destruct c as [[] [] [] [] [] [] [] []]; try done. }
  apply Ascii.eqb_eq in Hc as ->.
  destruct (Regex.span is_digit s3) as [d2 s4] eqn:Hs3.
  apply span_spec in Hs3 as (-> & Hd2 & _).
  destruct (is_empty d2) eqn:He2; [done|].
  destruct (Regex.lazy_to_eor s4) as [t|] eqn:Ht; [|done].
  apply lazy_to_eor_spec in Ht as (body & rest & -> & -> & Hbody).
  intros [= <-]. exists d1, d2, body, rest.
  split; [done|]. split; [|done].
  by rewrite !append_assoc, !append_cons, !append_nil_l.
Qed.

Section RecordPattern.

Lemma prefix_refl_append p rest : String.prefix p (p +:+ rest) = true.
Proof.
  induction p as [|a p IH]; [by destruct rest|]. rewrite append_cons. simpl.
  by destruct (ascii_dec a a).
Qed.

Lemma lazy_to_eor_complete body : forall rest,
  no_newline body = true ->
  exists b,
    Regex.lazy_to_eor (body +:+ "<EOR>" +:+ rest) = Some (b +:+ "<EOR>")
    /\ (String.length b <= String.length body)%nat.
Proof.
  induction body as [|c body IH]; intros rest Hbody.
  - exists EmptyString. rewrite append_nil_l. split; [|done].
    destruct rest; reflexivity.
  - unfold no_newline in Hbody. simpl in Hbody.
    apply andb_prop in Hbody as [Hc Hbody]. apply negb_true_iff in Hc.
    rewrite append_cons. cbn [Regex.lazy_to_eor].
    destruct (String.prefix "<EOR>" (String c (body +:+ "<EOR>" +:+ rest))).
    + exists EmptyString. split; [done|simpl; lia].
    + rewrite Hc. destruct (IH rest Hbody) as (b & -> & Hlen).
      exists (String c b). split; [done|]. simpl. lia.
Qed.

Lemma span_all_prefix p a b :
  all_chars p a = true ->
  Regex.span p (a +:+ b) = (a +:+ (Regex.span p b).1, (Regex.span p b).2).
Proof.
  intros Ha. induction a as [|x a IH].
  - rewrite !append_nil_l. by destruct (Regex.span p b).
  - simpl in Ha. apply andb_prop in Ha as [Hx Ha].
    rewrite !append_cons. simpl. by rewrite Hx, (IH Ha).
Qed.

(** Whatever the pattern can match from the start of a text, the matcher
    finds a match there that is no longer. *)
Lemma match_record_complete m' rest' :
  record_like m' ->
  exists m,
    Regex.match_record (m' +:+ rest') = Some m
    /\ (String.length m <= String.length m')%nat.
Proof.
  intros (len & value & body & -> & Hel & Hdl & Hev & Hdv & Hbody).
  unfold Regex.match_record.
  assert (Hpre : Regex.strip_prefix "<QSO_DATE:"
            (("<QSO_DATE:" +:+ len +:+ ">" +:+ value +:+ body +:+ "<EOR>")
             +:+ rest')
          = Some (len +:+ ">" +:+ value +:+ body +:+ "<EOR>" +:+ rest')).
  { rewrite !append_assoc. reflexivity. }
  rewrite Hpre.
  rewrite (span_append is_digit len (">" +:+ value +:+ body +:+ "<EOR>" +:+ rest'))
    by done.
  rewrite Hel. rewrite append_cons, append_nil_l.
  rewrite (span_all_prefix is_digit value) by done.
  assert (Hspan : Regex.span is_digit (body +:+ "<EOR>" +:+ rest')
                  = ((Regex.span is_digit body).1,
                     (Regex.span is_digit body).2 +:+ "<EOR>" +:+ rest')).
  { apply span_append_tag_start; [done|]. reflexivity. }
  rewrite Hspan. cbn [fst snd].
  destruct (Regex.span is_digit body) as [x body''] eqn:Hx.
  apply span_spec in Hx as (-> & Hdx & _). cbn [fst snd].
  assert (Hne : is_empty (value +:+ x) = false).
  { destruct value; [done|]. by rewrite append_cons. }
  rewrite Hne.
  unfold no_newline in Hbody. rewrite all_chars_append in Hbody.
  apply andb_prop in Hbody as [_ Hbody''].
  destruct (lazy_to_eor_complete body'' rest' Hbody'') as (b & -> & Hlen).
  eexists. split; [reflexivity|].
  repeat rewrite length_append. cbn [String.length].
  repeat rewrite length_append. cbn [String.length]. lia.
Qed.

Lemma search_record_none text_data :
  Regex.search_record text_data = None ->
  forall before rest,
    text_data = before +:+ rest -> Regex.match_record rest = None.
Proof.
  induction text_data as [|c t IH]; cbn [Regex.search_record].
  - destruct (Regex.match_record EmptyString) eqn:Hm; [done|].
    intros _ before rest Heq. destruct before; [|done].
    rewrite append_nil_l in Heq. by subst rest.
  - destruct (Regex.match_record (String c t)) eqn:Hm; [done|].
    intros Hs [|c' before] rest Heq.
    + rewrite append_nil_l in Heq. by subst rest.
    + rewrite append_cons in Heq. injection Heq as <- ->. by apply IH with before.
Qed.

Lemma search_record_leftmost text_data : forall m,
  Regex.search_record text_data = Some m ->
  exists before rest,
    text_data = before +:+ m +:+ rest
    /\ Regex.match_record (m +:+ rest) = Some m
    /\ forall before' rest',
         text_data = before' +:+ rest' ->
         (String.length before' < String.length before)%nat ->
         Regex.match_record rest' = None.
Proof.
  induction text_data as [|c t IH]; intros m; cbn [Regex.search_record].
  - destruct (Regex.match_record EmptyString) eqn:Hm; [|done].
    by vm_compute in Hm.
  - destruct (Regex.match_record (String c t)) as [m'|] eqn:Hm.
    + intros [= <-].
      destruct (match_record_spec _ _ Hm) as (? & ? & ? & rest & _ & Hs & _).
      exists EmptyString, rest. rewrite append_nil_l. split; [done|].
      split; [by rewrite <- Hs|]. intros ? ? _ Hlt. simpl in Hlt. lia.
    + intros (before & rest & -> & Hmatch & Hfirst)%IH.
      exists (String c before), rest. split; [done|]. split; [done|].
      intros [|c' before'] rest' Heq Hlt.
      * rewrite append_nil_l in Heq. by subst rest'.
      * rewrite !append_cons in Heq. injection Heq as <- Heq.
        apply (Hfirst before' rest' Heq). simpl in Hlt. lia.
Qed.

End RecordPattern.

(** X17. The record the listener extracts from a datagram is the leftmost
    piece of it that the record pattern can match (an upper-case
    [<QSO_DATE:] tag with a length of digits, a value that begins with a
    digit, and an [<EOR>] after it with no newline in between), and the
    shortest such piece at that place, so it ends with the first [<EOR>];
    and nothing is extracted only when no piece of the datagram has that
    form. *)
Theorem search_record_shape (text_data : string) :
  (forall adif_line,
      Regex.search_record text_data = Some adif_line ->
      exists before rest,
        text_data = before +:+ adif_line +:+ rest
        /\ record_like adif_line
        /\ forall before' m' rest',
             text_data = before' +:+ m' +:+ rest' -> record_like m' ->
             (String.length before <= String.length before')%nat
             /\ (before' = before ->
                 (String.length adif_line <= String.length m')%nat))
  /\ (Regex.search_record text_data = None ->
      forall before m rest,
        text_data = before +:+ m +:+ rest -> ~ record_like m).
Proof.
  split.
  - intros adif_line Hs.
    destruct (search_record_leftmost _ _ Hs)
      as (before & rest & Htext & Hm & Hfirst).
    exists before, rest. split; [done|]. split.
    { destruct (match_record_spec _ _ Hm)
        as (d1 & d2 & body & rest0 & -> & _ & He1 & Hd1 & He2 & Hd2 & Hbody).
      by exists d1, d2, body. }
    intros before' m' rest' Htext' Hlike.
    destruct (match_record_complete m' rest' Hlike) as (m0 & Hm0 & Hlen).
    split.
    + destruct (Nat.le_gt_cases (String.length before)
                  (String.length before')) as [|Hlt]; [done|].
      rewrite (Hfirst before' (m' +:+ rest') Htext' Hlt) in Hm0. done.
    + intros ->. rewrite Htext in Htext'.
      assert (Heq : adif_line +:+ rest = m' +:+ rest').
      { clear -Htext'. induction before as [|c before IH]; [done|].
        rewrite !append_cons in Htext'. injection Htext' as H. auto. }
      rewrite Heq, Hm0 in Hm. by injection Hm as <-.
  - intros Hs before m rest Htext Hlike.
    destruct (match_record_complete m rest Hlike) as (m0 & Hm0 & _).
    by rewrite (search_record_none _ Hs before (m +:+ rest) Htext) in Hm0.
Qed.

(** A newline before the end-of-record marker: nothing is extracted. *)
Example search_record_stops_at_a_newline :
  Regex.search_record ("<QSO_DATE:8>2024<CALL:1>A" +:+ nl +:+ "<EOR>") = None.
Proof. vm_compute. reflexivity. Qed.

(** ** The configuration file *)

Section Configuration.

Lemma rstrip_before_newline a s :
  rstrip a = a -> rstrip (a +:+ s +:+ nl) = a +:+ rstrip s.
Proof.
  intros Ha. rewrite rstrip_append.
  assert (Hs : rstrip (s +:+ nl) = rstrip s).
  { rewrite rstrip_append. change (is_empty (rstrip nl)) with true. done. }
  rewrite Hs. destruct (rstrip s); cbn [is_empty]; [|done].
  by rewrite Ha, append_nil_r.
Qed.

Lemma strip_save url api_key station_id :
  strip (Config.save url api_key station_id)
  = "url=" +:+ url +:+ String "010" ("apikey=" +:+ api_key +:+
    String "010" ("stationid=" +:+ rstrip station_id)).
Proof.
  unfold strip, Config.save.
  change (lstrip ("url=" +:+ ?x)) with ("url=" +:+ x).
  set (a := "url=" +:+ url +:+ String "010" ("apikey=" +:+ api_key +:+
            String "010" "stationid=")).
  assert (Heq : forall t,
    "url=" +:+ url +:+ String "010" ("apikey=" +:+ api_key +:+
      String "010" ("stationid=" +:+ t)) = a +:+ t).
  { intros t. unfold a.
    repeat first [rewrite append_assoc | rewrite append_cons
                 | rewrite append_nil_l].
    done. }
  change (String "010" EmptyString) with nl.
  rewrite !Heq. apply rstrip_before_newline.
  assert (Ha : a = ("url=" +:+ url +:+ nl +:+ "apikey=" +:+ api_key +:+ nl)
                   +:+ "stationid=").
  { unfold a, nl.
    repeat first [rewrite append_assoc | rewrite append_cons
                 | rewrite append_nil_l].
    done. }
  rewrite Ha at 1. rewrite rstrip_append.
  change (is_empty (rstrip "stationid=")) with false.
  change (rstrip "stationid=") with "stationid="%string. by rewrite <- Ha.
Qed.

End Configuration.

Section ConfigurationFile.

Lemma split_once_key key value :
  all_chars (fun c => negb (Ascii.eqb c "=")) key = true ->
  split_once "=" (key +:+ String "=" value) = Some (key, value).
Proof.
  induction key as [|c key IH]; [done|]. rewrite append_cons. simpl.
  intros [Hc Hk]%andb_prop. apply negb_true_iff in Hc. by rewrite Hc, IH.
Qed.

(** What [load] makes of what [save] wrote. *)
Lemma load_save url api_key station_id :
  one_line url = true -> one_line api_key = true ->
  one_line station_id = true ->
  Config.load (Some (Config.save url api_key station_id))
  = Some (settings (strip url) (strip api_key) (strip station_id)).
Proof.
  intros Hu Hk Hs. unfold Config.load.
  rewrite universal_newlines_id.
  2:{ unfold Config.save.
      rewrite !all_chars_append. cbn [all_chars].
      rewrite !all_chars_append. cbn [all_chars].
      rewrite !all_chars_append. cbn [all_chars].
      rewrite !(one_line_no_return _ Hu), !(one_line_no_return _ Hk),
        !(one_line_no_return _ Hs). done. }
  rewrite strip_save.
  assert (Hsplit :
    split "010" ("url=" +:+ url +:+ String "010" ("apikey=" +:+ api_key +:+
                 String "010" ("stationid=" +:+ rstrip station_id)))
    = ["url" +:+ String "=" url; "apikey" +:+ String "=" api_key;
       "stationid" +:+ String "=" (rstrip station_id)]).
  { rewrite <- (append_assoc "url=" url).
    rewrite split_append_sep.
    rewrite <- (append_assoc "apikey=" api_key).
    rewrite split_append_sep.
    rewrite !split_no_newline; [done|..].
    - unfold no_newline. rewrite all_chars_append.
      apply andb_true_intro. split; [done|].
      apply all_chars_rstrip, one_line_no_newline, Hs.
    - unfold no_newline. rewrite all_chars_append.
      apply andb_true_intro. split; [done|]. apply one_line_no_newline, Hk.
    - unfold no_newline. rewrite all_chars_append.
      apply andb_true_intro. split; [done|]. apply one_line_no_newline, Hu. }
  rewrite Hsplit. cbn [fold_left].
  rewrite !split_once_key by done.
  change (strip "url") with "url"%string.
  change (strip "apikey") with "apikey"%string.
  change (strip "stationid") with "stationid"%string.
  rewrite strip_rstrip. fold (settings (strip url) (strip api_key) (strip station_id)).
  assert (Hall :
    forallb (fun k => bool_decide
               (is_Some (settings (strip url) (strip api_key) (strip station_id) !! k)))
            ["url"; "apikey"; "stationid"]%string = true).
  { cbn [forallb]. unfold settings.
    rewrite !bool_decide_eq_true_2; [done|..].
    - rewrite lookup_insert_eq. by eexists.
    - rewrite lookup_insert_ne by done. rewrite lookup_insert_eq. by eexists.
    - rewrite !lookup_insert_ne by done. rewrite lookup_insert_eq. by eexists. }
  by rewrite Hall.
Qed.

End ConfigurationFile.

(** X18. What [Config.save] writes, [Config.load] reads back: for values
    that stay on one line the loaded dictionary holds exactly the keys
    [url], [apikey] and [stationid], each with the saved value trimmed of
    surrounding white space; values saved without surrounding white space
    come back as they were. *)
Theorem config_round_trip url api_key station_id :
  one_line url = true -> one_line api_key = true ->
  one_line station_id = true ->
  Config.load (Some (Config.save url api_key station_id))
  = Some (settings (strip url) (strip api_key) (strip station_id))
  /\ (strip url = url -> strip api_key = api_key ->
      strip station_id = station_id ->
      Config.load (Some (Config.save url api_key station_id))
      = Some (settings url api_key station_id)).
Proof.
  intros Hu Hk Hs. pose proof (load_save _ _ _ Hu Hk Hs) as Hload.
  split; [exact Hload|]. intros Eu Ek Es. by rewrite Hload, Eu, Ek, Es.
Qed.

Lemma config_round_trip_witness :
  Config.load (Some (Config.save "https://log.example.org " "secret" " 1"))
  = Some (settings "https://log.example.org" "secret" "1").
Proof.
  exact (proj1 (config_round_trip "https://log.example.org " "secret" " 1"
                  eq_refl eq_refl eq_refl)).
Defined.

Section Answers.
Variables (url_answer api_key_answer station_id_answer : string).

Let stored_url : string :=
  if startswith "http" (strip url_answer) then strip url_answer
  else "https://" +:+ strip url_answer.

Lemma stored_url_facts :
  one_line url_answer = true ->
  is_empty stored_url = false /\ strip stored_url = stored_url
  /\ one_line stored_url = true.
Proof.
  intros Hu. unfold stored_url.
  destruct (startswith "http" (strip url_answer)) eqn:Hp.
  - split; [|split].
    + destruct (strip url_answer); [discriminate Hp|done].
    + apply strip_idemp.
    + by apply one_line_strip.
  - split; [|split].
    + done.
    + apply strip_append_fixed; [done|done|apply strip_idemp].
    + rewrite one_line_append. apply andb_true_intro.
      split; [done|]. by apply one_line_strip.
Qed.

End Answers.

(** X19. [configure_interactive] followed by [Config.load]. When the API
    key or the station id is blank the configuration is what it was
    before. Otherwise the three trimmed answers are loaded, the URL with
    [https://] put before it unless it starts with [http]: the URL answer
    never blocks the set-up, a blank one is stored as [https://]. *)
Theorem configure_interactive_then_load
    url_answer api_key_answer station_id_answer config_file :
  one_line url_answer = true -> one_line api_key_answer = true ->
  one_line station_id_answer = true ->
  let url :=
    if startswith "http" (strip url_answer) then strip url_answer
    else "https://" +:+ strip url_answer in
  Config.load (configure_interactive url_answer api_key_answer
                 station_id_answer config_file)
  = if is_empty (strip api_key_answer) || is_empty (strip station_id_answer)
    then Config.load config_file
    else Some (settings url (strip api_key_answer) (strip station_id_answer)).
Proof.
  intros Hu Hk Hs url.
  destruct (stored_url_facts url_answer Hu) as (Hne & Hstrip & Hline).
  fold url in Hne, Hstrip, Hline.
  unfold configure_interactive. fold url. rewrite Hne. cbn [orb].
  destruct (is_empty (strip api_key_answer) || is_empty (strip station_id_answer));
    [done|].
  rewrite load_save by (try done; by apply one_line_strip).
  by rewrite Hstrip, !strip_idemp.
Qed.

Lemma configure_interactive_then_load_witness :
  Config.load (configure_interactive "" " secret" "1 " None)
  = Some (settings "https://" "secret" "1")
  /\ Config.load (configure_interactive "log.example.org" " " "1" None) = None.
Proof.
  split.
  - exact (configure_interactive_then_load "" " secret" "1 " None
             eq_refl eq_refl eq_refl).
  - exact (configure_interactive_then_load "log.example.org" " " "1" None
             eq_refl eq_refl eq_refl).
Defined.

Section LoadedSettings.

Lemma split_once_spec line key value :
  split_once "=" line = Some (key, value) ->
  line = key +:+ String "=" value
  /\ all_chars (fun c => negb (Ascii.eqb c "=")) key = true.
Proof.
  revert key. induction line as [|c line IH]; intros key; [done|].
  cbn [split_once]. destruct (Ascii.eqb c "=") eqn:Hc.
  - intros [= <- <-]. apply Ascii.eqb_eq in Hc. by subst c.
  - destruct (split_once "=" line) as [[k v]|]; [|done].
    intros [= <- <-]. destruct (IH k eq_refl) as [-> Hk].
    split; [done|]. simpl. by rewrite Hc, Hk.
Qed.

(** What holds of a key and its value in a loaded configuration. *)
Let tidy (key value : string) : Prop :=
  strip key = key /\ strip value = value
  /\ one_line key = true /\ one_line value = true.

Lemma load_fold_tidy lines : forall config : gmap string string,
  Forall (fun line => one_line line = true) lines ->
  map_Forall tidy config ->
  map_Forall tidy
    (fold_left (fun (config : gmap string string) line =>
                  match split_once "=" line with
                  | Some (key, value) => <[ strip key := strip value ]> config
                  | None => config
                  end) lines config).
Proof.
  induction lines as [|line lines IH]; intros config Hlines Hconfig; [done|].
  inversion Hlines as [|? ? Hline Hrest]; subst. cbn [fold_left].
  apply IH; [done|].
  destruct (split_once "=" line) as [[key value]|] eqn:Hsplit; [|done].
  apply split_once_spec in Hsplit as [-> _].
  rewrite one_line_append in Hline. apply andb_prop in Hline as [Hk Hv].
  cbn [one_line all_chars] in Hv. apply andb_prop in Hv as [_ Hv].
  apply map_Forall_insert_2; [|done].
  repeat split; try apply strip_idemp; by apply one_line_strip.
Qed.

End LoadedSettings.

(** X20. A configuration that [Config.load] returns is complete and tidy,
    whatever the file holds: the file exists, the keys [url], [apikey] and
    [stationid] are all there, and every key and every value is trimmed of
    surrounding white space and holds no line break. *)
Theorem loaded_configuration_is_complete config_file config :
  Config.load config_file = Some config ->
  is_Some config_file
  /\ is_Some (config !! "url"%string) /\ is_Some (config !! "apikey"%string)
  /\ is_Some (config !! "stationid"%string)
  /\ forall key value, config !! key = Some value ->
       strip key = key /\ strip value = value
       /\ one_line key = true /\ one_line value = true.
Proof.
  unfold Config.load. destruct config_file as [content|]; [|done].
  set (lines := split "010" (strip (universal_newlines content))).
  set (folded := fold_left _ lines ∅).
  destruct (forallb _ _) eqn:Hall; [|done]. intros [= <-].
  cbn [forallb] in Hall.
  apply andb_prop in Hall as [Hurl Hall]. apply andb_prop in Hall as [Hkey Hall].
  apply andb_prop in Hall as [Hid _].
  apply bool_decide_eq_true in Hurl, Hkey, Hid.
  split; [by eexists|]. split; [done|]. split; [done|]. split; [done|].
  assert (Hlines : Forall (fun line => one_line line = true) lines).
  { unfold lines.
    pose proof (split_pieces_no_newline (strip (universal_newlines content)))
      as Hnl.
    pose proof (split_pieces_all (fun c => negb (Ascii.eqb c "013")) "010"
                  (strip (universal_newlines content))
                  (all_chars_strip _ _ (universal_newlines_no_return content)))
      as Hcr.
    rewrite Forall_forall in Hcr. apply Forall_forall. intros line Hin.
    apply one_line_both; [|by apply Hcr].
    rewrite Forall_forall in Hnl. by apply Hnl. }
  intros key value Hlook.
  exact (load_fold_tidy lines ∅ Hlines (map_Forall_empty _) key value Hlook).
Qed.

Lemma loaded_configuration_is_complete_witness :
  let config := settings "https://log.example.org" "secret" "1" in
  is_Some (Some (Config.save "https://log.example.org" "secret" "1"))
  /\ is_Some (config !! "url"%string) /\ is_Some (config !! "apikey"%string)
  /\ is_Some (config !! "stationid"%string)
  /\ forall key value, config !! key = Some value ->
       strip key = key /\ strip value = value
       /\ one_line key = true /\ one_line value = true.
Proof.
  apply (loaded_configuration_is_complete
           (Some (Config.save "https://log.example.org" "secret" "1"))).
  vm_compute. reflexivity.
Defined.

(** ** Reading the records of a log file *)

Section NewRecords.
Variables (strptime : string -> option Z)
  (last_upload_time : option datetime).

(** The lines [read_new_records] keeps. *)
Let kept (line : string) : bool :=
  valid_record line
  && match parse_line (strip line) with
     | Some record => is_new_record strptime last_upload_time record
     | None => true
     end.

Lemma new_records_fold lines : forall new_records,
  fold_left (new_records_step strptime last_upload_time) lines new_records
  = new_records ++ map strip (List.filter kept lines).
Proof.
  induction lines as [|line lines IH]; intros acc.
  - simpl. by rewrite app_nil_r.
  - cbn [fold_left List.filter]. rewrite IH. unfold new_records_step, kept.
    unfold valid_record.
    destruct (is_empty (strip line)); [done|].
    destruct (startswith "#" (strip line)); [done|]. cbn [orb negb andb].
    destruct (parse_line (strip line)) as [record|] eqn:Hparse; [|done].
    destruct (falsy (Some record)); [done|]. cbn [negb andb].
    destruct (is_new_record strptime last_upload_time record); [|done].
    cbn [map]. by rewrite <- app_assoc.
Qed.

Lemma kept_valid lines :
  sublist (map strip (List.filter kept lines))
          (map strip (List.filter valid_record lines)).
Proof.
  induction lines as [|line lines IH]; [constructor|].
  cbn [List.filter]. unfold kept at 1.
  destruct (valid_record line); cbn [andb]; [|done].
  destruct (match parse_line (strip line) with
            | Some record => is_new_record strptime last_upload_time record
            | None => true
            end); cbn [map].
  - by apply sublist_skip.
  - by apply sublist_cons.
Qed.

(** Only a naive cutoff can drop a line, and only a line whose date and
    time are both there and read by [strptime] as a moment before it. *)
Lemma kept_timestamp line :
  kept line = true <->
  valid_record line = true
  /\ forall last stamp moment,
       last_upload_time = Some (Naive last) -> timestamp line = Some stamp ->
       strptime stamp = Some moment -> (last <= moment)%Z.
Proof.
  unfold kept, timestamp, is_new_record.
  destruct (valid_record line); cbn [andb]; [|by split; [|intros []]].
  destruct (parse_line (strip line)) as [record|];
    [|by split; [intros _; split|]].
  destruct last_upload_time as [[last|last]|];
    [| |by split; [intros _; split|]].
  2:{ split; [intros _; by split|]. intros _.
      destruct (_ && _); [|done]. by destruct (strptime _). }
  destruct (is_empty (get record "qso_date" "")); cbn [negb andb orb];
    [by split; [intros _; split|]|].
  destruct (is_empty (get record "time_on" "")); cbn [negb andb orb];
    [by split; [intros _; split|]|].
  destruct (strptime _) as [moment|] eqn:Hparse.
  - cbn [datetime_lt]. rewrite negb_true_iff, Z.ltb_ge. split.
    + intros Hle. split; [done|]. intros l s m [= <-] [= <-].
      rewrite Hparse. by intros [= <-].
    + intros [_ H]. by apply (H last _ moment eq_refl eq_refl).
  - split; [|done]. intros _. split; [done|]. intros l s m _ [= <-].
    by rewrite Hparse.
Qed.

Lemma kept_without_naive_cutoff lines :
  (forall last, last_upload_time <> Some (Naive last)) ->
  List.filter kept lines = List.filter valid_record lines.
Proof.
  intros Hcut. apply filter_ext. intros line.
  destruct (kept line) eqn:Hk.
  - apply kept_timestamp in Hk as [Hv _]. by rewrite Hv.
  - destruct (valid_record line) eqn:Hv; [|done].
    assert (Hkept : kept line = true); [|congruence].
    apply kept_timestamp. split; [done|].
    intros last stamp moment Hlast. by destruct (Hcut last).
Qed.

End NewRecords.

(** X21. [read_new_records] sends nothing and leaves the cache file alone.
    It returns a list unless an attempt to read the file fails with
    something that is no [IOError], which it lets through. A file whose
    five attempts fail with an [IOError] gives the empty list, after four
    sleeps. *)
Theorem read_new_records_outcome (strptime : string -> option Z)
    (e : env) (filepath : string) (last_upload_time : option datetime)
    (w : world) :
  let outcome i := fs_open e (trace w ++ before_attempt filepath i) filepath in
  let run := read_new_records strptime e filepath last_upload_time w in
  cache_file run.2 = cache_file w
  /\ posted (trace run.2) = posted (trace w)
  /\ ((exists new_records, run.1 = Ok new_records)
      \/ (exists n m,
            (n < 5)%nat
            /\ (forall i, (i < n)%nat -> exists m', outcome i = Locked m')
            /\ outcome n = Failed m
            /\ run.1 = Raise (OtherError m)))
  /\ ((forall i m, (i < 5)%nat -> outcome i <> Failed m) ->
      exists new_records, run.1 = Ok new_records)
  /\ ((forall i, (i < 5)%nat -> exists m, outcome i = Locked m) ->
      run = (Ok [],
             World (cache_file w)
               (trace w ++ before_attempt filepath 4 ++ [EvOpen filepath]))).
Proof.
  intros outcome run. subst run.
  unfold read_new_records, except_IOError, bind.
  pose proof (read_file_cache e filepath w) as Hcache.
  pose proof (read_file_posted e filepath w) as Hposted.
  unfold read_file in *. unfold max_retries in *.
  destruct (read_file_loop_spec e filepath 4 0 w eq_refl)
    as [(n & lines & Hn & Hlocked & Hopen & Hrun)
       |[(m & Hlocked & Hlast & Hrun)
        |(n & m & Hn & Hlocked & Hfail & Hrun)]]; rewrite Hrun in *;
    unfold ret; cbn [fst snd].
  - split; [by eapply Hcache|]. split; [by eapply Hposted|].
    split; [left; by eexists|]. split; [intros _; by eexists|].
    intros Hall. destruct (Hall n) as [m Hm]; [lia|].
    fold (outcome n) in Hopen. congruence.
  - split; [by eapply Hcache|]. split; [by eapply Hposted|].
    split; [left; by eexists|]. split; [intros _; by eexists|]. done.
  - split; [by eapply Hcache|]. split; [by eapply Hposted|].
    split; [right; exists n, m; repeat split; [lia|done|done]|].
    split.
    + intros Hnone. destruct (Hnone n m); [lia|done].
    + intros Hall. destruct (Hall n) as [m' Hm]; [lia|].
      fold (outcome n) in Hfail. congruence.
Qed.

(** X22. When the file can be read, [read_new_records] returns trimmed
    lines in the order of the file, picked among the lines that hold a
    record. Without a cutoff, or with a cutoff that carries a time zone
    (comparing it with the naive moment of a record raises, and the
    exception is swallowed), these are all of them. With a naive cutoff a
    line is kept exactly when it holds a record and its date and time,
    where both are there and [strptime] reads them, do not lie before the
    cutoff: a record whose date or time is empty or unreadable is kept. *)
Theorem read_new_records_selects (strptime : string -> option Z)
    (e : env) (filepath : string) (last_upload_time : option datetime)
    (w w' : world) (lines : list string) :
  read_file e filepath w = (Ok (Some lines), w') ->
  exists keep,
    read_new_records strptime e filepath last_upload_time w
    = (Ok (map strip (List.filter keep lines)), w')
    /\ sublist (map strip (List.filter keep lines))
               (map strip (List.filter valid_record lines))
    /\ ((forall last, last_upload_time <> Some (Naive last)) ->
        List.filter keep lines = List.filter valid_record lines)
    /\ forall line,
         keep line = true <->
         valid_record line = true
         /\ forall last stamp moment,
              last_upload_time = Some (Naive last) ->
              timestamp line = Some stamp ->
              strptime stamp = Some moment -> (last <= moment)%Z.
Proof.
  intros Hread.
  exists (fun line =>
            valid_record line
            && match parse_line (strip line) with
               | Some record => is_new_record strptime last_upload_time record
               | None => true
               end).
  split; [|split; [|split]].
  - unfold read_new_records, except_IOError, bind. rewrite Hread. unfold ret.
    by rewrite new_records_fold.
  - apply kept_valid.
  - apply kept_without_naive_cutoff.
  - apply kept_timestamp.
Qed.

Lemma read_new_records_selects_witness :
  let lines := [Sample.qso; "# log"%string] in
  let strptime := fun stamp : string =>
    if String.eqb stamp "20240115143000" then Some 1705329000%Z else None in
  (read_new_records strptime (Sample.friendly lines) "log.adi"
     (Some (Naive 1705329001)) Sample.empty_world).1 = Ok []
  /\ (read_new_records strptime (Sample.friendly lines) "log.adi"
        (Some (Aware 1705329001)) Sample.empty_world).1 = Ok [Sample.qso].
Proof.
  intros lines strptime. split.
  - destruct (read_new_records_selects strptime (Sample.friendly lines)
                "log.adi" (Some (Naive 1705329001)) Sample.empty_world
                (World None [EvOpen "log.adi"]) lines)
      as (keep & Hrun & _ & _ & Hkeep); [vm_compute; reflexivity|].
    rewrite Hrun. cbn [fst]. do 2 f_equal.
    assert (Hq : keep Sample.qso = false).
    { apply not_true_is_false. intros [_ Hle]%Hkeep.
      specialize (Hle 1705329001%Z "20240115143000"%string 1705329000%Z
                    eq_refl).
      assert (Hstamp : timestamp Sample.qso = Some "20240115143000"%string)
        by (vm_compute; reflexivity).
      specialize (Hle Hstamp eq_refl). lia. }
    assert (Hc : keep "# log"%string = false).
    { apply not_true_is_false. intros [Hv _]%Hkeep. vm_compute in Hv.
      discriminate Hv. }
    unfold lines. cbn [List.filter]. by rewrite Hq, Hc.
  - destruct (read_new_records_selects strptime (Sample.friendly lines)
                "log.adi" (Some (Aware 1705329001)) Sample.empty_world
                (World None [EvOpen "log.adi"]) lines)
      as (keep & Hrun & _ & Hall & _); [vm_compute; reflexivity|].
    rewrite Hrun, Hall by done. cbn [fst]. vm_compute. reflexivity.
Defined.

(** ** A session of the listener *)



